(** * generate-api-docs: extraction of luadoc comment blocks and
      regeneration of the reference pages and index documents.

    Shallow embedding of [tools/generate-api-docs.py] and the properties of
    its comment-block parser, block extractor, page renderer and index
    updater.

    Python 2 [str] values are byte strings: they are lists of [ascii].
    The module-level dictionary [MODULES], the files of the working
    directory and standard output form the program state, threaded through
    a state-and-exception monad. *)

From Stdlib Require Import Ascii String DecimalString List Arith Lia Bool ZArith.
From Stdlib Require Import Sorting.Sorted Sorting.Permutation.
From stdpp Require Import base option gmap strings list fin_maps.
Import ListNotations.

(* ===================================================================== *)
(** * Part I. Definitions                                                 *)
(* ===================================================================== *)

(** ** Byte strings and their literals *)

Definition str : Type := list ascii.

(** Literals are written as in the Python source: [\n], [\t], [\\] and
    [\xHH] are the escapes of the same name (a double quote is [\x22]). *)
Module Literal.

Definition hex_digit (c : ascii) : option N :=
  let n := N_of_ascii c in
  if ((48 <=? n) && (n <=? 57))%N then Some (n - 48)%N
  else if ((97 <=? n) && (n <=? 102))%N then Some (n - 87)%N
  else if ((65 <=? n) && (n <=? 70))%N then Some (n - 55)%N
  else None.

Fixpoint unescape (s : list ascii) : option string :=
  match s with
  | [] => Some EmptyString
  | "\"%char :: s1 =>
      match s1 with
      | "n"%char :: s2 => String "010"%char <$> unescape s2
      | "t"%char :: s2 => String "009"%char <$> unescape s2
      | "\"%char :: s2 => String "\"%char <$> unescape s2
      | "x"%char :: h :: l :: s2 =>
          match hex_digit h, hex_digit l with
          | Some a, Some b => String (ascii_of_N (16 * a + b)) <$> unescape s2
          | _, _ => None
          end
      | _ => None
      end
  | c :: s1 => String c <$> unescape s1
  end.

Definition parse (bs : list Byte.byte) : option string :=
  unescape (map ascii_of_byte bs).

Definition to_hex (n : N) : ascii :=
  if (n <? 10)%N then ascii_of_N (48 + n) else ascii_of_N (87 + n).

Fixpoint escape_chars (s : string) : list ascii :=
  match s with
  | EmptyString => []
  | String c s1 =>
      let n := N_of_ascii c in
      (if (n =? 10)%N then ["\"; "n"]
       else if (n =? 9)%N then ["\"; "t"]
       else if (n =? 92)%N then ["\"; "\"]
       else if ((n <? 32) || (n =? 34) || (126 <? n))%N
            then ["\"; "x"; to_hex (n / 16); to_hex (n mod 16)]
       else [c])%char ++ escape_chars s1
  end.

Definition print (s : string) : list Byte.byte :=
  map byte_of_ascii (escape_chars s).

End Literal.

Declare Scope str_scope.
Delimit Scope str_scope with str.
Bind Scope str_scope with str.
#[warnings="-via-type-remapping,-via-type-mismatch"]
String Notation str Literal.parse Literal.print
  (via string mapping [[nil] => EmptyString, [cons] => String]) : str_scope.
Open Scope str_scope.

Definition LF : ascii := "010".
Definition TAB : ascii := "009".
Definition SPACE : ascii := " ".

Definition ascii_eqb (a b : ascii) : bool := Ascii.eqb a b.
Infix "=c?" := ascii_eqb (at level 70).

Definition str_eqb (a b : str) : bool := bool_decide (a = b).
Infix "=s?" := str_eqb (at level 70).

(** ** The [str] methods the script uses *)

(** [s.startswith(p)] *)
Fixpoint startswith (p s : str) : bool :=
  match p, s with
  | [], _ => true
  | a :: p', b :: s' => (a =c? b) && startswith p' s'
  | _ :: _, [] => false
  end.

(** [s.find(sub)]: index of the first occurrence, [None] for [-1]. *)
Fixpoint find (sub s : str) : option nat :=
  if startswith sub s then Some 0
  else match s with
       | [] => None
       | _ :: s' => S <$> find sub s'
       end.

(** [s.replace(old, new, 1)] *)
Definition replace1 (old new s : str) : str :=
  match find old s with
  | Some i => take i s ++ new ++ drop (i + length old) s
  | None => s
  end.

(** [s.replace(old, new)] for a one-character [old]. *)
Definition replace_char (old : ascii) (new s : str) : str :=
  flat_map (fun c => if c =c? old then new else [c]) s.

(** [s.split(sep)] for a non-empty [sep]; every cut consumes at least one
    character, so [length s] rounds always suffice. *)
Fixpoint split_rounds (n : nat) (sep s : str) : list str :=
  match n with
  | 0 => [s]
  | S n' =>
      match find sep s with
      | Some i => take i s :: split_rounds n' sep (drop (i + length sep) s)
      | None => [s]
      end
  end.

Definition split (sep s : str) : list str := split_rounds (length s) sep s.

(** [sep.join(parts)] *)
Fixpoint join (sep : str) (parts : list str) : str :=
  match parts with
  | [] => []
  | [p] => p
  | p :: rest => p ++ sep ++ join sep rest
  end.

(** [s.lstrip(chars)], [s.rstrip(chars)], [s.strip(chars)] *)
Definition in_chars (chars : str) (c : ascii) : bool :=
  existsb (ascii_eqb c) chars.

Fixpoint lstrip (chars s : str) : str :=
  match s with
  | c :: s' => if in_chars chars c then lstrip chars s' else s
  | [] => []
  end.

Definition rstrip (chars s : str) : str := rev (lstrip chars (rev s)).

Definition strip (chars s : str) : str := rstrip chars (lstrip chars s).

(** The characters [str.isspace] accepts and the regular expression class
    [\s] matches (C locale). *)
Definition whitespace : str := " \t\n\x0d\x0b\x0c".

Definition isspace (c : ascii) : bool := in_chars whitespace c.

(** [s.rstrip()] *)
Definition rstrip_ws (s : str) : str := rstrip whitespace s.

(** [s.capitalize()] on bytes. *)
Definition upper_char (c : ascii) : ascii :=
  let n := nat_of_ascii c in
  if (97 <=? n) && (n <=? 122) then ascii_of_nat (n - 32) else c.

Definition lower_char (c : ascii) : ascii :=
  let n := nat_of_ascii c in
  if (65 <=? n) && (n <=? 90) then ascii_of_nat (n + 32) else c.

Definition capitalize (s : str) : str :=
  match s with
  | [] => []
  | c :: s' => upper_char c :: map lower_char s'
  end.

(** Slices [s[a:]] and [s[a:-b]]. *)
Definition slice_from (a : nat) (s : str) : str := drop a s.

Definition slice_between (a b : nat) (s : str) : str :=
  take (length s - b - a) (drop a s).

(** [f.readlines()]: the lines with their terminators; only the last line
    may lack one. *)
Fixpoint readlines (s : str) : list str :=
  match s with
  | [] => []
  | c :: s' =>
      if c =c? LF then [c] :: readlines s'
      else match readlines s' with
           | [] => [[c]]
           | l :: ls => (c :: l) :: ls
           end
  end.

(** [os.path.basename] (POSIX). *)
Definition basename (path : str) : str :=
  match split "/" path with
  | [] => path
  | p :: ps => List.last ps p
  end.

(** ** Python's ordering on strings, tuples and lists, and [sorted] *)

(** Sequences compare at their first differing element, then by length. *)
Fixpoint seq_lt {A} (lt : A -> A -> bool) (a b : list A) : bool :=
  match a, b with
  | _, [] => false
  | [], _ :: _ => true
  | x :: a', y :: b' =>
      if lt x y then true else if lt y x then false else seq_lt lt a' b'
  end.

(** Byte strings compare as sequences of unsigned bytes. *)
Definition ascii_lt (x y : ascii) : bool := nat_of_ascii x <? nat_of_ascii y.

Definition str_lt (a b : str) : bool := seq_lt ascii_lt a b.

Definition pair_lt {A B} (lta : A -> A -> bool) (ltb : B -> B -> bool)
    (p q : A * B) : bool :=
  if lta (fst p) (fst q) then true
  else if lta (fst q) (fst p) then false
  else ltb (snd p) (snd q).

(** [sorted(l, key = key)]: a stable sort under [<] on the keys. *)
Section Sorted.
Context {A K : Type} (lt : K -> K -> bool) (key : A -> K).

Fixpoint insert_sorted (x : A) (l : list A) : list A :=
  match l with
  | [] => [x]
  | y :: l' =>
      if lt (key y) (key x) then y :: insert_sorted x l'
      else x :: y :: l'
  end.

Fixpoint sorted (l : list A) : list A :=
  match l with
  | [] => []
  | x :: l' => insert_sorted x (sorted l')
  end.
End Sorted.

(** ** The two regular expressions *)

(** [re.findall(pattern, s)] for a pattern without groups: the matches,
    left to right and without overlap.  [re bol s] is the length of the
    match of the pattern at the head of [s], where [bol] tells whether
    that position starts a line ([^] under [re.MULTILINE]).  Neither
    pattern of the script matches the empty string.  Every round consumes
    a character, so [length s] rounds suffice. *)
Definition ends_line (s : str) : bool :=
  match last s with
  | Some c => c =c? LF
  | None => false
  end.

Fixpoint findall_rounds (n : nat) (re : bool -> str -> option nat)
    (bol : bool) (s : str) : list str :=
  match n, s with
  | S n', c :: s' =>
      match re bol s with
      | Some (S k) =>
          take (S k) s ::
          findall_rounds n' re (ends_line (take (S k) s)) (drop (S k) s)
      | _ => findall_rounds n' re (c =c? LF) s'
      end
  | _, _ => []
  end.

Definition findall (re : bool -> str -> option nat) (s : str) : list str :=
  findall_rounds (length s) re true s.

(** [\s*\n]: [\s*] is greedy, so the match is the longest run of white
    space that ends in a newline. *)
Fixpoint match_blank (s : str) : option nat :=
  match s with
  | c :: s' =>
      if isspace c then
        match match_blank s' with
        | Some n => Some (S n)
        | None => if c =c? LF then Some 1 else None
        end
      else None
  | [] => None
  end.

(** [.*?\n\s*\n] under [re.DOTALL]: [.*?] is lazy, so it stops at the first
    newline after which [\s*\n] matches. *)
Fixpoint match_upto_blank (s : str) : option nat :=
  match s with
  | c :: s' =>
      match (if c =c? LF then match_blank s' else None) with
      | Some n => Some (S n)
      | None => S <$> match_upto_blank s'
      end
  | [] => None
  end.

(** ["^@" + item + ".*?\n\s*\n"] with [re.DOTALL | re.MULTILINE].  The tag
    is taken literally: the script passes [function], [param], [retval]
    and [notice], none of which holds a character special in a pattern. *)
Definition item_pattern (item : str) (bol : bool) (s : str) : option nat :=
  if bol && startswith ("@" ++ item) s
  then (fun n => length item + 1 + n) <$>
         match_upto_blank (drop (length item + 1) s)
  else None.

(** ["/\*luadoc.*?\*/"] with [re.DOTALL]. *)
Definition luadoc_pattern (bol : bool) (s : str) : option nat :=
  if startswith "/*luadoc" s
  then (fun i => 8 + i + 2) <$> find "*/" (drop 8 s)
  else None.

(** Tags whose text means itself inside a pattern. *)
Definition plain_char (c : ascii) : bool :=
  negb (in_chars ".^$*+?{}[]\\|()" c).

Definition plain_tag (item : str) : bool := forallb plain_char item.

(** ** Records, program state and exceptions *)

(** [(moduleName, funcName, funcDefinition, description, params, retvals,
    notices)] *)
Record func : Type := Func {
  moduleName : str;
  funcName : str;
  funcDefinition : str;
  description : str;
  params : list (str * str);
  retvals : list (str * str);
  notices : list str
}.

#[global] Instance func_eq_dec : EqDecision func.
Proof. solve_decision. Defined.

(** The tuple order [sorted(MODULES[m])] uses. *)
Definition func_lt (f g : func) : bool :=
  let lex {A} (lt : A -> A -> bool) (x y : A) (rest : bool) :=
    if lt x y then true else if lt y x then false else rest in
  lex str_lt (moduleName f) (moduleName g)
  (lex str_lt (funcName f) (funcName g)
  (lex str_lt (funcDefinition f) (funcDefinition g)
  (lex str_lt (description f) (description g)
  (lex (seq_lt (pair_lt str_lt str_lt)) (params f) (params g)
  (lex (seq_lt (pair_lt str_lt str_lt)) (retvals f) (retvals g)
  (seq_lt str_lt (notices f) (notices g))))))).

Inductive exn : Type :=
  | SystemExit (code : Z)
  | IndexError
  | KeyError (key : str)
  | IOError (path : str).

Inductive outcome (A : Type) : Type :=
  | Return (a : A)
  | Raise (e : exn).
Arguments Return {A} a.
Arguments Raise {A} e.

(** [fs]: the files reachable from the working directory, by path;
    [stdout]: what was printed, one entry per [print];
    [MODULES]: the global dictionary of the script;
    [clock]: how many times the time was read. *)
Record world : Type := World {
  fs : gmap str str;
  stdout : list str;
  MODULES : gmap str (list func);
  clock : nat
}.

Definition M (A : Type) : Type := world -> outcome A * world.

#[global] Instance M_ret : MRet M := fun A a w => (Return a, w).
#[global] Instance M_bind : MBind M := fun A B k m w =>
  match m w with
  | (Return a, w') => k a w'
  | (Raise e, w') => (Raise e, w')
  end.

Definition raise {A} (e : exn) : M A := fun w => (Raise e, w).
Definition get_world : M world := fun w => (Return w, w).

Definition print (txt : str) : M unit := fun w =>
  (Return tt, World (fs w) (stdout w ++ [txt]) (MODULES w) (clock w)).

(** [open(path, "r").read()] *)
Definition read_file (path : str) : M str := fun w =>
  match fs w !! path with
  | Some data => (Return data, w)
  | None => (Raise (IOError path), w)
  end.

(** [open(path, "w").write(data)] *)
Definition write_file (path data : str) : M unit := fun w =>
  (Return tt, World (<[path := data]> (fs w)) (stdout w) (MODULES w) (clock w)).

Definition set_MODULES (m : gmap str (list func)) : M unit := fun w =>
  (Return tt, World (fs w) (stdout w) m (clock w)).

Definition tick : M nat := fun w =>
  (Return (clock w), World (fs w) (stdout w) (MODULES w) (S (clock w))).

(** [for x in l: body(x)] *)
Fixpoint for_each {A} (l : list A) (body : A -> M unit) : M unit :=
  match l with
  | [] => mret tt
  | x :: l' => body x ;; for_each l' body
  end.

(** What the run depends on and the working directory does not hold: the
    time read at each call of [utcnow], the paths [glob.glob] reports for a
    pattern (in the order it finds them) and the remote resources. *)
Record datetime : Type := Datetime {
  year : nat; month : nat; day : nat;
  hour : nat; minute : nat; second : nat
}.

Record env : Type := Env {
  utcnow : nat -> datetime;
  glob : gmap str str -> str -> list str;
  urlopen : str -> option str
}.

(** ["%d" % n] *)
Definition str_of_nat (n : nat) : str :=
  list_ascii_of_string (NilEmpty.string_of_uint (Nat.to_uint n)).

Definition digit (n : nat) : ascii := ascii_of_nat (48 + n mod 10).

Definition two_digits (n : nat) : str := [digit (n / 10); digit n].

Definition four_digits (n : nat) : str :=
  [digit (n / 1000); digit (n / 100); digit (n / 10); digit n].

(** [strftime('%Y/%m/%d %H:%M:%S UTC')] *)
Definition strftime (t : datetime) : str :=
  four_digits (year t) ++ "/" ++ two_digits (month t) ++ "/" ++
  two_digits (day t) ++ " " ++ two_digits (hour t) ++ ":" ++
  two_digits (minute t) ++ ":" ++ two_digits (second t) ++ " UTC".

(** ** The script *)

Definition STARTMARKER : str := "[//]: <> (LUADOC-BEGIN:".
Definition ENDMARKER : str := "[//]: <> (LUADOC-END:".
Definition SUMMARYFILE : str := "SUMMARY.md".
Definition READMEFILE : str := "README.md".
Definition DOCBASE : str :=
  "https://raw.githubusercontent.com/opentx/lua-reference-guide/master/".

(** The development follows the run without [-d]: [DEBUG] is [False] and
    [logDebug] prints nothing. *)
Definition logInfo (txt : str) : M unit := print ("Info: " ++ txt).

Definition logError (txt : str) : M unit :=
  print ("Error: " ++ txt) ;; raise (SystemExit 1).

(** [l[0]] *)
Definition first_item {A} (l : list A) : M A :=
  match l with
  | x :: _ => mret x
  | [] => raise IndexError
  end.

(** [s.split(sep)[0]] and [s.split(sep)[1:]]; [split] never returns the
    empty list. *)
Definition split_head (sep s : str) : str := hd [] (split sep s).
Definition split_tail (sep s : str) : list str := tl (split sep s).

Definition parseParameters (lines : list str) : list (str * str) :=
  map (fun l =>
         let paramName := strip " \t\n" (split_head " " l) in
         let paramText := join " " (split_tail " " l) in
         (paramName, paramText)) lines.

Definition extractItems (item doc : str) : list str * str :=
  (* find all items *)
  let items := findall (item_pattern item) doc in
  (* remove found items from the text *)
  let leftoverLines := fold_left (fun left i => replace1 i "" left) items doc in
  (* format found items *)
  let result := map (slice_from (length item + 2)) items in
  (result, leftoverLines).

(** Lines 145-151: the function name and the module name of a declaration.
    The unpacking [moduleName, funcName = funcName.split(".")] raises
    unless the list has two elements exactly, and [except: pass] then keeps
    both names as they were. *)
Definition parseNames (funcDefinition : str) : str * str :=
  let funcName := split_head "(" funcDefinition in
  let moduleName := "general" in
  match split "." funcName with
  | [m; f] => (m, f)
  | _ => (moduleName, funcName)
  end.

Definition register (f : func) : M unit :=
  w ← get_world;
  let known := default [] (MODULES w !! moduleName f) in
  set_MODULES (<[moduleName f := known ++ [f]]> (MODULES w)).

Definition parseFunction (doc : str) : M unit :=
  let '(functions, lines) := extractItems "function" (doc ++ "\n") in
  funcDefinition ← first_item functions;
  let '(moduleName, funcName) := parseNames funcDefinition in
  let '(params, lines) := extractItems "param" lines in
  let params := parseParameters params in
  let '(retvals, lines) := extractItems "retval" lines in
  let retvals := parseParameters retvals in
  let '(notices, lines) := extractItems "notice" lines in
  let description := lines in
  (* add to registry *)
  register (Func moduleName funcName funcDefinition description
                 params retvals notices).

(** The text of a block between its delimiters, and the line that names its
    content. *)
Definition blockText (doc : str) : str := slice_between 9 3 doc ++ "\n".

Definition firstLine (doc : str) : str :=
  strip " \t\n" (split_head "\n" (blockText doc)).

Definition parseDoc (doc : str) : M unit :=
  (* remove beginning and end delimiter *)
  let doc := blockText doc in
  (* first line defines contents *)
  let firstLine := strip " \t\n" (split_head "\n" doc) in
  (if length firstLine <? 2
   then logError ("definition missing in:\n" ++ doc)
   else mret tt) ;;
  let contentType := split_head " " firstLine in
  if contentType =s? "@function" then parseFunction doc
  else if contentType =s? "@foobar" then mret tt
  else logInfo ("Unknown content type: " ++ contentType).

Definition parseSource (data : str) : M unit :=
  let docs := findall luadoc_pattern data in
  logInfo ("Found " ++ str_of_nat (length docs) ++ " documentation sections") ;;
  for_each docs parseDoc.

Definition escape (txt : str) : str :=
  replace_char ">" "&gt;" (replace_char "<" "&lt;" txt).

(** [byExtension_key(example)], where [example] is a path cut at its dots. *)
Definition byExtension_key (example : list str) : M str :=
  (* sorts such that display order is notes(.md), example(.lua), output(.png) *)
  e1 ← first_item (tl example);
  let order :=
    if e1 =s? "lua" then ".1"
    else if e1 =s? "png" then ".2"
    else ".0" (* assume notes *) in
  e0 ← first_item example;
  mret (e0 ++ order).

(** [sorted(l, key = f)] calls [f] on every element first and then sorts
    the elements by the keys it returned. *)
Fixpoint decorate {A K} (f : A -> M K) (l : list A) : M (list (K * A)) :=
  match l with
  | [] => mret []
  | x :: l' => k ← f x; kl ← decorate f l'; mret ((k, x) :: kl)
  end.

Definition sorted_by_key {A} (f : A -> M str) (l : list A) : M (list A) :=
  kl ← decorate f l;
  mret (map snd (sorted str_lt fst kl)).

Section Script.
Context (E : env).

(** The body of the loop of [addExamples]: [doc] with one example added. *)
Definition addExample (doc : str) (example : list str) : M str :=
  e0 ← first_item example;
  e1 ← first_item (tl example);
  let fileName := e0 ++ "." ++ e1 in
  logInfo ("Adding contents of example " ++ fileName) ;;
  contents ← read_file fileName;
  let doc :=
    if e1 =s? "md" then
      (* md files are included verbatim *)
      doc ++ contents ++ "\n\n"
    else doc in
  let doc :=
    if e1 =s? "lua" then
      (* add download link before content is included *)
      let doc := doc ++ "<a class=\x22dlbtn\x22 href=\x22" ++ DOCBASE ++
                   replace_char "\" "/" fileName ++ "\x22>" ++
                   replace_char "\" "/" e0 ++ "</a>\n\n" in
      (* lua files are escaped in code block *)
      let doc := doc ++ "```lua\n" in
      let doc := doc ++ contents in
      let doc := if ends_line doc then doc else doc ++ "\n" in
      doc ++ "```\n\n"
    else doc in
  let doc :=
    if e1 =s? "png" then
      (* png files are linked as images *)
      doc ++ "![](" ++ basename fileName ++ ")" ++ "\n\n"
    else doc in
  mret doc.

Fixpoint addExampleList (doc : str) (examples : list (list str)) : M str :=
  match examples with
  | [] => mret doc
  | example :: rest =>
      doc ← addExample doc example;
      addExampleList doc rest
  end.

Definition addExamples (moduleName funcName : str) : M str :=
  let doc := [] in
  let examplePattern := moduleName ++ "/" ++ funcName ++ "-example*.*" in
  w ← get_world;
  let examples := glob E (fs w) examplePattern in
  if bool_decide (0 < length examples) then
    (* sort examples considering their extension
       (.md -> .lua -> .png within the same base name) *)
    examples ← sorted_by_key byExtension_key (map (split ".") examples);
    (* header *)
    let doc := doc ++ "\n\n---\n\n### Examples\n\n" in
    addExampleList doc examples
  else mret doc.

Definition bullets (ps : list (str * str)) : str :=
  match ps with
  | [] => "none"
  | _ => flat_map (fun p => "* `" ++ fst p ++ "` " ++ snd p) ps
  end.

Definition generateFunctionDoc (f : func) : M str :=
  let doc :=
    "<!-- This file was generated by the script. Do not edit it, any changes will be lost! -->\n\n"
    (* name *)
    ++ "## " ++ escape (funcDefinition f) ++ "\n\n"
    (* description *)
    ++ description f ++ "\n"
    (* params *)
    ++ "#### Parameters\n\n" ++ bullets (params f) ++ "\n\n"
    (* return values *)
    ++ "#### Return value\n\n" ++ bullets (retvals f) ++ "\n\n"
    (* notices *)
    ++ (match notices f with
        | [] => []
        | _ => "##### Notice\n" ++ flat_map (fun p => p ++ "\n") (notices f)
        end) in
  (* look for other pre-created examples and include them *)
  examples ← addExamples (moduleName f) (funcName f);
  mret (doc ++ examples).

(** [newContents[-1] = v] *)
Definition set_last (l : list str) (v : str) : list str :=
  removelast l ++ [v].

Definition startLine (sectionName : str) : str :=
  "   * [" ++ capitalize sectionName ++ " Functions](" ++ sectionName ++
  "/" ++ sectionName ++ "_functions.md) " ++ STARTMARKER ++ sectionName ++
  ")\n".

Definition overviewFileName (sectionName : str) : str :=
  sectionName ++ "/" ++ sectionName ++ "_functions-overview.md".

Definition overviewLine (sectionName : str) : str :=
  "      * [" ++ capitalize sectionName ++ " Functions Overview](" ++
  overviewFileName sectionName ++ ")\n".

Definition functionLine (sectionName : str) (f : func) : str :=
  "      * [" ++ rstrip_ws (funcDefinition f) ++ "](" ++ sectionName ++
  "/" ++ funcName f ++ ".md)\n".

Definition timestampLine (t : datetime) : str :=
  "<div class=\x22footer\x22>last updated on " ++ strftime t ++ "</div>\n".

Definition insertSection (newContents : list str) (sectionName : str)
    : M (list str) :=
  if sectionName =s? "timestamp" then
    n ← tick;
    mret (newContents ++
          [STARTMARKER ++ sectionName ++ ")\n";
           timestampLine (utcnow E n);
           ENDMARKER ++ sectionName ++ ")\n"])
  else
    let newContents := newContents ++ [startLine sectionName] in
    (* look for an overview for the section and insert it if found *)
    w ← get_world;
    let newContents :=
      if bool_decide (is_Some (fs w !! overviewFileName sectionName))
      then newContents ++ [overviewLine sectionName]
      else newContents in
    match MODULES w !! sectionName with
    | None => raise (KeyError sectionName)
    | Some fns =>
        let newContents :=
          newContents ++ map (functionLine sectionName) (sorted func_lt id fns) in
        mret (set_last newContents
                (rstrip_ws (List.last newContents []) ++ " " ++ ENDMARKER ++
                 sectionName ++ ")\n"))
    end.

Definition contains (sub line : str) : bool :=
  bool_decide (is_Some (find sub line)).

(** [line.split(ENDMARKER)[1].split(")")[0]] on a line that holds
    [ENDMARKER]. *)
Definition sectionNameOf (line : str) : str :=
  split_head ")" (hd [] (split_tail ENDMARKER line)).

(** The loop of [replaceSections] over the lines left to read. *)
Fixpoint replaceLines (contents : list str) (newContents : list str)
    (ignoreLine : bool) : M (list str) :=
  match contents with
  | [] => mret newContents
  | line :: rest =>
      if contains STARTMARKER line then
        replaceLines rest newContents true
      else if contains ENDMARKER line then
        (* parse the section name and call insertSection *)
        newContents ← insertSection newContents (sectionNameOf line);
        replaceLines rest newContents false
      else if negb ignoreLine then
        replaceLines rest (newContents ++ [line]) ignoreLine
      else
        replaceLines rest newContents ignoreLine
  end.

Definition replaceSections (fileName : str) : M unit :=
  data ← read_file fileName;
  let contents := readlines data in
  newContents ← replaceLines contents [] false;
  write_file fileName (concat newContents) ;;
  logInfo ("generated " ++ fileName).

(** [mkdir_p(os.path.dirname(docName))]: directories are not part of the
    state, a file is known by its path. *)
Definition mkdir_p (path : str) : M unit := mret tt.

Definition fetch (fileName : str) : M str :=
  if startswith "http" fileName then
    match urlopen E fileName with
    | Some data => mret data
    | None => raise (IOError fileName)
    end
  else read_file fileName.

Definition defaultFiles : list str :=
  let urlBase := "https://raw.githubusercontent.com/opentx/opentx/master/radio/src/lua/" in
  map (app urlBase) ["api_general.cpp"; "api_lcd.cpp"; "api_model.cpp"].

Definition summaryLine (f : func) (docName : str) : str :=
  if negb (moduleName f =s? "general")
  then "       * [" ++ moduleName f ++ "." ++ funcName f ++ "()](" ++ docName ++ ")\n"
  else "       * [" ++ funcName f ++ "()](" ++ docName ++ ")\n".

Definition writePages (fns : list func) : M unit :=
  for_each (sorted func_lt id fns) (fun f =>
    doc ← generateFunctionDoc f;
    let docName := moduleName f ++ "/" ++ funcName f ++ ".md" in
    mkdir_p docName ;;
    write_file docName doc ;;
    logInfo ("generated " ++ docName)).

Definition scanFiles (files : list str) : M unit :=
  for_each files (fun fileName =>
    logInfo ("Opening " ++ fileName) ;;
    data ← fetch fileName;
    parseSource data).

(** The main program; [files] is [args.files]. *)
Definition main (files : list str) : M unit :=
  let files := match files with [] => defaultFiles | _ => files end in
  scanFiles files ;;
  (* show gathered data *)
  w ← get_world;
  for_each (map_to_list (MODULES w)) (fun '(m, fns) =>
    writePages fns ;;
    print "Summary:" ;;
    print (flat_map (fun f => summaryLine f (moduleName f ++ "/" ++ funcName f ++ ".md"))
                    (sorted func_lt id fns))) ;;
  (* now update SUMMARY.MD replacing the outdated sections *)
  replaceSections SUMMARYFILE ;;
  (* now update the timestamp in README.md *)
  replaceSections READMEFILE.

End Script.

(** ** Notions the properties are stated with *)

(** The text before the first [c] of [s], the text after it, and how many
    [c] there are. *)
Fixpoint before (c : ascii) (s : str) : str :=
  match s with
  | [] => []
  | x :: s' => if x =c? c then [] else x :: before c s'
  end.

Fixpoint after (c : ascii) (s : str) : str :=
  match s with
  | [] => []
  | x :: s' => if x =c? c then s' else after c s'
  end.

Fixpoint count_char (c : ascii) (s : str) : nat :=
  match s with
  | [] => 0
  | x :: s' => (if x =c? c then 1 else 0) + count_char c s'
  end.

(** The first token of a line delimited by white space, as [l.split()[0]]
    gives it. *)
Fixpoint until_space (s : str) : str :=
  match s with
  | [] => []
  | c :: s' => if isspace c then [] else c :: until_space s'
  end.

Definition first_token (l : str) : str := until_space (lstrip whitespace l).

(** The state a run starts from when the working directory is empty. *)
Definition initial : world := World ∅ [] ∅ 0.

(** A computation that writes no file. *)
Definition keeps_files {A} (m : M A) : Prop :=
  forall w, fs (snd (m w)) = fs w.

(** The state after some more lines were printed. *)
Definition printed (w : world) (lines : list str) : world :=
  World (fs w) (stdout w ++ lines) (MODULES w) (clock w).

(** An environment without remote resources or example files. *)
Definition offline : env :=
  Env (fun _ => Datetime 2016 1 1 0 0 0) (fun _ _ => []) (fun _ => None).

(** Whether position [p] of [text] starts a line. *)
Definition line_start (text : str) (p : nat) : bool :=
  match p with
  | 0 => true
  | S q => match text !! q with Some c => c =c? LF | None => false end
  end.

(** The match of a pattern at position [p] of [text]: its length. *)
Definition match_at (re : bool -> str -> option nat) (text : str) (p : nat)
    : option nat :=
  re (line_start text p) (drop p text).

(** The sub-block of tag [item] that starts at position [p] of [text] (a
    line starting with [@item], followed by any text, up to the next blank
    line and the blank lines that follow it): its length. *)
Definition block_at (item text : str) (p : nat) : option nat :=
  match_at (item_pattern item) text p.

(** The positions of [text] at which a sub-block of tag [item] starts. *)
Definition blocks (item text : str) : list nat :=
  List.filter (fun p => bool_decide (is_Some (block_at item text p)))
    (seq 0 (length text)).

(** [s] without its prefix [p], if it starts with it. *)
Definition without_prefix (p s : str) : str :=
  if startswith p s then drop (length p) s else s.

(** [s'] is [s] with its first occurrence of [chunk] cut out. *)
Definition removes_first (chunk s s' : str) : Prop :=
  exists a b, s = a ++ chunk ++ b /\ s' = a ++ b /\
    forall a' b', s = a' ++ chunk ++ b' -> length a <= length a'.

(** [s'] is [s] after the chunks were cut out one after the other, each at
    its first occurrence in what was left by then. *)
Inductive removed_in_order : list str -> str -> str -> Prop :=
  | removed_nil (s : str) : removed_in_order [] s s
  | removed_cons (chunk : str) (chunks : list str) (s s1 s' : str) :
      removes_first chunk s s1 ->
      removed_in_order chunks s1 s' ->
      removed_in_order (chunk :: chunks) s s'.

(** The chunks occur in [s] one after the other, without overlap. *)
Fixpoint in_sequence (chunks : list str) (s : str) : Prop :=
  match chunks with
  | [] => True
  | c :: cs => exists g r, s = g ++ c ++ r /\ in_sequence cs r
  end.

(** A comparison [<] that is a strict total order. *)
Record strict_total {K : Type} (lt : K -> K -> bool) : Prop := StrictTotal {
  lt_irrefl : forall x, lt x x = false;
  lt_trans : forall x y z, lt x y = true -> lt y z = true -> lt x z = true;
  lt_total : forall x y, lt x y = false -> lt y x = false -> x = y
}.

(** [x <= y] under [key], that is, not [key y < key x]. *)
Definition key_le {A K} (lt : K -> K -> bool) (key : A -> K) (x y : A) : Prop :=
  lt (key y) (key x) = false.

(** The fields of a record, in the order of the tuple. *)
Definition as_tuple (f : func) :=
  (moduleName f, (funcName f, (funcDefinition f, (description f,
   (params f, (retvals f, notices f)))))).

(** The lines [insertSection] builds for a module before the end marker is
    put on the last of them. *)
Definition moduleEntries (w : world) (sectionName : str) (fns : list func)
    : list str :=
  startLine sectionName ::
  (if bool_decide (is_Some (fs w !! overviewFileName sectionName))
   then [overviewLine sectionName] else []) ++
  map (functionLine sectionName) (sorted func_lt id fns).

(** The lines [insertSection] appends for a section identifier in state
    [w]; [None] when the identifier is neither the time stamp nor a key of
    [MODULES]. *)
Definition sectionLines (E : env) (w : world) (sectionName : str)
    : option (list str) :=
  if sectionName =s? "timestamp" then
    Some [STARTMARKER ++ sectionName ++ ")\n";
          timestampLine (utcnow E (clock w));
          ENDMARKER ++ sectionName ++ ")\n"]
  else
    fns ← MODULES w !! sectionName;
    let entries := moduleEntries w sectionName fns in
    Some (removelast entries ++
          [rstrip_ws (List.last entries []) ++ " " ++ ENDMARKER ++
           sectionName ++ ")\n"]).

(** The three kinds of lines [replaceSections] tells apart. *)
Definition is_start (line : str) : bool := contains STARTMARKER line.

Definition is_end (line : str) : bool :=
  negb (contains STARTMARKER line) && contains ENDMARKER line.

Definition is_plain (line : str) : bool :=
  negb (contains STARTMARKER line) && negb (contains ENDMARKER line).

(** A section identifier that is neither the time stamp nor a module of
    the registry. *)
Definition unknown_section (w : world) (sectionName : str) : Prop :=
  sectionName <> "timestamp" /\ MODULES w !! sectionName = None.

(** The state after the time was read once more. *)
Definition ticked (w : world) : world :=
  World (fs w) (stdout w) (MODULES w) (S (clock w)).

(** The parts of an index document, top to bottom: a line without marker
    outside the sections; a section, that is a start-marker line, the lines
    up to the next end-marker line, and that end-marker line; an end-marker
    line that no start-marker line opens; and, at the end of the document
    only, a start-marker line that no end-marker line follows, with the
    lines after it. *)
Inductive part : Type :=
  | Plain (line : str)
  | Marked (sline : str) (body : list str) (eline : str)
  | Stray (eline : str)
  | Unclosed (sline : str) (rest : list str).

Definition lines_of_part (p : part) : list str :=
  match p with
  | Plain line => [line]
  | Marked sline body eline => sline :: body ++ [eline]
  | Stray eline => [eline]
  | Unclosed sline rest => sline :: rest
  end.

Definition lines_of (ps : list part) : list str := flat_map lines_of_part ps.

Definition part_ok (p : part) : Prop :=
  match p with
  | Plain line => is_plain line = true
  | Marked sline body eline =>
      is_start sline = true /\ Forall (fun l => is_end l = false) body /\
      is_end eline = true
  | Stray eline => is_end eline = true
  | Unclosed sline rest =>
      is_start sline = true /\ Forall (fun l => is_end l = false) rest
  end.

Fixpoint parts_ok (ps : list part) : Prop :=
  match ps with
  | [] => True
  | p :: ps' =>
      part_ok p /\
      match p with Unclosed _ _ => ps' = [] | _ => True end /\
      parts_ok ps'
  end.

(** The lines without marker that lie outside the sections. *)
Definition plain_lines (ps : list part) : list str :=
  flat_map (fun p => match p with Plain line => [line] | _ => [] end) ps.

(** The document that is expected in place of the parts: the plain lines
    as they are, for a section or a lone end-marker line the generated lines
    of the section that the end marker names, nothing for what follows a
    start marker that is not closed; [None] when a section is neither the
    time stamp nor a module of the registry.  The state is that in which the
    first part is reached: the time is read once for every time stamp. *)
Fixpoint regenerated (E : env) (w : world) (ps : list part) : option (list str) :=
  match ps with
  | [] => Some []
  | Plain line :: ps' =>
      match regenerated E w ps' with
      | Some out => Some (line :: out)
      | None => None
      end
  | Marked _ _ eline :: ps' | Stray eline :: ps' =>
      match sectionLines E w (sectionNameOf eline) with
      | Some added =>
          match regenerated E
                  (if sectionNameOf eline =s? "timestamp" then ticked w else w) ps' with
          | Some out => Some (added ++ out)
          | None => None
          end
      | None => None
      end
  | Unclosed _ _ :: ps' => regenerated E w ps'
  end.

(** A [glob.glob] for the patterns of [addExamples], [prefix*.*] with a
    prefix free of wildcards: the paths that start with the prefix and go
    on, within the same directory (a [*] matches no [/]), with a text that
    holds a dot, in the order in which the directory lists them (here the
    order of the map). *)
Definition simple_glob (files : gmap str str) (pattern : str) : list str :=
  let prefix := take (length pattern - 3) pattern in
  List.filter
    (fun path =>
       startswith prefix path &&
       bool_decide ("."%char ∈ drop (length prefix) path) &&
       negb (bool_decide ("/"%char ∈ drop (length prefix) path)))
    (fst <$> map_to_list files).

Definition local_env : env :=
  Env (fun _ => Datetime 2016 1 1 0 0 0) simple_glob (fun _ => None).

(** A function declared with two dots, and its three example files. *)
Definition dotted_source : str :=
  "/*luadoc\n@function a.b.c()\n\nDoes it.\n*/\n".

Definition dotted_world : world :=
  World {[ ("api.cpp" : str) := dotted_source;
           ("general/a.b.c-example.md" : str) := ("Notes" : str);
           ("general/a.b.c-example.lua" : str) := ("a.b.c()" : str);
           ("general/a.b.c-example.png" : str) := ("PNG" : str) ]}
    [] ∅ 0.

(** The key [byExtension_key] returns for an example with two parts at
    least. *)
Definition extension_key (example : list str) : str :=
  match example with
  | e0 :: e1 :: _ =>
      e0 ++ (if e1 =s? "lua" then ".1" else if e1 =s? "png" then ".2" else ".0")
  | _ => []
  end.

(** What [addExamples] adds for a notes file, a code file and an image. *)
Definition notesPart (contents : str) : str := contents ++ "\n\n".

Definition codePart (fileName e0 contents : str) : str :=
  "<a class=\x22dlbtn\x22 href=\x22" ++ DOCBASE ++
  replace_char "\" "/" fileName ++ "\x22>" ++
  replace_char "\" "/" e0 ++ "</a>\n\n" ++
  "```lua\n" ++ contents ++
  (if ends_line ("\n" ++ contents) then [] else "\n") ++ "```\n\n".

Definition imagePart (fileName : str) : str :=
  "![](" ++ basename fileName ++ ")" ++ "\n\n".
(** A line with its terminator, and a last line without one. *)
Definition terminated (l : str) : Prop :=
  exists body, l = body ++ [LF] /\ LF ∉ body.

Definition unterminated (l : str) : Prop := l <> [] /\ LF ∉ l.

(** The lines of a file: all terminated, but perhaps the last. *)
Fixpoint lined (contents : list str) : Prop :=
  match contents with
  | [] => True
  | l :: rest =>
      match rest with
      | [] => terminated l \/ unterminated l
      | _ :: _ => terminated l /\ lined rest
      end
  end.

(** The lines of a generated section, read again from the file, are a
    start-marker line, lines none of which ends a section, and one
    end-marker line that names the section. *)
Definition reads_back (sectionName : str) (added : list str) : Prop :=
  exists sline body eline,
    readlines (concat added) = sline :: body ++ [eline] /\
    is_start sline = true /\
    Forall (fun l => is_end l = false) body /\
    is_end eline = true /\
    sectionNameOf eline = sectionName.

(** Every module section the registry generates reads back. *)
Definition registry_reads_back (E : env) (w : world) : Prop :=
  forall sectionName added,
    sectionName <> "timestamp" ->
    sectionLines E w sectionName = Some added ->
    reads_back sectionName added.

(** Two states generate the same module sections. *)
Definition same_registry (wa wb : world) : Prop :=
  MODULES wa = MODULES wb /\
  forall s, bool_decide (is_Some (fs wa !! overviewFileName s)) =
            bool_decide (is_Some (fs wb !! overviewFileName s)).

(** Two lines that are equal, or both the time-stamp line of some reading
    of the clock. *)
Definition same_or_stamp (E : env) (a b : str) : Prop :=
  a = b \/ exists n n', a = timestampLine (utcnow E n) /\
                        b = timestampLine (utcnow E n').

(** [doc] with the example [e0.e1] of the given contents added. *)
Definition exampleText (doc e0 e1 contents : str) : str :=
  let fileName := e0 ++ "." ++ e1 in
  let doc := if e1 =s? "md" then doc ++ contents ++ "\n\n" else doc in
  let doc :=
    if e1 =s? "lua" then
      let doc := doc ++ "<a class=\x22dlbtn\x22 href=\x22" ++ DOCBASE ++
                   replace_char "\" "/" fileName ++ "\x22>" ++
                   replace_char "\" "/" e0 ++ "</a>\n\n" in
      let doc := doc ++ "```lua\n" in
      let doc := doc ++ contents in
      let doc := if ends_line doc then doc else doc ++ "\n" in
      doc ++ "```\n\n"
    else doc in
  if e1 =s? "png" then doc ++ "![](" ++ basename fileName ++ ")" ++ "\n\n"
  else doc.

(** The path [addExample] opens for a path that [glob] found. *)
Definition opened (path : str) : str :=
  match split "." path with
  | e0 :: e1 :: _ => e0 ++ "." ++ e1
  | _ => path
  end.

(** Two states show the same example files for a function: [glob] finds
    the same paths and the files opened for them hold the same. *)
Definition same_examples (E : env) (f : func) (w w' : world) : Prop :=
  let pattern := moduleName f ++ "/" ++ funcName f ++ "-example*.*" in
  glob E (fs w) pattern = glob E (fs w') pattern /\
  forall path, path ∈ glob E (fs w) pattern ->
               fs w !! opened path = fs w' !! opened path.

(** The state in which a new run of the script starts: the files and the
    clock are what the last run left, nothing is printed or registered. *)
Definition restart (w : world) : world := World (fs w) [] ∅ (clock w).
(** An executable test for [reads_back]. *)
Definition reads_backb (sectionName : str) (added : list str) : bool :=
  match readlines (concat added) with
  | sline :: (_ :: _) as rest =>
      is_start sline &&
      forallb (fun l => negb (is_end l)) (removelast rest) &&
      is_end (List.last rest []) &&
      (sectionNameOf (List.last rest []) =s? sectionName)
  | _ => false
  end.

(** An environment whose clock moves: reading [n] of the time is [n]
    seconds after midnight. *)
Definition ticking_env : env :=
  Env (fun n => Datetime 2016 1 1 0 0 n) simple_glob (fun _ => None).

(** A state in which one function is registered, with an example, and the
    index holds its section and the time stamp. *)
Definition lcd_clear : func :=
  Func "lcd" "clear" "lcd.clear()\n\n" "Clears the display.\n\n" [] [] [].

Definition lcd_summary : str :=
  "# Summary\n   * [Lcd Functions](lcd/lcd_functions.md) [//]: <> (LUADOC-BEGIN:lcd)\n      * [old](lcd/old.md) [//]: <> (LUADOC-END:lcd)\n[//]: <> (LUADOC-BEGIN:timestamp)\nold\n[//]: <> (LUADOC-END:timestamp)\nbye\n".

Definition lcd_world : world :=
  World {[ SUMMARYFILE := lcd_summary;
           ("lcd/clear-example.lua" : str) := ("lcd.clear()" : str) ]}
    [] {[ ("lcd" : str) := [lcd_clear] ]} 0.

(** A source in which the declaration of a function goes on with the text
    of an end marker, and the files the script needs to run on it. *)
Definition marker_source : str :=
  "/*luadoc\n@function m.a() [//]: <> (LUADOC-END:m)\n\nDoes a.\n*/\n/*luadoc\n@function m.b()\n\nDoes b.\n*/\n".

Definition marker_world : world :=
  World {[ ("api.cpp" : str) := marker_source;
           SUMMARYFILE := ("# Summary\n   * [M Functions](m/m_functions.md) [//]: <> (LUADOC-BEGIN:m)\n      * [old](m/old.md) [//]: <> (LUADOC-END:m)\n" : str);
           READMEFILE := ("# Readme\n" : str) ]}
    [] ∅ 0.
(** ** Notions of the further properties *)

(** Some line of [text] starts with [p]. *)
Definition line_starts (p text : str) : bool :=
  existsb (fun q => line_start text q && startswith p (drop q text))
    (seq 0 (length text)).

(** A registry in which every module holds a function at least and every
    function is filed under its own module name. *)
Definition keyed (m : gmap str (list func)) : Prop :=
  forall k fns, m !! k = Some fns ->
    fns <> [] /\ Forall (fun f => moduleName f = k) fns.

(** [m'] holds what [m] holds, with functions added at the ends of the
    lists and modules added. *)
Definition grows (m m' : gmap str (list func)) : Prop :=
  forall k fns, m !! k = Some fns -> exists more, m' !! k = Some (fns ++ more).

(** A computation that keeps the registry keyed and only adds to it,
    however it ends. *)
Definition keeps_registry {A} (c : M A) : Prop :=
  forall w, keyed (MODULES w) ->
    keyed (MODULES (snd (c w))) /\ grows (MODULES w) (MODULES (snd (c w))).

(** The paths that end in [.md]. *)
Definition md_path (p : str) : Prop := exists q, p = q ++ ".md".

(** A computation that removes no file and changes no file but those
    whose path satisfies [P], however it ends. *)
Definition writes_only (P : str -> Prop) {A} (c : M A) : Prop :=
  forall w,
    (forall p, is_Some (fs w !! p) -> is_Some (fs (snd (c w)) !! p)) /\
    (forall p, ~ P p -> fs (snd (c w)) !! p = fs w !! p).

(** The end-marker lines of a document all name the time stamp or a module
    of the registry. *)
Definition known_sections (w : world) (contents : list str) : Prop :=
  Forall (fun l => is_end l = true ->
                   sectionNameOf l = "timestamp" \/
                   is_Some (MODULES w !! sectionNameOf l)) contents.

(** How many end-marker lines of a document name the time stamp. *)
Definition stamps (contents : list str) : nat :=
  length (List.filter (fun l => is_end l && (sectionNameOf l =s? "timestamp"))
            contents).

(** The first line of every page. *)
Definition pageHeader : str :=
  "<!-- This file was generated by the script. Do not edit it, any changes will be lost! -->\n\n".

(** The path of the page of a function. *)
Definition docNameOf (f : func) : str :=
  moduleName f ++ "/" ++ funcName f ++ ".md".

(** Two functions of one module, declared in the order in which the
    source holds them. *)
Definition lcd_functions : list func :=
  [Func "lcd" "drawText" "lcd.drawText(x, y, text)\n\n" "Draws.\n\n" [] [] [];
   Func "lcd" "clear" "lcd.clear()\n\n" "Clears.\n\n" [] [] []].

(** A character that is neither a newline nor the [<] of the markers. *)
Definition clean (c : ascii) : Prop := c <> LF /\ c <> "<"%char.

(** A registry whose names bring neither marker text nor line breaks into
    the index: every module holds a function, and neither the name of the
    module, nor the name of a function, nor its declaration without the
    white space at its end, holds a newline or a [<]; the name of the module
    holds no closing parenthesis either. *)
Definition plain_registry (w : world) : Prop :=
  forall m fns, MODULES w !! m = Some fns ->
    fns <> [] /\ Forall clean m /\ (")"%char ∉ m) /\
    Forall (fun f => Forall clean (funcName f) /\
                     Forall clean (rstrip_ws (funcDefinition f))) fns.
(** ** Notions of the second run *)

(** The loop of the main program over the registry: the pages of every
    module are written and its summary is printed. *)
Definition writeModules (E : env) (modules : list (str * list func)) : M unit :=
  for_each modules (fun '(m, fns) =>
    writePages E fns ;;
    print "Summary:" ;;
    print (flat_map (fun f => summaryLine f (moduleName f ++ "/" ++ funcName f ++ ".md"))
                    (sorted func_lt id fns))).

(** The paths a run with the registry [modules] writes: the two index
    documents and the pages of the registered functions. *)
Definition generated (modules : gmap str (list func)) (p : str) : Prop :=
  p = SUMMARYFILE \/ p = READMEFILE \/
  exists m fns f, modules !! m = Some fns /\ f ∈ fns /\ p = docNameOf f.

(** The files of [w'] are those of [w] but for the paths a run writes. *)
Definition written_from (modules : gmap str (list func)) (w w' : world) : Prop :=
  forall p, fs w' !! p = fs w !! p \/ generated modules p.

(** The examples are apart from what a run writes: whatever the files at
    the generated paths hold, [glob] finds the same examples for every
    registered function, and the files opened for them hold the same. *)
Definition examples_apart (E : env) (w : world) (modules : gmap str (list func))
    : Prop :=
  forall m fns f w',
    modules !! m = Some fns -> f ∈ fns ->
    written_from modules w w' ->
    same_examples E f w w'.

(** Two states with the same registry whose files agree on the paths [P]. *)
Definition agree (P : str -> Prop) (a b : world) : Prop :=
  MODULES a = MODULES b /\ forall p, P p -> fs a !! p = fs b !! p.

(** A computation that ends the same way in two such states, and leaves
    two such states. *)
Definition alike (P : str -> Prop) {A} (c : M A) : Prop :=
  forall a b, agree P a b ->
    fst (c a) = fst (c b) /\ agree P (snd (c a)) (snd (c b)).

(** A computation that leaves the registry as it is. *)
Definition keeps_modules {A} (c : M A) : Prop :=
  forall w, MODULES (snd (c w)) = MODULES w.

(** The body of the loop of [writePages]: the page of one function. *)
Definition writePage (E : env) (f : func) : M unit :=
  doc ← generateFunctionDoc E f;
  let docName := moduleName f ++ "/" ++ funcName f ++ ".md" in
  mkdir_p docName ;;
  write_file docName doc ;;
  logInfo ("generated " ++ docName).

(** Where two runs stand among the pages: the first run came from [a0] to
    [a], the second from [b0] to [b]; the pages [written] are generated
    paths and hold the same in [a] and [b], the other files are as they
    were when the runs began to write pages, and the registry is as it
    was. *)
Definition pages_inv (modules : gmap str (list func)) (a0 b0 : world)
    (written : list str) (a b : world) : Prop :=
  MODULES a = MODULES a0 /\ MODULES b = MODULES b0 /\
  (forall p, p ∈ written ->
     generated modules p /\ is_Some (fs a !! p) /\ fs a !! p = fs b !! p) /\
  (forall p, p ∉ written -> fs a !! p = fs a0 !! p /\ fs b !! p = fs b0 !! p).

(** The paths [simple_glob] takes for a pattern. *)
Definition glob_match (pattern path : str) : bool :=
  let prefix := take (length pattern - 3) pattern in
  startswith prefix path &&
  bool_decide ("."%char ∈ drop (length prefix) path) &&
  negb (bool_decide ("/"%char ∈ drop (length prefix) path)).

(** A source that declares [lcd.clear], an example of it, and the two index
    documents, each with a time stamp. *)
Definition rerun_source : str :=
  "/*luadoc\n@function lcd.clear()\n\nClears the display.\n*/\n".

Definition rerun_world : world :=
  World {[ ("api.cpp" : str) := rerun_source;
           ("lcd/clear-example.lua" : str) := ("lcd.clear()" : str);
           SUMMARYFILE := lcd_summary;
           READMEFILE := ("# Readme\n[//]: <> (LUADOC-BEGIN:timestamp)\nold\n[//]: <> (LUADOC-END:timestamp)\n" : str) ]}
    [] ∅ 0.

(** A source that declares a function [m.g] and a function [m.g-example],
    whose page has the name of an example of [m.g]. *)
Definition example_page_source : str :=
  "/*luadoc\n@function m.g()\n\nDoes g.\n*/\n/*luadoc\n@function m.g-example()\n\nShows g.\n*/\n".

Definition example_page_world : world :=
  World {[ ("api.cpp" : str) := example_page_source;
           SUMMARYFILE := ("# Summary\n   * [M Functions](m/m_functions.md) [//]: <> (LUADOC-BEGIN:m)\n      * [old](m/old.md) [//]: <> (LUADOC-END:m)\n" : str);
           READMEFILE := ("# Readme\n" : str) ]}
    [] ∅ 0.
(* ===================================================================== *)
(** * Part II. Properties                                                 *)
(* ===================================================================== *)

(** ** Strings *)

Lemma ascii_eqb_eq (a b : ascii) : (a =c? b) = true <-> a = b.
Proof. apply Ascii.eqb_eq. Qed.

Lemma ascii_eqb_neq (a b : ascii) : (a =c? b) = false <-> a <> b.
Proof. apply Ascii.eqb_neq. Qed.

Lemma ascii_eqb_refl (a : ascii) : (a =c? a) = true.
Proof. apply Ascii.eqb_refl. Qed.

Lemma str_eqb_eq (a b : str) : (a =s? b) = true <-> a = b.
Proof. unfold str_eqb. apply bool_decide_eq_true. Qed.

Lemma str_eqb_neq (a b : str) : (a =s? b) = false <-> a <> b.
Proof. unfold str_eqb. apply bool_decide_eq_false. Qed.

Lemma in_chars_elem (chars : str) (c : ascii) :
  in_chars chars c = true <-> c ∈ chars.
Proof.
  unfold in_chars. rewrite existsb_exists. split.
  - intros (x & Hx & Heq). apply ascii_eqb_eq in Heq. subst.
    by apply list_elem_of_In.
  - intros Hc. exists c. split; [by apply list_elem_of_In | apply ascii_eqb_refl].
Qed.

Lemma in_chars_not_elem (chars : str) (c : ascii) :
  in_chars chars c = false <-> c ∉ chars.
Proof.
  rewrite <- in_chars_elem. destruct (in_chars chars c); split; congruence.
Qed.

Lemma startswith_app (p r : str) : startswith p (p ++ r) = true.
Proof.
  induction p as [|a p IH]; simpl; [done |].
  by rewrite ascii_eqb_refl, IH.
Qed.

Lemma startswith_prefix (p s : str) :
  startswith p s = true <-> exists r, s = p ++ r.
Proof.
  split.
  - revert s. induction p as [|a p IH]; intros s H; simpl in *.
    + by exists s.
    + destruct s as [|b s]; [done |].
      apply andb_true_iff in H as [Hab Hp]. apply ascii_eqb_eq in Hab. subst b.
      destruct (IH _ Hp) as [r ->]. by exists r.
  - intros [r ->]. apply startswith_app.
Qed.

Lemma startswith_nil_l (s : str) : startswith [] s = true.
Proof. by destruct s. Qed.

(** [find] returns the least index at which [sub] occurs. *)
Lemma find_Some (sub s : str) (i : nat) :
  find sub s = Some i ->
  startswith sub (drop i s) = true /\ i <= length s /\
  forall j, j < i -> startswith sub (drop j s) = false.
Proof.
  revert i. induction s as [|c s IH]; intros i; simpl.
  - destruct (startswith sub []) eqn:Hs; [|done].
    intros [= <-]. repeat split; [done | lia | lia].
  - destruct (startswith sub (c :: s)) eqn:Hs.
    + intros [= <-]. repeat split; [done | lia | lia].
    + destruct (find sub s) as [k|] eqn:Hk; [|done].
      intros [= <-]. destruct (IH k eq_refl) as (H1 & H2 & H3).
      repeat split; [done | lia |].
      intros [|j] Hj; [done |]. apply H3. lia.
Qed.

Lemma find_None (sub s : str) (j : nat) :
  find sub s = None -> startswith sub (drop j s) = false.
Proof.
  revert j. induction s as [|c s IH]; intros j; simpl.
  - destruct (startswith sub []) eqn:Hs; [done |]. by rewrite drop_nil.
  - destruct (startswith sub (c :: s)) eqn:Hs; [done |].
    destruct (find sub s) eqn:Hk; [done |]. intros _.
    destruct j as [|j]; [done |]. by apply IH.
Qed.

Lemma find_is_Some (sub s : str) (j : nat) :
  startswith sub (drop j s) = true -> exists i, find sub s = Some i /\ i <= j.
Proof.
  destruct (find sub s) as [i|] eqn:Hf.
  - intros Hj. exists i. split; [done |].
    destruct (find_Some _ _ _ Hf) as (_ & _ & Hmin).
    destruct (decide (i <= j)); [done |].
    rewrite Hmin in Hj by lia. done.
  - intros Hj. by rewrite (find_None _ _ j Hf) in Hj.
Qed.

Lemma find_occurrence (sub a b : str) :
  exists i, find sub (a ++ sub ++ b) = Some i /\ i <= length a.
Proof.
  apply find_is_Some. rewrite drop_app_length. apply startswith_app.
Qed.

Lemma find_cut (sub s : str) (i : nat) :
  find sub s = Some i -> s = take i s ++ sub ++ drop (i + length sub) s.
Proof.
  intros Hf. destruct (find_Some _ _ _ Hf) as (Hs & _ & _).
  apply startswith_prefix in Hs as [r Hr].
  rewrite <- (take_drop i s) at 1. f_equal.
  rewrite <- drop_drop, Hr, drop_app_length. done.
Qed.

(** [split] does not depend on the number of rounds once there are enough. *)
Lemma split_rounds_enough (sep s : str) (n m : nat) :
  sep <> [] -> length s <= n -> length s <= m ->
  split_rounds n sep s = split_rounds m sep s.
Proof.
  intros Hsep. revert m s.
  assert (Hnil : forall k, split_rounds k sep [] = [[]]).
  { intros [|k]; simpl; [done |]. destruct sep; [done | done]. }
  induction n as [|n IH]; intros m s Hn Hm.
  - destruct s; [|simpl in Hn; lia]. by rewrite !Hnil.
  - destruct m as [|m].
    + destruct s; [|simpl in Hm; lia]. by rewrite !Hnil.
    + simpl. destruct (find sep s) as [i|] eqn:Hf; [|done].
      f_equal. destruct (find_Some _ _ _ Hf) as (Hs & Hi & _).
      assert (0 < length sep) by (destruct sep; [done | simpl; lia]).
      apply IH; rewrite length_drop; lia.
Qed.

Lemma split_unfold (sep s : str) :
  sep <> [] ->
  split sep s =
    match find sep s with
    | Some i => take i s :: split sep (drop (i + length sep) s)
    | None => [s]
    end.
Proof.
  intros Hsep. unfold split at 1. destruct s as [|c s].
  - simpl. destruct sep; [done | done].
  - cbn [length split_rounds]. destruct (find sep (c :: s)) as [i|] eqn:Hf; [|done].
    f_equal. unfold split. apply split_rounds_enough; [done | | done].
    assert (0 < length sep) by (destruct sep; [done | simpl; lia]).
    rewrite length_drop. simpl. lia.
Qed.

Lemma split_not_nil (sep s : str) : split sep s <> [].
Proof.
  unfold split. destruct (length s); simpl; [done |].
  by destruct (find sep s).
Qed.

(** One-character separators. *)
Lemma ascii_eqb_sym (a b : ascii) : (a =c? b) = (b =c? a).
Proof. apply Ascii.eqb_sym. Qed.

Lemma find_char (c : ascii) (s : str) :
  find [c] s =
    match s with
    | [] => None
    | x :: s' => if x =c? c then Some 0 else S <$> find [c] s'
    end.
Proof.
  destruct s as [|x s]; [done |].
  cbn [find startswith]. rewrite andb_true_r.
  by rewrite (ascii_eqb_sym c x).
Qed.

Lemma before_after (c : ascii) (s : str) :
  c ∈ s -> s = before c s ++ c :: after c s.
Proof.
  induction s as [|x s IH]; intros Hc.
  - by apply elem_of_nil in Hc.
  - simpl. destruct (x =c? c) eqn:Hx.
    + apply ascii_eqb_eq in Hx. by subst.
    + apply ascii_eqb_neq in Hx. apply elem_of_cons in Hc as [->|Hc]; [done |].
      simpl. f_equal. by apply IH.
Qed.

Lemma before_no_char (c : ascii) (s : str) : c ∉ s -> before c s = s.
Proof.
  induction s as [|x s IH]; intros Hc; [done |].
  apply not_elem_of_cons in Hc as [Hx Hc]. simpl.
  replace (x =c? c) with false by (symmetry; by apply ascii_eqb_neq).
  f_equal. by apply IH.
Qed.

Lemma after_no_char (c : ascii) (s : str) : c ∉ s -> after c s = [].
Proof.
  induction s as [|x s IH]; intros Hc; [done |].
  apply not_elem_of_cons in Hc as [Hx Hc]. simpl.
  replace (x =c? c) with false by (symmetry; by apply ascii_eqb_neq).
  by apply IH.
Qed.

Lemma before_not_elem (c : ascii) (s : str) : c ∉ before c s.
Proof.
  induction s as [|x s IH]; simpl; [apply not_elem_of_nil |].
  destruct (x =c? c) eqn:Hx; [apply not_elem_of_nil |].
  apply ascii_eqb_neq in Hx. apply not_elem_of_cons. split; [congruence | done].
Qed.

Lemma length_after (c : ascii) (s : str) : c ∈ s -> length (after c s) < length s.
Proof.
  intros Hc. rewrite (before_after c s Hc) at 2.
  rewrite length_app. simpl. lia.
Qed.

Lemma find_char_before (c : ascii) (s : str) :
  find [c] s = if bool_decide (c ∈ s) then Some (length (before c s)) else None.
Proof.
  induction s as [|x s IH].
  - by rewrite bool_decide_eq_false_2 by apply not_elem_of_nil.
  - rewrite find_char. simpl. destruct (x =c? c) eqn:Hx.
    + apply ascii_eqb_eq in Hx. subst.
      by rewrite bool_decide_eq_true_2 by (apply elem_of_cons; by left).
    + apply ascii_eqb_neq in Hx. rewrite IH.
      destruct (decide (c ∈ s)) as [Hc|Hc].
      * rewrite !bool_decide_eq_true_2; [done | apply elem_of_cons; by right | done].
      * rewrite !bool_decide_eq_false_2; [done | | done].
        apply not_elem_of_cons. split; [congruence | done].
Qed.

Lemma take_before (c : ascii) (s : str) :
  take (length (before c s)) s = before c s.
Proof.
  induction s as [|x s IH]; [done |]. simpl.
  destruct (x =c? c); simpl; [done | by rewrite IH].
Qed.

Lemma drop_before (c : ascii) (s : str) :
  c ∈ s -> drop (length (before c s) + 1) s = after c s.
Proof.
  induction s as [|x s IH]; intros Hc; [by apply elem_of_nil in Hc |].
  simpl. destruct (x =c? c) eqn:Hx; simpl; [by rewrite drop_0 |].
  apply ascii_eqb_neq in Hx. apply elem_of_cons in Hc as [->|Hc]; [done |].
  by apply IH.
Qed.

Lemma split_char (c : ascii) (s : str) :
  split [c] s =
    if bool_decide (c ∈ s) then before c s :: split [c] (after c s) else [s].
Proof.
  rewrite split_unfold by done. rewrite find_char_before.
  destruct (decide (c ∈ s)) as [Hc|Hc].
  - rewrite bool_decide_eq_true_2 by done.
    by rewrite take_before, drop_before.
  - by rewrite bool_decide_eq_false_2.
Qed.

Lemma split_head_before (c : ascii) (s : str) : split_head [c] s = before c s.
Proof.
  unfold split_head. rewrite split_char. case_bool_decide as Hc; [done |].
  simpl. symmetry. by apply before_no_char.
Qed.

Lemma join_cons (sep p : str) (rest : list str) :
  rest <> [] -> join sep (p :: rest) = p ++ sep ++ join sep rest.
Proof. by destruct rest. Qed.

(** Cutting at every [c] and joining with [c] gives the text back. *)
Lemma join_split (c : ascii) (s : str) : join [c] (split [c] s) = s.
Proof.
  remember (length s) as n eqn:Hn. revert s Hn.
  induction (lt_wf n) as [n _ IH]; intros s ->.
  rewrite split_char. case_bool_decide as Hc; [|done].
  rewrite join_cons by apply split_not_nil.
  rewrite (IH (length (after c s))); [| by apply length_after | done].
  symmetry. by apply before_after.
Qed.

Lemma join_split_tail (c : ascii) (s : str) :
  join [c] (split_tail [c] s) = after c s.
Proof.
  unfold split_tail. rewrite split_char. case_bool_decide as Hc; simpl.
  - apply join_split.
  - symmetry. by apply after_no_char.
Qed.

Lemma count_char_0 (c : ascii) (s : str) : count_char c s = 0 <-> c ∉ s.
Proof.
  induction s as [|x s IH]; simpl.
  - split; [intros _; apply not_elem_of_nil | done].
  - rewrite not_elem_of_cons. destruct (x =c? c) eqn:Hx.
    + apply ascii_eqb_eq in Hx. split; [lia | intros [? _]; congruence].
    + apply ascii_eqb_neq in Hx. simpl. rewrite IH. split; [split; [congruence | done] | tauto].
Qed.

Lemma count_char_app (c : ascii) (a b : str) :
  count_char c (a ++ b) = count_char c a + count_char c b.
Proof. induction a as [|x a IH]; simpl; [done | rewrite IH; lia]. Qed.

Lemma count_char_after (c : ascii) (s : str) :
  c ∈ s -> count_char c s = S (count_char c (after c s)).
Proof.
  intros Hc. rewrite (before_after c s Hc) at 1.
  rewrite count_char_app. simpl. rewrite ascii_eqb_refl.
  pose proof (before_not_elem c s) as Hb. apply count_char_0 in Hb. lia.
Qed.

Lemma length_split (c : ascii) (s : str) :
  length (split [c] s) = S (count_char c s).
Proof.
  remember (length s) as n eqn:Hn. revert s Hn.
  induction (lt_wf n) as [n _ IH]; intros s ->.
  rewrite split_char. case_bool_decide as Hc; simpl.
  - rewrite (IH (length (after c s))); [| by apply length_after | done].
    by rewrite (count_char_after c s).
  - apply count_char_0 in Hc. by rewrite Hc.
Qed.

(** ** Parameter Parser *)

Lemma parseParameters_spec (lines : list str) :
  parseParameters lines =
    map (fun l => (strip " \t\n" (before " " l), after " " l)) lines.
Proof.
  unfold parseParameters. apply map_ext. intros l.
  by rewrite split_head_before, join_split_tail.
Qed.

(** C4 (amended).  [parseParameters] returns one pair per line, in the
    order of the lines.  The name is the text before the first space
    character of the line (the whole line when it has none), trimmed of
    surrounding spaces, tabs and newlines; the description is the text
    after that first space, unchanged (empty when the line has no space).
    On [["x the x value"; "y the y value"]] the result is
    [[("x", "the x value"); ("y", "the y value")]]. *)
Theorem C4_parseParameters (lines : list str) :
  parseParameters lines =
    map (fun l => (strip " \t\n" (before " " l), after " " l)) lines /\
  length (parseParameters lines) = length lines /\
  parseParameters ["x the x value"; "y the y value"] =
    [("x", "the x value"); ("y", "the y value")].
Proof.
  split; [apply parseParameters_spec |].
  split; [unfold parseParameters; apply length_map | reflexivity].
Qed.

(** C4 as stated fails on a line whose first white space is a tab: the
    name is not the first token delimited by white space, the line is cut
    at space characters only. *)
Lemma C4_counterexample :
  parseParameters ["x\tthe x value"] = [("x\tthe", "x value")] /\
  first_token "x\tthe x value" = "x" /\
  fst <$> parseParameters ["x\tthe x value"] <> [first_token "x\tthe x value"].
Proof. repeat split. vm_compute. discriminate. Qed.

(** ** Comment-Block Parser: the names of a declaration *)

Lemma parseNames_spec (d : str) :
  parseNames d =
    let name := before "(" d in
    if count_char "." name =? 1 then (before "." name, after "." name)
    else ("general", name).
Proof.
  unfold parseNames. rewrite split_head_before. cbv zeta.
  set (name := before "(" d).
  rewrite split_char. case_bool_decide as Hc.
  - rewrite (count_char_after _ _ Hc). rewrite split_char. case_bool_decide as Hc'.
    + rewrite (count_char_after _ _ Hc'). simpl.
      pose proof (split_not_nil "." (after "." (after "." name))) as Hn.
      destruct (split "." (after "." (after "." name))); done.
    + apply count_char_0 in Hc'. by rewrite Hc'.
  - apply count_char_0 in Hc. by rewrite Hc.
Qed.

Lemma register_run (f : func) (w : world) :
  register f w =
    (Return tt,
     World (fs w) (stdout w)
       (<[moduleName f := default [] (MODULES w !! moduleName f) ++ [f]]> (MODULES w))
       (clock w)).
Proof. reflexivity. Qed.

Lemma parseFunction_found (doc d : str) (more : list str) (lines : str) (w : world) :
  extractItems "function" (doc ++ "\n") = (d :: more, lines) ->
  let names := parseNames d in
  let ps := extractItems "param" lines in
  let rs := extractItems "retval" (snd ps) in
  let ns := extractItems "notice" (snd rs) in
  parseFunction doc w =
    register (Func (fst names) (snd names) d (snd ns)
                (parseParameters (fst ps)) (parseParameters (fst rs)) (fst ns)) w.
Proof.
  intros H names ps rs ns. unfold parseFunction. rewrite H.
  subst names ps rs ns. cbn [first_item]. unfold mbind, M_bind, mret, M_ret.
  destruct (parseNames d) as [m f].
  destruct (extractItems "param" lines) as [ps l1]; cbn [fst snd].
  destruct (extractItems "retval" l1) as [rs l2]; cbn [fst snd].
  by destruct (extractItems "notice" l2) as [ns l3].
Qed.

(** C1 (amended).  For a function block in which a declaration is found,
    the parser appends to the registry a record whose definition is that
    declaration and whose names come from the text before the first [(]:
    with no [.] in it, moduleName is "general" and funcName is that text;
    with exactly one [.], the text is cut there into moduleName and
    funcName; with two or more, moduleName is "general" again and funcName
    is the whole text.  Hence moduleName is "general" iff the number of
    [.] before the first [(] is not one, or the text before the single [.]
    is itself "general". *)
Theorem C1_moduleName (doc d : str) (more : list str) (lines : str) (w : world) :
  extractItems "function" (doc ++ "\n") = (d :: more, lines) ->
  exists f w',
    parseFunction doc w = (Return tt, w') /\
    MODULES w' =
      <[moduleName f := default [] (MODULES w !! moduleName f) ++ [f]]> (MODULES w) /\
    funcDefinition f = d /\
    let name := before "(" d in
    (count_char "." name = 0 -> moduleName f = "general" /\ funcName f = name) /\
    (count_char "." name = 1 ->
       name = moduleName f ++ "." ++ funcName f /\
       count_char "." (moduleName f) = 0 /\ count_char "." (funcName f) = 0) /\
    (2 <= count_char "." name -> moduleName f = "general" /\ funcName f = name) /\
    (moduleName f = "general" <->
       count_char "." name <> 1 \/ before "." name = "general").
Proof.
  intros H. rewrite (parseFunction_found _ _ _ _ w H), register_run.
  eexists _, _. split; [reflexivity |].
  split; [reflexivity |]. split; [reflexivity |].
  cbn [moduleName funcName]. rewrite parseNames_spec. cbv zeta.
  set (name := before "(" d).
  destruct (count_char "." name =? 1) eqn:Hn.
  - apply Nat.eqb_eq in Hn. cbn [fst snd].
    assert (Hc : "."%char ∈ name).
    { destruct (decide ("."%char ∈ name)) as [|Hc]; [done |].
      apply count_char_0 in Hc. lia. }
    split; [intros; lia |].
    split; [| split; [intros; lia |]].
    + intros _. split; [by apply before_after |].
      split; [apply count_char_0, before_not_elem |].
      rewrite (count_char_after _ _ Hc) in Hn. lia.
    + split; [intros ->; by right | intros [?|?]; [lia | done]].
  - apply Nat.eqb_neq in Hn. cbn [fst snd].
    split; [done |]. split; [intros; lia |]. split; [done |].
    split; [intros _; by left | done].
Qed.

Lemma C1_witness :
  exists f w',
    parseFunction "@function lcd.clear()\n" initial = (Return tt, w') /\
    funcDefinition f = "lcd.clear()\n\n" /\
    "lcd.clear" = moduleName f ++ "." ++ funcName f.
Proof.
  destruct (C1_moduleName "@function lcd.clear()\n" "lcd.clear()\n\n" [] [] initial eq_refl)
    as (f & w' & Hrun & _ & Hd & _ & H1 & _).
  exists f, w'. split; [exact Hrun |]. split; [exact Hd |].
  exact (proj1 (H1 eq_refl)).
Defined.

(** C1 as stated fails on a declaration with two dots before its first
    [(]: the record is filed under "general" although the declaration holds
    a [.], and the declaration is not cut at all. *)
Lemma C1_counterexample :
  exists f w',
    parseFunction "@function a.b.c()\n" initial = (Return tt, w') /\
    MODULES w' !! ("general" : str) = Some [f] /\
    moduleName f = "general" /\
    funcName f = "a.b.c" /\
    "."%char ∈ before "(" (funcDefinition f).
Proof.
  eexists _, _. split; [vm_compute; reflexivity |].
  split; [vm_compute; reflexivity |].
  split; [reflexivity |]. split; [reflexivity |].
  vm_compute. set_solver.
Qed.


(** ** The state-and-exception monad *)

Lemma bind_Return {A B} (m : M A) (k : A -> M B) (w w' : world) (a : A) :
  m w = (Return a, w') -> (m ≫= k) w = k a w'.
Proof. unfold mbind, M_bind. by intros ->. Qed.

Lemma bind_Raise {A B} (m : M A) (k : A -> M B) (w w' : world) (e : exn) :
  m w = (Raise e, w') -> (m ≫= k) w = (Raise e, w').
Proof. unfold mbind, M_bind. by intros ->. Qed.

Lemma for_each_app {A} (l1 l2 : list A) (body : A -> M unit) (w : world) :
  for_each (l1 ++ l2) body w =
    match for_each l1 body w with
    | (Return _, w') => for_each l2 body w'
    | (Raise e, w') => (Raise e, w')
    end.
Proof.
  revert w. induction l1 as [|x l1 IH]; intros w; [done |].
  cbn [for_each app]. unfold mbind, M_bind.
  destruct (body x w) as [[[]|e] w1]; [apply IH | done].
Qed.


Lemma keeps_files_bind {A B} (m : M A) (k : A -> M B) :
  keeps_files m -> (forall a, keeps_files (k a)) -> keeps_files (m ≫= k).
Proof.
  intros Hm Hk w. unfold mbind, M_bind.
  specialize (Hm w). destruct (m w) as [[a|e] w1]; simpl in *.
  - by rewrite Hk.
  - done.
Qed.

Lemma keeps_files_ret {A} (a : A) : keeps_files (mret a : M A).
Proof. done. Qed.

Lemma keeps_files_raise {A} (e : exn) : keeps_files (raise e : M A).
Proof. done. Qed.

Lemma keeps_files_print (txt : str) : keeps_files (print txt).
Proof. done. Qed.

Lemma keeps_files_for_each {A} (l : list A) (body : A -> M unit) :
  (forall x, keeps_files (body x)) -> keeps_files (for_each l body).
Proof.
  intros Hb. induction l as [|x l IH]; [done |].
  apply keeps_files_bind; [apply Hb | by intros _].
Qed.

(** ** Comment-Block Parser: the content type *)

Lemma keeps_files_parseFunction (doc : str) : keeps_files (parseFunction doc).
Proof.
  intros w.
  destruct (extractItems "function" (doc ++ "\n")) as [[|d more] lines] eqn:H.
  - unfold parseFunction. by rewrite H.
  - by rewrite (parseFunction_found doc d more lines w H), register_run.
Qed.

Lemma parseFunction_outcome (doc : str) (w : world) :
  fst (parseFunction doc w) = Return tt \/ fst (parseFunction doc w) = Raise IndexError.
Proof.
  destruct (extractItems "function" (doc ++ "\n")) as [[|d more] lines] eqn:H.
  - right. unfold parseFunction. by rewrite H.
  - left. by rewrite (parseFunction_found doc d more lines w H), register_run.
Qed.

Lemma logError_run (txt : str) (w : world) :
  logError txt w =
    (Raise (SystemExit 1),
     World (fs w) (stdout w ++ ["Error: " ++ txt]) (MODULES w) (clock w)).
Proof. reflexivity. Qed.

Lemma logInfo_run (txt : str) (w : world) :
  logInfo txt w =
    (Return tt, World (fs w) (stdout w ++ ["Info: " ++ txt]) (MODULES w) (clock w)).
Proof. reflexivity. Qed.

Lemma parseDoc_short (doc : str) (w : world) :
  length (firstLine doc) < 2 ->
  parseDoc doc w =
    (Raise (SystemExit 1),
     World (fs w)
       (stdout w ++ ["Error: definition missing in:\n" ++ blockText doc])
       (MODULES w) (clock w)).
Proof.
  intros Hlen. unfold parseDoc. fold (firstLine doc).
  apply Nat.ltb_lt in Hlen. rewrite Hlen.
  by erewrite bind_Raise by apply logError_run.
Qed.

Lemma parseDoc_long (doc : str) (w : world) :
  2 <= length (firstLine doc) ->
  parseDoc doc w =
    let contentType := split_head " " (firstLine doc) in
    if contentType =s? "@function" then parseFunction (blockText doc) w
    else if contentType =s? "@foobar" then (Return tt, w)
    else logInfo ("Unknown content type: " ++ contentType) w.
Proof.
  intros Hlen. unfold parseDoc. fold (firstLine doc).
  replace (length (firstLine doc) <? 2) with false
    by (symmetry; apply Nat.ltb_ge; lia).
  erewrite bind_Return by reflexivity. cbv zeta.
  destruct (_ =s? "@function"); [done |].
  by destruct (_ =s? "@foobar").
Qed.

Lemma keeps_files_parseDoc (doc : str) : keeps_files (parseDoc doc).
Proof.
  intros w. destruct (decide (length (firstLine doc) < 2)) as [Hlen|Hlen].
  - by rewrite parseDoc_short.
  - rewrite parseDoc_long by lia. cbv zeta.
    destruct (_ =s? "@function"); [apply keeps_files_parseFunction |].
    by destruct (_ =s? "@foobar").
Qed.

Lemma keeps_files_parseSource (data : str) : keeps_files (parseSource data).
Proof.
  apply keeps_files_bind; [apply keeps_files_print |]. intros _.
  apply keeps_files_for_each, keeps_files_parseDoc.
Qed.

Lemma keeps_files_read_file (path : str) : keeps_files (read_file path).
Proof. intros w. unfold read_file. by destruct (fs w !! path). Qed.

Lemma keeps_files_fetch (E : env) (fileName : str) : keeps_files (fetch E fileName).
Proof.
  unfold fetch. destruct (startswith "http" fileName); [|apply keeps_files_read_file].
  by destruct (urlopen E fileName).
Qed.

Lemma keeps_files_scanFiles (E : env) (files : list str) :
  keeps_files (scanFiles E files).
Proof.
  apply keeps_files_for_each. intros fileName.
  apply keeps_files_bind; [apply keeps_files_print |]. intros _.
  apply keeps_files_bind; [apply keeps_files_fetch |]. intros data.
  apply keeps_files_parseSource.
Qed.

(** An exception of the scan ends the run before any page or index
    document is written. *)
Lemma main_scan_raises (E : env) (files : list str) (w w' : world) (e : exn) :
  scanFiles E (match files with [] => defaultFiles | _ => files end) w = (Raise e, w') ->
  main E files w = (Raise e, w') /\ fs w' = fs w.
Proof.
  intros Hscan. split.
  - unfold main. by erewrite bind_Raise by exact Hscan.
  - match type of Hscan with
    | scanFiles _ ?f _ = _ => pose proof (keeps_files_scanFiles E f w) as H
    end.
    by rewrite Hscan in H.
Qed.

Lemma print_run (txt : str) (w : world) : print txt w = (Return tt, printed w [txt]).
Proof. reflexivity. Qed.

Lemma printed_printed (w : world) (l1 l2 : list str) :
  printed (printed w l1) l2 = printed w (l1 ++ l2).
Proof. unfold printed. simpl. by rewrite app_assoc. Qed.

Lemma read_file_run (path data : str) (w : world) :
  fs w !! path = Some data -> read_file path w = (Return data, w).
Proof. unfold read_file. by intros ->. Qed.

(** C5 (amended).  A block whose first line, trimmed of spaces, tabs and
    newlines (of these three only, as [strip(" \t\n")] does), is empty or a
    single character makes [parseDoc] print an error and
    raise [SystemExit 1]; in a run that reaches the block, the exception
    ends [main] at once, before any file is written.  A block whose
    trimmed first line has two characters or more is never ended by
    [SystemExit]. *)
Theorem C5_missing_content_type (E : env) (doc : str) (w : world) :
  (length (firstLine doc) < 2 ->
     parseDoc doc w =
       (Raise (SystemExit 1),
        printed w ["Error: definition missing in:\n" ++ blockText doc]) /\
     forall fileName data before after w0,
       startswith "http" fileName = false ->
       fs w0 !! fileName = Some data ->
       findall luadoc_pattern data = before ++ doc :: after ->
       for_each before parseDoc
         (printed w0 ["Info: Opening " ++ fileName;
                      "Info: Found " ++ str_of_nat (length (before ++ doc :: after)) ++
                      " documentation sections"]) = (Return tt, w) ->
       main E [fileName] w0 =
         (Raise (SystemExit 1),
          printed w ["Error: definition missing in:\n" ++ blockText doc]) /\
       fs w = fs w0) /\
  (2 <= length (firstLine doc) ->
     forall code w', parseDoc doc w <> (Raise (SystemExit code), w')).
Proof.
  split.
  - intros Hlen. split; [by apply parseDoc_short |].
    intros fileName data before after w0 Hlocal Hdata Hdocs Hbefore.
    assert (Hscan : scanFiles E [fileName] w0 =
      (Raise (SystemExit 1),
       printed w ["Error: definition missing in:\n" ++ blockText doc])).
    { cbn [scanFiles for_each].
      erewrite bind_Raise; [done |].
      erewrite bind_Return by apply print_run.
      erewrite bind_Return
        by (unfold fetch; rewrite Hlocal; apply read_file_run; exact Hdata).
      unfold parseSource. rewrite Hdocs.
      erewrite bind_Return by apply print_run.
      rewrite printed_printed. cbn [app].
      rewrite for_each_app.
      match type of Hbefore with
      | for_each _ _ ?y = _ =>
          match goal with
          | |- context [for_each before parseDoc ?x] => change x with y
          end
      end.
      rewrite Hbefore. cbn [for_each].
      by erewrite bind_Raise by (by apply parseDoc_short). }
    destruct (main_scan_raises E [fileName] w0 _ _ Hscan) as [Hmain Hfs].
    split; [done |]. by rewrite <- Hfs.
  - intros Hlen code w' Hrun. rewrite parseDoc_long in Hrun by done.
    cbv zeta in Hrun.
    destruct (_ =s? "@function").
    + destruct (parseFunction_outcome (blockText doc) w) as [H|H];
        rewrite Hrun in H; done.
    + destruct (_ =s? "@foobar"); done.
Qed.

Lemma C5_witness :
  parseDoc "/*luadoc x */" initial =
    (Raise (SystemExit 1), printed initial ["Error: definition missing in:\nx\n"]) /\
  forall code w', parseDoc "/*luadoc\n@foobar\n*/" initial <> (Raise (SystemExit code), w').
Proof.
  split.
  - apply (C5_missing_content_type offline
             "/*luadoc x */" initial). vm_compute. lia.
  - apply (C5_missing_content_type offline
             "/*luadoc\n@foobar\n*/" initial). vm_compute. lia.
Defined.

(** C5 as stated fails on a first line that other white space ends.  The
    first line of this block is [x] and a carriage return: trimmed of white
    space it is a single character, but [strip(" \t\n")] leaves it as it
    is, two characters long, and the run goes on. *)
Lemma C5_counterexample :
  let doc := "/*luadoc\nx\x0d\n*/" in
  split_head "\n" (blockText doc) = "x\x0d" /\
  strip whitespace (split_head "\n" (blockText doc)) = "x" /\
  parseDoc doc initial =
    (Return tt, printed initial ["Info: Unknown content type: x\x0d"]).
Proof. repeat split. Qed.



(** ** [findall] *)

Section Findall.
Context (re : bool -> str -> option nat).

Lemma findall_rounds_nil (n : nat) (bol : bool) : findall_rounds n re bol [] = [].
Proof. by destruct n. Qed.

Lemma in_sequence_cons (x : ascii) (chunks : list str) (s : str) :
  in_sequence chunks s -> in_sequence chunks (x :: s).
Proof.
  destruct chunks as [|c cs]; [done |].
  intros (g & r & -> & Hr). by exists (x :: g), r.
Qed.

(** The matches lie in the text one after the other. *)
Lemma findall_rounds_in_sequence (n : nat) (bol : bool) (s : str) :
  in_sequence (findall_rounds n re bol s) s.
Proof.
  revert bol s. induction n as [|n IH]; intros bol s; [done |].
  destruct s as [|c s]; [done |]. cbn [findall_rounds].
  destruct (re bol (c :: s)) as [[|k]|].
  - apply in_sequence_cons, IH.
  - exists [], (drop (S k) (c :: s)). split; [|apply IH].
    by rewrite app_nil_l, take_drop.
  - apply in_sequence_cons, IH.
Qed.

Lemma line_start_S (text : str) (p : nat) (c : ascii) :
  text !! p = Some c -> line_start text (S p) = (c =c? LF).
Proof. simpl. by intros ->. Qed.

Lemma drop_lookup_cons (text : str) (p : nat) (c : ascii) (s : str) :
  drop p text = c :: s -> text !! p = Some c /\ drop (S p) text = s /\ p < length text.
Proof.
  intros H. assert (Hc : text !! p = Some c).
  { pose proof (lookup_drop text p 0) as H0.
    rewrite H, Nat.add_0_r in H0. by simpl in H0. }
  split; [done |]. split.
  - rewrite <- (Nat.add_1_l p), Nat.add_comm, <- drop_drop, H. done.
  - by apply lookup_lt_Some in Hc.
Qed.

Lemma ends_line_take (text : str) (p k : nat) :
  p + S k <= length text ->
  ends_line (take (S k) (drop p text)) = line_start text (p + S k).
Proof.
  intros Hle. unfold ends_line.
  rewrite Nat.add_succ_r. cbn [line_start].
  rewrite last_lookup. rewrite length_take, length_drop.
  replace (pred (S k `min` (length text - p))) with k by lia.
  rewrite lookup_take_lt by lia. rewrite lookup_drop. done.
Qed.

(** No match from [p] on: nothing is found. *)
Lemma findall_rounds_none (text : str) (n p : nat) :
  (forall q k, p <= q -> q < length text -> match_at re text q <> Some (S k)) ->
  findall_rounds n re (line_start text p) (drop p text) = [].
Proof.
  revert p. induction n as [|n IH]; intros p Hno; [done |].
  destruct (drop p text) as [|c s] eqn:Hd; [done |].
  destruct (drop_lookup_cons _ _ _ _ Hd) as (Hc & Hs & Hlt).
  cbn [findall_rounds]. rewrite <- Hd.
  pose proof (Hno p) as Hp. unfold match_at in Hp.
  destruct (re (line_start text p) (drop p text)) as [[|k]|].
  - rewrite <- (line_start_S _ _ _ Hc), <- Hs. apply IH.
    intros q k Hq. apply Hno. lia.
  - by destruct (Hp k).
  - rewrite <- (line_start_S _ _ _ Hc), <- Hs. apply IH.
    intros q k Hq. apply Hno. lia.
Qed.

(** No match from [p] up to a match at [q]: that one is found first. *)
Lemma findall_rounds_first (text : str) (n p q k : nat) :
  p <= q -> length text - p <= n ->
  (forall q' k', p <= q' -> q' < q -> match_at re text q' <> Some (S k')) ->
  match_at re text q = Some (S k) -> q < length text ->
  exists m,
    findall_rounds n re (line_start text p) (drop p text) =
      take (S k) (drop q text) ::
      findall_rounds m re (line_start text (q + S k)) (drop (q + S k) text).
Proof.
  revert p. induction n as [|n IH]; intros p Hpq Hn Hno Hq Hlt; [lia |].
  destruct (drop p text) as [|c s] eqn:Hd.
  { apply (f_equal length) in Hd. rewrite length_drop in Hd. simpl in Hd. lia. }
  destruct (drop_lookup_cons _ _ _ _ Hd) as (Hc & Hs & _).
  cbn [findall_rounds]. rewrite <- Hd.
  destruct (decide (p = q)) as [->|Hne].
  - unfold match_at in Hq. rewrite Hq. exists n. f_equal.
    rewrite drop_drop.
    destruct (decide (q + S k <= length text)) as [Hle|Hgt].
    + by rewrite ends_line_take.
    + rewrite (drop_ge text (q + S k)) by lia. by rewrite !findall_rounds_nil.
  - pose proof (Hno p) as Hp. unfold match_at in Hp.
    assert (Hstep : exists m,
      findall_rounds n re (line_start text (S p)) (drop (S p) text) =
        take (S k) (drop q text) ::
        findall_rounds m re (line_start text (q + S k)) (drop (q + S k) text)).
    { apply IH; [lia | lia | | done | done]. intros q' k' ? ?. apply Hno; lia. }
    rewrite (line_start_S _ _ _ Hc), Hs in Hstep.
    destruct (re (line_start text p) (drop p text)) as [[|k']|]; [done | | done].
    destruct (Hp k'); [lia | lia | done].
Qed.

(** A single match: it is all that is found. *)
Lemma findall_single (text : str) (q k : nat) :
  match_at re text q = Some (S k) -> q < length text ->
  (forall q' k', q' < q \/ q + S k <= q' -> q' < length text ->
                 match_at re text q' <> Some (S k')) ->
  findall re text = [take (S k) (drop q text)].
Proof.
  intros Hq Hlt Hno. unfold findall.
  destruct (findall_rounds_first text (length text) 0 q k) as [m Hm];
    [lia | lia | | done | done |].
  { intros q' k' _ ?. apply Hno; [by left | lia]. }
  change (findall_rounds (length text) re true text)
    with (findall_rounds (length text) re (line_start text 0) (drop 0 text)).
  rewrite Hm. f_equal. apply findall_rounds_none.
  intros q' k' ? ?. apply Hno; [by right | done].
Qed.

Lemma findall_none (text : str) :
  (forall q k, q < length text -> match_at re text q <> Some (S k)) ->
  findall re text = [].
Proof.
  intros Hno. unfold findall.
  change (findall_rounds (length text) re true text)
    with (findall_rounds (length text) re (line_start text 0) (drop 0 text)).
  apply findall_rounds_none. intros q k _. apply Hno.
Qed.

End Findall.

(** ** Block Extractor *)

Lemma match_blank_bounds (s : str) (n : nat) :
  match_blank s = Some n -> 1 <= n <= length s.
Proof.
  revert n. induction s as [|c s IH]; intros n; simpl; [done |].
  destruct (isspace c); [|done].
  destruct (match_blank s) as [m|].
  - intros [= <-]. specialize (IH m eq_refl). lia.
  - destruct (c =c? LF); [|done]. intros [= <-]. lia.
Qed.

Lemma match_upto_blank_bounds (s : str) (n : nat) :
  match_upto_blank s = Some n -> 2 <= n <= length s.
Proof.
  revert n. induction s as [|c s IH]; intros n; simpl; [done |].
  destruct (if c =c? LF then match_blank s else None) as [m|] eqn:Hm.
  - intros [= <-]. destruct (c =c? LF); [|done].
    apply match_blank_bounds in Hm. lia.
  - destruct (match_upto_blank s) as [m|]; [|done].
    intros [= <-]. specialize (IH m eq_refl). lia.
Qed.

Lemma item_pattern_Some (item : str) (bol : bool) (s : str) (n : nat) :
  item_pattern item bol s = Some n ->
  bol = true /\
  exists c body,
    take n s = "@" ++ item ++ c :: body /\ length item + 3 <= n <= length s.
Proof.
  unfold item_pattern. destruct bol; [|done]. cbn [andb].
  destruct (startswith ("@" ++ item) s) eqn:Hs; [|done].
  apply startswith_prefix in Hs as [r ->].
  replace (length item + 1) with (length ("@" ++ item)) by (simpl; lia).
  rewrite drop_app_length.
  destruct (match_upto_blank r) as [m|] eqn:Hm; [|done].
  intros [= <-]. split; [done |].
  apply match_upto_blank_bounds in Hm.
  destruct r as [|c r]; [simpl in Hm; lia |].
  exists c, (take (m - 1) r). split.
  - replace (S (length item + m)) with (length ("@" ++ item) + m) by (simpl; lia).
    rewrite take_app_add'; [|done]. rewrite <- app_assoc. f_equal. f_equal.
    destruct m; [lia |]. simpl. by rewrite Nat.sub_0_r.
  - rewrite length_app. simpl in *. lia.
Qed.

Lemma blocks_elem (item text : str) (p : nat) :
  In p (blocks item text) <-> p < length text /\ is_Some (block_at item text p).
Proof.
  unfold blocks. rewrite filter_In, in_seq, bool_decide_eq_true.
  split; [intros [[_ ?] ?] | intros [? ?]]; (split; [lia | done]) || done.
Qed.

Lemma block_at_bound (item text : str) (p n : nat) :
  block_at item text p = Some n -> p < length text /\ exists k, n = S k.
Proof.
  intros H. apply item_pattern_Some in H as (_ & c & body & _ & Hn).
  rewrite length_drop in Hn. split; [lia |]. exists (n - 1). lia.
Qed.

Lemma replace1_first (chunk a r : str) :
  exists u, replace1 chunk "" (a ++ chunk ++ r) = u ++ r /\
            removes_first chunk (a ++ chunk ++ r) (u ++ r).
Proof.
  destruct (find_occurrence chunk a r) as (i & Hi & Hle).
  pose proof (find_cut _ _ _ Hi) as Hcut.
  unfold replace1. rewrite Hi. cbn [app].
  set (X := a ++ chunk ++ r) in *.
  assert (Hdrop : drop (i + length chunk) X =
                  drop (i + length chunk) (a ++ chunk) ++ r).
  { unfold X. rewrite (app_assoc a chunk r). apply drop_app_le.
    rewrite length_app. lia. }
  exists (take i X ++ drop (i + length chunk) (a ++ chunk)).
  rewrite Hdrop, <- app_assoc. split; [done |].
  exists (take i X), (drop (i + length chunk) X). split; [done |].
  split; [by rewrite Hdrop |].
  intros a' b' Ha'. destruct (find_Some _ _ _ Hi) as (_ & Hlen & Hmin).
  rewrite length_take. rewrite Nat.min_l by done.
  destruct (decide (i <= length a')) as [|Hgt]; [done |].
  exfalso. specialize (Hmin (length a') ltac:(lia)).
  by rewrite Ha', drop_app_length, startswith_app in Hmin.
Qed.

Lemma removes_first_length (chunk s s' : str) :
  removes_first chunk s s' -> length s' + length chunk = length s.
Proof.
  intros (a & b & -> & -> & _). rewrite !length_app. lia.
Qed.

Lemma removed_in_order_length (chunks : list str) (s s' : str) :
  removed_in_order chunks s s' -> length s' + length (concat chunks) = length s.
Proof.
  induction 1 as [s|chunk chunks s s1 s' H1 _ IH]; simpl; [lia |].
  apply removes_first_length in H1. rewrite length_app. lia.
Qed.

Lemma removed_single (chunk s s' : str) :
  removed_in_order [chunk] s s' -> removes_first chunk s s'.
Proof.
  inversion 1 as [|? ? ? s1 ? H1 H2]; subst. by inversion H2; subst.
Qed.

(** Chunks that lie in a text one after the other are cut out of it one
    after the other: each is still there when its turn comes. *)
Lemma fold_replace1_in_order (chunks : list str) (s u : str) :
  in_sequence chunks s ->
  removed_in_order chunks (u ++ s)
    (fold_left (fun left i => replace1 i "" left) chunks (u ++ s)).
Proof.
  revert s u. induction chunks as [|c cs IH]; intros s u Hs; [constructor |].
  destruct Hs as (g & r & -> & Hr). cbn [fold_left].
  rewrite (app_assoc u g (c ++ r)).
  destruct (replace1_first c (u ++ g) r) as (u' & Heq & Hrm).
  rewrite Heq. econstructor; [exact Hrm | by apply IH].
Qed.

Lemma extractItems_residual (item doc : str) :
  removed_in_order (findall (item_pattern item) doc) doc (snd (extractItems item doc)).
Proof.
  unfold extractItems. cbn [snd].
  apply (fold_replace1_in_order _ doc []).
  apply findall_rounds_in_sequence.
Qed.

(** C3.  For a tag that is matched literally, the residual text of
    [extractItems] is the input after every matched chunk was cut out once,
    in the order of the matches, each cut taking the first occurrence of
    the chunk in what is left by then, wherever the match itself was; the
    chunk is always still there, so the residual is shorter than the input
    by the lengths of the chunks.  Of two identical chunks the earlier
    occurrence therefore goes first. *)
Theorem C3_residual (item doc : str) :
  plain_tag item = true ->
  let chunks := findall (item_pattern item) doc in
  removed_in_order chunks doc (snd (extractItems item doc)) /\
  length (snd (extractItems item doc)) + length (concat chunks) = length doc.
Proof.
  intros _ chunks. split; [apply extractItems_residual |].
  apply removed_in_order_length, extractItems_residual.
Qed.

Lemma C3_witness :
  let doc := "one\n@param x\n\ntwo\n@param x\n\n" in
  removed_in_order ["@param x\n\n"; "@param x\n\n"] doc (snd (extractItems "param" doc)) /\
  length (snd (extractItems "param" doc)) + 20 = length doc.
Proof. exact (C3_residual "param" "one\n@param x\n\ntwo\n@param x\n\n" eq_refl). Defined.

(** The occurrence that is cut out is the first one in the text, which
    need not be the one that was matched. *)
Example extractItems_first_occurrence :
  extractItems "T" "x@T a\n\nY\n@T a\n\n" = (["a\n\n"], "xY\n@T a\n\n").
Proof. reflexivity. Qed.

(** C2 (amended).  For a tag that is matched literally and a text that
    holds exactly one sub-block of that tag, [extractItems] returns one
    item: the sub-block without its first [len(item) + 2] characters, that
    is without [@], the tag and the one character that follows the tag
    (which is the sub-block without its prefix ["@item "] when that
    character is a space); the residual is the text with the first
    occurrence of the sub-block cut out.  For a text without a sub-block
    it returns no item and the text itself. *)
Theorem C2_extractItems (item text : str) :
  plain_tag item = true ->
  (forall p, blocks item text = [p] ->
     exists n c body,
       block_at item text p = Some n /\
       take n (drop p text) = "@" ++ item ++ c :: body /\
       extractItems item text = ([body], replace1 (take n (drop p text)) "" text) /\
       removes_first (take n (drop p text)) text (snd (extractItems item text)) /\
       (c = " "%char ->
        body = without_prefix ("@" ++ item ++ " ") (take n (drop p text)))) /\
  (blocks item text = [] -> extractItems item text = ([], text)).
Proof.
  intros _. split.
  - intros p Hb.
    assert (Hp : In p (blocks item text)) by (rewrite Hb; by left).
    apply blocks_elem in Hp as [Hlt [n Hn]].
    destruct (block_at_bound _ _ _ _ Hn) as [_ [k ->]].
    pose proof Hn as Hpat. apply item_pattern_Some in Hpat as (_ & c & body & Hchunk & Hlen).
    assert (Hfind : findall (item_pattern item) text = [take (S k) (drop p text)]).
    { apply findall_single; [exact Hn | done |].
      intros q' k' Hq' Hlt' Hm.
      assert (Hin : In q' (blocks item text)).
      { apply blocks_elem. split; [done |]. by eexists. }
      rewrite Hb in Hin. destruct Hin as [<-|[]]. lia. }
    exists (S k), c, body. split; [done |]. split; [done |].
    assert (Hex : extractItems item text =
                  ([body], replace1 (take (S k) (drop p text)) "" text)).
    { unfold extractItems. rewrite Hfind. cbn [map fold_left]. f_equal. f_equal.
      unfold slice_from. rewrite Hchunk.
      replace (length item + 2) with (length ("@" ++ item ++ [c]))
        by (rewrite !length_app; simpl; lia).
      replace ("@" ++ item ++ c :: body) with (("@" ++ item ++ [c]) ++ body)
        by (by rewrite <- !app_assoc).
      apply drop_app_length. }
    split; [done |]. split.
    + pose proof (extractItems_residual item text) as Hres.
      rewrite Hfind in Hres. by apply removed_single.
    + intros ->. unfold without_prefix. rewrite Hchunk.
      replace ("@" ++ item ++ " "%char :: body) with (("@" ++ item ++ " ") ++ body)
        by (by rewrite <- !app_assoc).
      by rewrite startswith_app, drop_app_length.
  - intros Hb. unfold extractItems. rewrite findall_none; [done |].
    intros q k Hlt Hm.
    assert (Hin : In q (blocks item text)).
    { apply blocks_elem. split; [done |]. by eexists. }
    by rewrite Hb in Hin.
Qed.

Lemma C2_witness :
  exists n c body,
    block_at "param" "Draws.\n\n@param x left\n\nmore\n" 8 = Some n /\
    take n (drop 8 "Draws.\n\n@param x left\n\nmore\n") = "@" ++ "param" ++ c :: body /\
    extractItems "param" "Draws.\n\n@param x left\n\nmore\n" = ([body], "Draws.\n\nmore\n").
Proof.
  destruct (C2_extractItems "param" "Draws.\n\n@param x left\n\nmore\n" eq_refl) as [H _].
  destruct (H 8 eq_refl) as (n & c & body & Hn & Hchunk & Hex & _).
  exists n, c, body. split; [exact Hn |]. split; [exact Hchunk |].
  rewrite Hex. f_equal.
  assert (n = 15) as -> by (vm_compute in Hn; congruence).
  reflexivity.
Defined.

(** C2 as stated fails when the tag is not followed by a space: here the
    tag ends its line, the only sub-block is the whole text and does not
    start with ["@notice "], and the item lacks the first eight characters
    of the sub-block all the same. *)
Lemma C2_counterexample :
  blocks "notice" "@notice\nBeware\n\n" = [0] /\
  block_at "notice" "@notice\nBeware\n\n" 0 = Some 16 /\
  extractItems "notice" "@notice\nBeware\n\n" = (["Beware\n\n"], "") /\
  fst (extractItems "notice" "@notice\nBeware\n\n") <>
    [without_prefix "@notice " "@notice\nBeware\n\n"].
Proof. repeat split. vm_compute. discriminate. Qed.



(** ** Ordering and [sorted] *)

Lemma lt_asym {K} (lt : K -> K -> bool) (x y : K) :
  strict_total lt -> lt x y = true -> lt y x = false.
Proof.
  intros H Hxy. destruct (lt y x) eqn:Hyx; [|done].
  by rewrite <- (lt_irrefl lt H x), (lt_trans lt H x y x Hxy Hyx).
Qed.

Lemma ascii_lt_strict_total : strict_total ascii_lt.
Proof.
  unfold ascii_lt. split.
  - intros x. apply Nat.ltb_irrefl.
  - intros x y z. rewrite !Nat.ltb_lt. lia.
  - intros x y. rewrite !Nat.ltb_ge. intros H1 H2.
    rewrite <- (ascii_nat_embedding x), <- (ascii_nat_embedding y). f_equal. lia.
Qed.

Lemma seq_lt_strict_total {A} (lt : A -> A -> bool) :
  strict_total lt -> strict_total (seq_lt lt).
Proof.
  intros H. split.
  - intros a. induction a as [|x a IH]; [done |]. simpl.
    by rewrite (lt_irrefl lt H x).
  - intros a. induction a as [|x a IH]; intros b c Hab Hbc.
    + destruct b as [|y b]; [done |]. by destruct c.
    + destruct b as [|y b]; [done |]. destruct c as [|z c]; [done |].
      simpl in *.
      destruct (lt x y) eqn:Hxy.
      * destruct (lt y z) eqn:Hyz.
        { by rewrite (lt_trans lt H x y z Hxy Hyz). }
        destruct (lt z y) eqn:Hzy; [done |].
        rewrite (lt_total lt H y z Hyz Hzy) in Hxy. by rewrite Hxy.
      * destruct (lt y x) eqn:Hyx; [done |].
        rewrite (lt_total lt H x y Hxy Hyx) in *.
        destruct (lt y z); [done |]. destruct (lt z y); [done |]. by eapply IH.
  - intros a. induction a as [|x a IH]; intros b Hab Hba.
    + by destruct b.
    + destruct b as [|y b]; [done |]. simpl in *.
      destruct (lt x y) eqn:Hxy; [done |]. destruct (lt y x) eqn:Hyx; [done |].
      f_equal; [by apply (lt_total lt H) | by apply IH].
Qed.

Lemma pair_lt_strict_total {A B} (lta : A -> A -> bool) (ltb : B -> B -> bool) :
  strict_total lta -> strict_total ltb -> strict_total (pair_lt lta ltb).
Proof.
  intros Ha Hb. unfold pair_lt. split.
  - intros [a b]. simpl. by rewrite (lt_irrefl lta Ha), (lt_irrefl ltb Hb).
  - intros [a1 b1] [a2 b2] [a3 b3]. simpl.
    destruct (lta a1 a2) eqn:H12.
    + intros _. destruct (lta a2 a3) eqn:H23.
      { by rewrite (lt_trans lta Ha _ _ _ H12 H23). }
      destruct (lta a3 a2) eqn:H32; [done |].
      rewrite (lt_total lta Ha _ _ H23 H32) in H12. by rewrite H12.
    + destruct (lta a2 a1) eqn:H21; [done |].
      rewrite (lt_total lta Ha _ _ H12 H21).
      destruct (lta a2 a3); [done |]. destruct (lta a3 a2); [done |].
      apply (lt_trans ltb Hb).
  - intros [a1 b1] [a2 b2]. simpl.
    destruct (lta a1 a2) eqn:H12; [done |]. destruct (lta a2 a1) eqn:H21; [done |].
    intros H1 H2. f_equal; [by apply (lt_total lta Ha) | by apply (lt_total ltb Hb)].
Qed.

Lemma str_lt_strict_total : strict_total str_lt.
Proof. apply seq_lt_strict_total, ascii_lt_strict_total. Qed.

Lemma func_lt_tuple (f g : func) :
  func_lt f g =
    pair_lt str_lt (pair_lt str_lt (pair_lt str_lt (pair_lt str_lt
      (pair_lt (seq_lt (pair_lt str_lt str_lt))
         (pair_lt (seq_lt (pair_lt str_lt str_lt)) (seq_lt str_lt))))))
      (as_tuple f) (as_tuple g).
Proof. reflexivity. Qed.

Lemma func_lt_strict_total : strict_total func_lt.
Proof.
  pose proof str_lt_strict_total as Hs.
  pose proof (seq_lt_strict_total _ (pair_lt_strict_total _ _ Hs Hs)) as Hp.
  pose proof (pair_lt_strict_total _ _ Hs (pair_lt_strict_total _ _ Hs
    (pair_lt_strict_total _ _ Hs (pair_lt_strict_total _ _ Hs
    (pair_lt_strict_total _ _ Hp (pair_lt_strict_total _ _ Hp
    (seq_lt_strict_total _ Hs))))))) as Ht.
  split.
  - intros f. rewrite func_lt_tuple. apply (lt_irrefl _ Ht).
  - intros f g h. rewrite !func_lt_tuple. apply (lt_trans _ Ht).
  - intros f g. rewrite !func_lt_tuple. intros H1 H2.
    pose proof (lt_total _ Ht _ _ H1 H2) as Heq.
    destruct f, g. unfold as_tuple in Heq. simpl in Heq. congruence.
Qed.

Section SortedFacts.
Context {A K : Type} (lt : K -> K -> bool) (key : A -> K).

Lemma insert_sorted_perm (x : A) (l : list A) :
  Permutation (insert_sorted lt key x l) (x :: l).
Proof.
  induction l as [|y l IH]; simpl; [done |].
  destruct (lt (key y) (key x)); [|done].
  rewrite IH. apply perm_swap.
Qed.

Lemma sorted_perm (l : list A) : Permutation (sorted lt key l) l.
Proof.
  induction l as [|x l IH]; simpl; [done |].
  rewrite insert_sorted_perm. by constructor.
Qed.

Lemma sorted_length (l : list A) : length (sorted lt key l) = length l.
Proof. apply Permutation_length, sorted_perm. Qed.

Context (Hlt : strict_total lt).

#[local] Abbreviation le_key := (key_le lt key).

Lemma key_le_trans (x y z : A) : le_key x y -> le_key y z -> le_key x z.
Proof.
  unfold key_le. intros Hxy Hyz.
  destruct (lt (key z) (key x)) eqn:Hzx; [|done].
  destruct (lt (key x) (key y)) eqn:Hxy'.
  - by rewrite (lt_trans lt Hlt _ _ _ Hzx Hxy') in Hyz.
  - rewrite (lt_total lt Hlt _ _ Hxy' Hxy) in Hzx. by rewrite Hzx in Hyz.
Qed.

Lemma insert_sorted_sorted (x : A) (l : list A) :
  StronglySorted le_key l -> StronglySorted le_key (insert_sorted lt key x l).
Proof.
  induction 1 as [|y l Hl IH Hy]; simpl.
  - constructor; [constructor | constructor].
  - destruct (lt (key y) (key x)) eqn:Hyx.
    + constructor; [done |].
      rewrite Forall_forall. intros z Hz.
      rewrite (insert_sorted_perm x l) in Hz.
      apply elem_of_cons in Hz as [->|Hz].
      * by apply lt_asym.
      * rewrite Forall_forall in Hy. by apply Hy.
    + constructor; [by constructor |].
      constructor; [done |].
      eapply Forall_impl; [exact Hy |]. intros z Hz. by eapply key_le_trans.
Qed.

Lemma sorted_sorted (l : list A) : StronglySorted le_key (sorted lt key l).
Proof.
  induction l as [|x l IH]; simpl; [constructor |].
  by apply insert_sorted_sorted.
Qed.

End SortedFacts.

(** ** Index Updater: one section *)

Lemma rstrip_ws_line (x : str) : rstrip_ws (x ++ ")\n") = x ++ ")".
Proof.
  unfold rstrip_ws, rstrip. rewrite rev_app_distr. simpl.
  by rewrite rev_involutive.
Qed.

Lemma set_last_app (l entries : list str) (v : str) :
  entries <> [] -> set_last (l ++ entries) v = l ++ removelast entries ++ [v].
Proof.
  intros H. unfold set_last. rewrite removelast_app by done.
  by rewrite <- app_assoc.
Qed.

Lemma last_app_entries (l entries : list str) :
  entries <> [] -> List.last (l ++ entries) [] = List.last entries [].
Proof.
  intros H. induction l as [|x l IH]; [done |].
  cbn [app]. rewrite <- IH. simpl. destruct (l ++ entries) eqn:Hl; [|done].
  by apply app_eq_nil in Hl as [_ ->].
Qed.


Lemma contains_occurrence (sub a b : str) : contains sub (a ++ sub ++ b) = true.
Proof.
  unfold contains. apply bool_decide_eq_true.
  destruct (find_occurrence sub a b) as (i & Hi & _). by eexists.
Qed.

Lemma insertSection_timestamp (E : env) (newContents : list str) (w : world) :
  insertSection E newContents "timestamp" w =
    (Return (newContents ++
             [STARTMARKER ++ "timestamp" ++ ")\n";
              timestampLine (utcnow E (clock w));
              ENDMARKER ++ "timestamp" ++ ")\n"]),
     ticked w).
Proof. reflexivity. Qed.

Lemma insertSection_module (E : env) (newContents : list str) (sectionName : str)
    (fns : list func) (w : world) :
  sectionName <> "timestamp" ->
  MODULES w !! sectionName = Some fns ->
  let entries := moduleEntries w sectionName fns in
  insertSection E newContents sectionName w =
    (Return (newContents ++ removelast entries ++
             [rstrip_ws (List.last entries []) ++ " " ++ ENDMARKER ++
              sectionName ++ ")\n"]), w).
Proof.
  intros Hts Hfns entries. unfold insertSection.
  apply str_eqb_neq in Hts. rewrite Hts.
  unfold mbind, M_bind, get_world. rewrite Hfns.
  unfold mret, M_ret. f_equal. f_equal.
  assert (Hentries :
    (if bool_decide (is_Some (fs w !! overviewFileName sectionName))
     then (newContents ++ [startLine sectionName]) ++ [overviewLine sectionName]
     else newContents ++ [startLine sectionName]) ++
    map (functionLine sectionName) (sorted func_lt id fns) =
    newContents ++ entries).
  { unfold entries, moduleEntries. case_bool_decide; by rewrite <- !app_assoc. }
  rewrite Hentries.
  assert (entries <> []) by done.
  by rewrite set_last_app, last_app_entries.
Qed.

Lemma insertSection_unknown (E : env) (newContents : list str) (sectionName : str)
    (w : world) :
  unknown_section w sectionName ->
  insertSection E newContents sectionName w = (Raise (KeyError sectionName), w).
Proof.
  intros [Hts Hfns]. unfold insertSection.
  apply str_eqb_neq in Hts. rewrite Hts.
  unfold mbind, M_bind, get_world. by rewrite Hfns.
Qed.




(** ** Index Updater: the whole document *)

Lemma insertSection_sectionLines (E : env) (newContents : list str)
    (sectionName : str) (w : world) :
  insertSection E newContents sectionName w =
    match sectionLines E w sectionName with
    | Some added =>
        (Return (newContents ++ added),
         if sectionName =s? "timestamp" then ticked w else w)
    | None => (Raise (KeyError sectionName), w)
    end.
Proof.
  unfold sectionLines. destruct (sectionName =s? "timestamp") eqn:Hts.
  - apply str_eqb_eq in Hts. subst. apply insertSection_timestamp.
  - apply str_eqb_neq in Hts. destruct (MODULES w !! sectionName) as [fns|] eqn:Hfns.
    + simpl. by apply insertSection_module.
    + simpl. by apply insertSection_unknown.
Qed.

Lemma replaceLines_start (E : env) (line : str) (rest newContents : list str)
    (ignoreLine : bool) :
  is_start line = true ->
  replaceLines E (line :: rest) newContents ignoreLine =
    replaceLines E rest newContents true.
Proof. unfold is_start. simpl. by intros ->. Qed.

Lemma replaceLines_end (E : env) (line : str) (rest newContents : list str)
    (ignoreLine : bool) :
  is_end line = true ->
  replaceLines E (line :: rest) newContents ignoreLine =
    (newContents ← insertSection E newContents (sectionNameOf line);
     replaceLines E rest newContents false).
Proof.
  unfold is_end. intros [Hs He]%andb_true_iff. apply negb_true_iff in Hs.
  simpl. by rewrite Hs, He.
Qed.

Lemma replaceLines_plain (E : env) (line : str) (rest newContents : list str)
    (ignoreLine : bool) :
  is_plain line = true ->
  replaceLines E (line :: rest) newContents ignoreLine =
    replaceLines E rest (if ignoreLine then newContents else newContents ++ [line])
      ignoreLine.
Proof.
  unfold is_plain. intros [Hs He]%andb_true_iff.
  apply negb_true_iff in Hs, He. simpl. rewrite Hs, He. by destruct ignoreLine.
Qed.

Lemma line_kind (line : str) :
  is_start line = true \/ is_end line = true \/ is_plain line = true.
Proof.
  unfold is_start, is_end, is_plain.
  destruct (contains STARTMARKER line), (contains ENDMARKER line); auto.
Qed.

Lemma is_end_not_start (line : str) : is_end line = true -> is_start line = false.
Proof. unfold is_start, is_end. by destruct (contains STARTMARKER line). Qed.

Lemma is_plain_not_start (line : str) : is_plain line = true -> is_start line = false.
Proof. unfold is_start, is_plain. by destruct (contains STARTMARKER line). Qed.

Lemma is_plain_not_end (line : str) : is_plain line = true -> is_end line = false.
Proof.
  unfold is_end, is_plain.
  by destruct (contains STARTMARKER line), (contains ENDMARKER line).
Qed.

Lemma is_start_not_end (line : str) : is_start line = true -> is_end line = false.
Proof. unfold is_start, is_end. by intros ->. Qed.

(** Lines without a marker, read outside a section, are copied. *)
Lemma replaceLines_copy (E : env) (pre rest newContents : list str) :
  Forall (fun l => is_plain l = true) pre ->
  replaceLines E (pre ++ rest) newContents false =
    replaceLines E rest (newContents ++ pre) false.
Proof.
  intros H. revert newContents.
  induction H as [|line pre Hline _ IH]; intros newContents.
  - by rewrite app_nil_r.
  - cbn [app]. rewrite replaceLines_plain by done.
    rewrite IH. by rewrite <- app_assoc.
Qed.

(** Inside a section every line up to the end-marker line is dropped. *)
Lemma replaceLines_drop (E : env) (body rest newContents : list str) :
  Forall (fun l => is_end l = false) body ->
  replaceLines E (body ++ rest) newContents true =
    replaceLines E rest newContents true.
Proof.
  intros H. induction H as [|line body Hline _ IH]; [done |].
  cbn [app]. destruct (line_kind line) as [Hk|[Hk|Hk]].
  - by rewrite replaceLines_start.
  - congruence.
  - by rewrite replaceLines_plain.
Qed.

Lemma readlines_nil (s : str) : readlines s = [] -> s = [].
Proof.
  destruct s as [|c s]; [done |]. simpl.
  destruct (c =c? LF); [done |]. by destruct (readlines s).
Qed.

Lemma concat_readlines (s : str) : concat (readlines s) = s.
Proof.
  induction s as [|c s IH]; [done |]. simpl.
  destruct (c =c? LF).
  - simpl. by rewrite IH.
  - destruct (readlines s) as [|l ls] eqn:Hl.
    + apply readlines_nil in Hl. by subst.
    + simpl in *. by rewrite IH.
Qed.

Lemma write_file_run (path data : str) (w : world) :
  write_file path data w =
    (Return tt, World (<[path := data]> (fs w)) (stdout w) (MODULES w) (clock w)).
Proof. reflexivity. Qed.

Lemma replaceSections_run (E : env) (fileName data : str) (w : world) :
  fs w !! fileName = Some data ->
  replaceSections E fileName w =
    match replaceLines E (readlines data) [] false w with
    | (Return out, w1) =>
        (Return tt,
         printed (World (<[fileName := concat out]> (fs w1)) (stdout w1)
                    (MODULES w1) (clock w1))
           ["Info: generated " ++ fileName])
    | (Raise e, w1) => (Raise e, w1)
    end.
Proof.
  intros Hdata. unfold replaceSections.
  erewrite bind_Return by (by apply read_file_run).
  unfold mbind at 1, M_bind.
  by destruct (replaceLines E (readlines data) [] false w) as [[out|e] w1].
Qed.

(** The loop touches the clock only. *)
Lemma replaceLines_world (E : env) (contents newContents : list str)
    (ignoreLine : bool) (w : world) :
  let w' := snd (replaceLines E contents newContents ignoreLine w) in
  fs w' = fs w /\ stdout w' = stdout w /\ MODULES w' = MODULES w.
Proof.
  revert newContents ignoreLine w.
  induction contents as [|line rest IH]; intros newContents ignoreLine w; [done |].
  destruct (line_kind line) as [Hk|[Hk|Hk]].
  - rewrite replaceLines_start by done. apply IH.
  - rewrite replaceLines_end by done. unfold mbind, M_bind.
    rewrite insertSection_sectionLines.
    destruct (sectionLines E w (sectionNameOf line)) as [added|]; [|done].
    destruct (IH (newContents ++ added) false
                (if sectionNameOf line =s? "timestamp" then ticked w else w))
      as (H1 & H2 & H3).
    cbv zeta. rewrite H1, H2, H3. by destruct (_ =s? "timestamp").
  - rewrite replaceLines_plain by done. apply IH.
Qed.

(** ** Index Updater: the parts of a document *)

Lemma parts_exist (contents : list str) :
  (exists ps, parts_ok ps /\ lines_of ps = contents) /\
  (forall sline body,
     is_start sline = true -> Forall (fun l => is_end l = false) body ->
     exists ps, parts_ok ps /\ lines_of ps = sline :: body ++ contents).
Proof.
  induction contents as [|line rest [(ps & Hok & Hlines) IHopen]].
  - split; [by exists [] |]. intros sline body Hs Hbody.
    exists [Unclosed sline body]. split; [simpl; auto |].
    simpl. by rewrite !app_nil_r.
  - split.
    + destruct (line_kind line) as [Hk|[Hk|Hk]].
      * apply (IHopen line []); [done | constructor].
      * exists (Stray line :: ps). split; [simpl; auto |]. simpl. by rewrite Hlines.
      * exists (Plain line :: ps). split; [simpl; auto |]. simpl. by rewrite Hlines.
    + intros sline body Hs Hbody. destruct (is_end line) eqn:He.
      * exists (Marked sline body line :: ps). split; [simpl; auto |].
        change (lines_of (Marked sline body line :: ps))
          with ((sline :: body ++ [line]) ++ lines_of ps).
        rewrite Hlines. cbn [app]. by rewrite <- app_assoc.
      * destruct (IHopen sline (body ++ [line])) as (ps' & Hok' & Hlines');
          [done | apply Forall_app; split; [done | by constructor] |].
        exists ps'. split; [done |]. by rewrite Hlines', <- app_assoc.
Qed.

Lemma replaceLines_parts (E : env) (ps : list part) :
  parts_ok ps ->
  forall newContents w,
    match regenerated E w ps with
    | Some out =>
        exists w', replaceLines E (lines_of ps) newContents false w =
                     (Return (newContents ++ out), w')
    | None =>
        exists e w', replaceLines E (lines_of ps) newContents false w = (Raise e, w')
    end.
Proof.
  assert (Hend : forall eline rest newContents ignoreLine w,
            is_end eline = true ->
            (forall newContents w,
               match regenerated E w rest with
               | Some out =>
                   exists w', replaceLines E (lines_of rest) newContents false w =
                                (Return (newContents ++ out), w')
               | None =>
                   exists e w', replaceLines E (lines_of rest) newContents false w =
                                  (Raise e, w')
               end) ->
            match regenerated E w (Stray eline :: rest) with
            | Some out =>
                exists w', replaceLines E (eline :: lines_of rest) newContents ignoreLine w =
                             (Return (newContents ++ out), w')
            | None =>
                exists e w', replaceLines E (eline :: lines_of rest) newContents ignoreLine w =
                               (Raise e, w')
            end).
  { intros eline rest newContents ignoreLine w He IH.
    rewrite replaceLines_end by done. cbn [regenerated].
    destruct (sectionLines E w (sectionNameOf eline)) as [added|] eqn:Hsec.
    - erewrite bind_Return by (rewrite insertSection_sectionLines, Hsec; reflexivity).
      specialize (IH (newContents ++ added)
                    (if sectionNameOf eline =s? "timestamp" then ticked w else w)).
      destruct (regenerated E _ rest) as [out|].
      + destruct IH as (w' & ->). exists w'. by rewrite app_assoc.
      + exact IH.
    - erewrite bind_Raise by (rewrite insertSection_sectionLines, Hsec; reflexivity).
      by eexists _, _. }
  induction ps as [|p ps IH]; intros Hok newContents w.
  - exists w. simpl. by rewrite app_nil_r.
  - destruct Hok as (Hp & Hlast & Hok). specialize (IH Hok).
    destruct p as [line|sline body eline|eline|sline rest].
    + change (lines_of (Plain line :: ps)) with (line :: lines_of ps).
      cbn [regenerated]. rewrite replaceLines_plain by exact Hp.
      specialize (IH (newContents ++ [line]) w).
      destruct (regenerated E w ps) as [out|].
      * destruct IH as (w' & ->). exists w'. by rewrite <- app_assoc.
      * exact IH.
    + destruct Hp as (Hs & Hbody & He).
      change (lines_of (Marked sline body eline :: ps))
        with (sline :: (body ++ [eline]) ++ lines_of ps).
      change (regenerated E w (Marked sline body eline :: ps))
        with (regenerated E w (Stray eline :: ps)).
      rewrite replaceLines_start by done.
      rewrite <- app_assoc. rewrite replaceLines_drop by done. cbn [app].
      by apply Hend.
    + change (lines_of (Stray eline :: ps)) with (eline :: lines_of ps).
      by apply Hend.
    + destruct Hp as (Hs & Hrest). subst ps.
      change (lines_of [Unclosed sline rest]) with (sline :: rest ++ []).
      cbn [regenerated]. rewrite replaceLines_start by done.
      rewrite replaceLines_drop by done.
      exists w. simpl. by rewrite app_nil_r.
Qed.

Lemma regenerated_plain_lines (E : env) (ps : list part) :
  forall w out, regenerated E w ps = Some out -> plain_lines ps `sublist_of` out.
Proof.
  induction ps as [|p ps IH]; intros w out.
  - intros [= <-]. constructor.
  - destruct p as [line|sline body eline|eline|sline rest];
      cbn [regenerated plain_lines flat_map app]; fold (plain_lines ps).
    + destruct (regenerated E w ps) as [out'|] eqn:Hout; [|done]. intros [= <-].
      apply sublist_skip. by eapply IH.
    + destruct (sectionLines E w (sectionNameOf eline)) as [added|]; [|done].
      destruct (regenerated E _ ps) as [out'|] eqn:Hout; [|done]. intros [= <-].
      apply sublist_inserts_l. by eapply IH.
    + destruct (sectionLines E w (sectionNameOf eline)) as [added|]; [|done].
      destruct (regenerated E _ ps) as [out'|] eqn:Hout; [|done]. intros [= <-].
      apply sublist_inserts_l. by eapply IH.
    + apply IH.
Qed.

Lemma regenerated_plain (E : env) (w : world) (contents : list str) :
  regenerated E w (map Plain contents) = Some contents /\
  lines_of (map Plain contents) = contents /\
  (Forall (fun l => is_plain l = true) contents -> parts_ok (map Plain contents)).
Proof.
  induction contents as [|l contents (IH1 & IH2 & IH3)]; [done |].
  change (lines_of (map Plain (l :: contents)))
    with (l :: lines_of (map Plain contents)).
  cbn [map regenerated]. rewrite IH1, IH2. split; [done |]. split; [done |].
  intros [Hl Hall]%Forall_cons. simpl. auto.
Qed.

(** C7 (amended).  Every document is made of parts: plain lines, sections
    (a start-marker line, the lines up to the next end-marker line, that
    line), end-marker lines that no start-marker line opens and, at the end
    only, a start-marker line that no end-marker line follows, with the
    lines after it.  [replaceSections] returns exactly when every section
    named is the time stamp or a module of the registry, and the document it
    then writes is, part by part and in order: a plain line as it is; for a
    section, and for a lone end-marker line, the generated lines of the
    section; nothing for the start-marker line that is not closed and the
    lines after it.  So the plain lines outside the parts that markers open
    or close are in the new document, unchanged and in their order, and a
    document without markers is written back as it is.  When a section is
    not known the files are left as they were. *)
Theorem C7_frame (E : env) (fileName data : str) (w : world) :
  fs w !! fileName = Some data ->
  (exists ps, parts_ok ps /\ readlines data = lines_of ps) /\
  (forall ps, parts_ok ps -> readlines data = lines_of ps ->
     (forall out, regenerated E w ps = Some out ->
        exists w', replaceSections E fileName w = (Return tt, w') /\
                   fs w' = <[fileName := concat out]> (fs w) /\
                   plain_lines ps `sublist_of` out) /\
     (forall w', replaceSections E fileName w = (Return tt, w') ->
        exists out, regenerated E w ps = Some out /\
                    fs w' = <[fileName := concat out]> (fs w)) /\
     (regenerated E w ps = None ->
        exists e w', replaceSections E fileName w = (Raise e, w') /\ fs w' = fs w)) /\
  (Forall (fun l => is_plain l = true) (readlines data) ->
     exists w', replaceSections E fileName w = (Return tt, w') /\
                fs w' = <[fileName := data]> (fs w)).
Proof.
  intros Hdata.
  assert (Hparts : forall ps, parts_ok ps -> readlines data = lines_of ps ->
            match regenerated E w ps with
            | Some out =>
                exists w', replaceSections E fileName w = (Return tt, w') /\
                           fs w' = <[fileName := concat out]> (fs w)
            | None =>
                exists e w', replaceSections E fileName w = (Raise e, w') /\ fs w' = fs w
            end).
  { intros ps Hok Hlines. rewrite (replaceSections_run E _ _ _ Hdata), Hlines.
    pose proof (replaceLines_parts E ps Hok [] w) as Hloop.
    pose proof (replaceLines_world E (lines_of ps) [] false w) as (Hfs & _).
    destruct (regenerated E w ps) as [out|].
    - destruct Hloop as (w1 & Hloop). rewrite Hloop in *. cbn [snd app] in *.
      eexists. split; [reflexivity |]. simpl. by rewrite Hfs.
    - destruct Hloop as (e & w1 & Hloop). rewrite Hloop in *. cbn [snd] in *.
      by exists e, w1. }
  split; [|split].
  - destruct (parts_exist (readlines data)) as [(ps & Hok & Hlines) _]. by exists ps.
  - intros ps Hok Hlines. specialize (Hparts ps Hok Hlines). split; [|split].
    + intros out Hout. rewrite Hout in Hparts. destruct Hparts as (w' & Hrun & Hfs).
      exists w'. split; [done |]. split; [done |].
      by apply (regenerated_plain_lines E ps w).
    + intros w' Hrun. destruct (regenerated E w ps) as [out|].
      * destruct Hparts as (w'' & Hrun' & Hfs). exists out. split; [done |].
        rewrite Hrun in Hrun'. by injection Hrun' as <-.
      * destruct Hparts as (e & w'' & Hrun' & _). by rewrite Hrun in Hrun'.
    + intros Hnone. by rewrite Hnone in Hparts.
  - intros Hplain.
    destruct (regenerated_plain E w (readlines data)) as (Hout & Hlines & Hok).
    specialize (Hparts _ (Hok Hplain) (eq_sym Hlines)). rewrite Hout in Hparts.
    by rewrite concat_readlines in Hparts.
Qed.

Lemma replaceLines_unknown (E : env) (contents newContents : list str)
    (ignoreLine : bool) (w : world) (line : str) :
  line ∈ contents -> is_end line = true ->
  unknown_section w (sectionNameOf line) ->
  exists key w',
    replaceLines E contents newContents ignoreLine w = (Raise (KeyError key), w') /\
    unknown_section w key /\
    fs w' = fs w /\ stdout w' = stdout w /\ MODULES w' = MODULES w.
Proof.
  intros Hin He Hun. revert newContents ignoreLine w Hun.
  induction contents as [|l rest IH]; intros newContents ignoreLine w Hun.
  - by apply elem_of_nil in Hin.
  - assert (Hrest : l <> line -> line ∈ rest).
    { intros Hne. apply elem_of_cons in Hin as [->|Hin]; done. }
    destruct (line_kind l) as [Hk|[Hk|Hk]].
    + rewrite replaceLines_start by done. apply IH; [|done].
      apply Hrest. intros ->. apply is_start_not_end in Hk. congruence.
    + rewrite replaceLines_end by done. unfold mbind, M_bind.
      rewrite insertSection_sectionLines.
      destruct (sectionLines E w (sectionNameOf l)) as [added|] eqn:Hsec.
      * assert (Hne : l <> line).
        { intros ->. destruct Hun as [Hts Hnone]. unfold sectionLines in Hsec.
          apply str_eqb_neq in Hts. rewrite Hts, Hnone in Hsec. done. }
        destruct (sectionNameOf l =s? "timestamp").
        -- destruct (IH (Hrest Hne) (newContents ++ added) false (ticked w) Hun)
             as (key & w' & Hrun & Hkey & H1 & H2 & H3).
           by exists key, w'.
        -- by apply IH; [apply Hrest |].
      * exists (sectionNameOf l), w. split; [done |]. split; [|done].
        unfold sectionLines in Hsec.
        destruct (sectionNameOf l =s? "timestamp") eqn:Hts; [done |].
        apply str_eqb_neq in Hts. split; [done |].
        by destruct (MODULES w !! sectionNameOf l).
    + rewrite replaceLines_plain by done. apply IH; [|done].
      apply Hrest. intros ->. apply is_plain_not_end in Hk. congruence.
Qed.

(** C10 (amended).  When a document holds an end-marker line (a line with
    the end marker and without the start marker) whose identifier is
    neither the time stamp nor a module of the registry, [replaceSections]
    raises [KeyError] for such an identifier while it builds the section,
    before anything is written: the files, among them the document, are
    what they were, nothing is printed, and whatever would follow in the
    run is not executed. *)
Theorem C10_unknown_section (E : env) (fileName data : str) (w : world)
    (line : str) :
  fs w !! fileName = Some data ->
  line ∈ readlines data ->
  is_end line = true ->
  unknown_section w (sectionNameOf line) ->
  exists key w',
    replaceSections E fileName w = (Raise (KeyError key), w') /\
    unknown_section w key /\
    fs w' = fs w /\ stdout w' = stdout w /\ MODULES w' = MODULES w /\
    forall next : M unit,
      (replaceSections E fileName ;; next) w = (Raise (KeyError key), w').
Proof.
  intros Hdata Hin He Hun.
  destruct (replaceLines_unknown E (readlines data) [] false w line Hin He Hun)
    as (key & w' & Hrun & Hkey & H1 & H2 & H3).
  exists key, w'.
  assert (Hraise : replaceSections E fileName w = (Raise (KeyError key), w')).
  { rewrite (replaceSections_run E _ _ _ Hdata). by rewrite Hrun. }
  repeat (split; [done |]). intros next. by apply bind_Raise.
Qed.

Lemma C7_witness :
  exists w',
    replaceSections ticking_env SUMMARYFILE lcd_world = (Return tt, w') /\
    fs w' =
      <[SUMMARYFILE :=
          concat ["# Summary\n";
                  "   * [Lcd Functions](lcd/lcd_functions.md) [//]: <> (LUADOC-BEGIN:lcd)\n";
                  "      * [lcd.clear()](lcd/clear.md) [//]: <> (LUADOC-END:lcd)\n";
                  "[//]: <> (LUADOC-BEGIN:timestamp)\n";
                  "<div class=\x22footer\x22>last updated on 2016/01/01 00:00:00 UTC</div>\n";
                  "[//]: <> (LUADOC-END:timestamp)\n";
                  "bye\n"]]> (fs lcd_world) /\
    ["# Summary\n"; "bye\n"] `sublist_of`
      ["# Summary\n";
       "   * [Lcd Functions](lcd/lcd_functions.md) [//]: <> (LUADOC-BEGIN:lcd)\n";
       "      * [lcd.clear()](lcd/clear.md) [//]: <> (LUADOC-END:lcd)\n";
       "[//]: <> (LUADOC-BEGIN:timestamp)\n";
       "<div class=\x22footer\x22>last updated on 2016/01/01 00:00:00 UTC</div>\n";
       "[//]: <> (LUADOC-END:timestamp)\n";
       "bye\n"].
Proof.
  destruct (C7_frame ticking_env SUMMARYFILE lcd_summary lcd_world eq_refl)
    as (_ & Hparts & _).
  destruct (Hparts
              [Plain "# Summary\n";
               Marked "   * [Lcd Functions](lcd/lcd_functions.md) [//]: <> (LUADOC-BEGIN:lcd)\n"
                 [] "      * [old](lcd/old.md) [//]: <> (LUADOC-END:lcd)\n";
               Marked "[//]: <> (LUADOC-BEGIN:timestamp)\n" ["old\n"]
                 "[//]: <> (LUADOC-END:timestamp)\n";
               Plain "bye\n"]) as (Hthen & _).
  - simpl. repeat split; repeat constructor.
  - reflexivity.
  - apply Hthen. vm_compute. reflexivity.
Defined.

(** C7 as stated fails when a start marker is not closed.  This document
    holds no end marker, so no section is delimited in it and all its lines
    lie outside the sections; yet the lines after the start-marker line are
    not in the document that is written back. *)
Lemma C7_counterexample :
  let data := "hello\n[//]: <> (LUADOC-BEGIN:timestamp)\nold\nbye\n" in
  let w := World {[ READMEFILE := data ]} [] ∅ 0 in
  readlines data =
    ["hello\n"; "[//]: <> (LUADOC-BEGIN:timestamp)\n"; "old\n"; "bye\n"] /\
  forallb (fun l => negb (contains ENDMARKER l)) (readlines data) = true /\
  fst (replaceSections offline READMEFILE w) = Return tt /\
  fs (snd (replaceSections offline READMEFILE w)) !! READMEFILE = Some "hello\n".
Proof. repeat split. Qed.

Lemma C10_witness :
  let data := "# Summary\n   * [Lcd Functions](lcd/lcd_functions.md) [//]: <> (LUADOC-BEGIN:lcd)\n      * [old](lcd/old.md) [//]: <> (LUADOC-END:lcd)\n" in
  let w := World {[ SUMMARYFILE := data ]} [] ∅ 0 in
  exists key w',
    replaceSections offline SUMMARYFILE w = (Raise (KeyError key), w') /\
    fs w' = fs w.
Proof.
  intros data w.
  destruct (C10_unknown_section offline SUMMARYFILE data w
              "      * [old](lcd/old.md) [//]: <> (LUADOC-END:lcd)\n")
    as (key & w' & Hrun & _ & Hfs & _).
  - reflexivity.
  - vm_compute. apply elem_of_cons. right. apply elem_of_cons. right.
    apply elem_of_cons. by left.
  - reflexivity.
  - split; [vm_compute; discriminate | reflexivity].
  - exists key, w'. split; [exact Hrun | exact Hfs].
Defined.

(** C10 as stated fails on a section that opens and closes on one line.
    A line that holds both markers is read as a start-marker line: its
    identifier is not looked up, nothing is raised, and, no end-marker line
    coming after it, the document is written back without that line and
    the lines that follow it. *)
Lemma C10_counterexample :
  let data := "a\n[//]: <> (LUADOC-BEGIN:foo) [//]: <> (LUADOC-END:foo)\nb\n" in
  let w := World {[ SUMMARYFILE := data ]} [] ∅ 0 in
  unknown_section w "foo" /\
  readlines data =
    ["a\n"; "[//]: <> (LUADOC-BEGIN:foo) [//]: <> (LUADOC-END:foo)\n"; "b\n"] /\
  fst (replaceSections offline SUMMARYFILE w) = Return tt /\
  fs (snd (replaceSections offline SUMMARYFILE w)) !! SUMMARYFILE = Some "a\n".
Proof. repeat split. vm_compute. discriminate. Qed.



(** ** Function Doc Renderer: the examples *)

(** C8 (the code misses a case).  The comments of [byExtension_key] and
    [addExamples] promise notes, code, image within one base name, and
    [addExamples_order] below shows that it is so when the base name holds
    no dot.  It fails on a function whose name holds a dot (one declared with two
    dots, which [parseFunction] files under "general" with the whole dotted
    name): [x.split(".")] then takes the text between the first two dots
    for the extension, the three keys are equal, and the file [open]ed is
    not an example file at all: the page is not rendered and the run ends
    in [IOError]. *)
Lemma C8_dotted_name :
  MODULES (snd (parseSource dotted_source dotted_world)) =
    {[ ("general" : str) :=
       [Func "general" "a.b.c" "a.b.c()\n\n" "Does it.\n\n" [] [] []] ]} /\
  fst (addExamples local_env "general" "a.b.c" dotted_world) =
    Raise (IOError "general/a.b") /\
  fst (main local_env ["api.cpp"] dotted_world) = Raise (IOError "general/a.b") /\
  fs (snd (main local_env ["api.cpp"] dotted_world)) = fs dotted_world.
Proof. repeat split; vm_compute; reflexivity. Qed.

Lemma split_dot_ext (base ext : str) :
  "."%char ∉ base -> "."%char ∉ ext ->
  split "." (base ++ "." ++ ext) = [base; ext].
Proof.
  intros Hb He.
  assert (Hin : "."%char ∈ base ++ "." ++ ext).
  { apply elem_of_app. right. apply elem_of_cons. by left. }
  assert (Hbefore : before "." (base ++ "." ++ ext) = base).
  { clear Hin. induction base as [|c base IH]; [done |].
    apply not_elem_of_cons in Hb as [Hc Hb]. simpl.
    replace (c =c? ".") with false by (symmetry; by apply ascii_eqb_neq).
    f_equal. by apply IH. }
  assert (Hafter : after "." (base ++ "." ++ ext) = ext).
  { clear Hin Hbefore. induction base as [|c base IH]; [done |].
    apply not_elem_of_cons in Hb as [Hc Hb]. simpl.
    replace (c =c? ".") with false by (symmetry; by apply ascii_eqb_neq).
    by apply IH. }
  rewrite split_char, bool_decide_eq_true_2 by done.
  rewrite Hbefore, Hafter. f_equal.
  by rewrite split_char, bool_decide_eq_false_2.
Qed.

Lemma str_lt_app (b x y : str) : str_lt (b ++ x) (b ++ y) = str_lt x y.
Proof.
  unfold str_lt. induction b as [|c b IH]; [done |]. simpl.
  by rewrite (lt_irrefl _ ascii_lt_strict_total).
Qed.

Lemma ends_line_app (p s : str) : s <> [] -> ends_line (p ++ s) = ends_line s.
Proof.
  intros Hs. unfold ends_line. rewrite last_app.
  destruct (last s) eqn:Hl; [done |]. by apply last_None in Hl.
Qed.

(** Two sorted lists with the same elements are equal. *)
Lemma sorted_unique {A} (R : A -> A -> Prop) (l1 l2 : list A) :
  (forall x y, x ∈ l1 -> y ∈ l1 -> R x y -> R y x -> x = y) ->
  StronglySorted R l1 -> StronglySorted R l2 -> Permutation l1 l2 -> l1 = l2.
Proof.
  intros Hanti H1. revert l2. induction H1 as [|x l1 H1 IH Hx]; intros l2 H2 Hp.
  - by apply Permutation_nil in Hp.
  - destruct H2 as [|y l2 H2 Hy].
    { symmetry in Hp. by apply Permutation_nil_cons in Hp. }
    assert (x = y) as ->.
    { assert (Hxin : x ∈ y :: l2) by (rewrite <- Hp; apply elem_of_cons; by left).
      assert (Hyin : y ∈ x :: l1) by (rewrite Hp; apply elem_of_cons; by left).
      rewrite Forall_forall in Hx, Hy.
      destruct (proj1 (elem_of_cons _ _ _) Hxin) as [|Hxin']; [done |].
      destruct (proj1 (elem_of_cons _ _ _) Hyin) as [|Hyin']; [done |].
      apply Hanti; [apply elem_of_cons; by left | apply elem_of_cons; by right
                   | by apply Hx | by apply Hy]. }
    f_equal. apply IH; [| done | by apply Permutation_cons_inv in Hp].
    intros a b Ha Hb. apply Hanti; apply elem_of_cons; by right.
Qed.

Lemma sorted_permutation {A K} (lt : K -> K -> bool) (key : A -> K) (l1 l2 : list A) :
  strict_total lt ->
  (forall x y, x ∈ l1 -> y ∈ l1 -> key x = key y -> x = y) ->
  Permutation l1 l2 -> sorted lt key l1 = sorted lt key l2.
Proof.
  intros Hlt Hinj Hp.
  apply (sorted_unique (key_le lt key)).
  - intros x y Hx Hy Hxy Hyx. rewrite sorted_perm in Hx, Hy.
    apply Hinj; [done | done |]. by apply (lt_total lt Hlt).
  - by apply sorted_sorted.
  - by apply sorted_sorted.
  - by rewrite !sorted_perm.
Qed.

Lemma decorate_keys (examples : list (list str)) (w : world) :
  Forall (fun x => 2 <= length x) examples ->
  decorate byExtension_key examples w =
    (Return (map (fun x => (extension_key x, x)) examples), w).
Proof.
  induction 1 as [|x examples Hx _ IH]; [done |].
  destruct x as [|e0 [|e1 x]]; simpl in Hx; [lia | lia |].
  cbn [decorate map].
  erewrite bind_Return by reflexivity.
  erewrite bind_Return by exact IH. done.
Qed.

Lemma ends_line_cons (c c' : ascii) (s : str) :
  ends_line (c :: c' :: s) = ends_line (c' :: s).
Proof. done. Qed.

Ltac nonempty :=
  let H := fresh in
  intros H; apply (f_equal length) in H; rewrite ?length_app in H; simpl in H; lia.

Lemma addExample_run (doc e0 e1 contents : str) (rest : list str) (w : world) :
  fs w !! (e0 ++ "." ++ e1) = Some contents ->
  exists doc',
    addExample doc (e0 :: e1 :: rest) w =
      (Return doc', printed w ["Info: Adding contents of example " ++ e0 ++ "." ++ e1]) /\
    (e1 = "md" -> doc' = doc ++ notesPart contents) /\
    (e1 = "lua" -> doc' = doc ++ codePart (e0 ++ "." ++ e1) e0 contents) /\
    (e1 = "png" -> doc' = doc ++ imagePart (e0 ++ "." ++ e1)).
Proof.
  intros Hfile. eexists. split.
  - unfold addExample. cbn [first_item tl].
    erewrite bind_Return by reflexivity.
    erewrite bind_Return by reflexivity.
    erewrite bind_Return by apply logInfo_run.
    erewrite bind_Return by (apply read_file_run; exact Hfile).
    reflexivity.
  - split; [|split]; intros ->.
    + done.
    + replace ("lua" =s? "md") with false by done.
      replace ("lua" =s? "lua") with true by done.
      replace ("lua" =s? "png") with false by done.
      cbv zeta. unfold codePart.
      rewrite <- !app_assoc. repeat (rewrite ends_line_app by nonempty).
      cbn [app]. rewrite !ends_line_cons.
      destruct (ends_line (_ :: contents));
        repeat (progress (rewrite <- ?app_assoc; cbn [app])); reflexivity.
    + done.
Qed.

(** For a function whose example files are the three files of one base
    name without a dot, the notes come first, then the code, then the
    image, in whatever order the files were found. *)
Lemma addExamples_order (E : env) (moduleName funcName md lua : str) (w : world) :
  let base := moduleName ++ "/" ++ funcName ++ "-example" in
  "."%char ∉ base ->
  Permutation (glob E (fs w) (moduleName ++ "/" ++ funcName ++ "-example*.*"))
    [base ++ ".png"; base ++ ".lua"; base ++ ".md"] ->
  fs w !! (base ++ ".md") = Some md ->
  fs w !! (base ++ ".lua") = Some lua ->
  is_Some (fs w !! (base ++ ".png")) ->
  fst (addExamples E moduleName funcName w) =
    Return ("\n\n---\n\n### Examples\n\n" ++ notesPart md ++
            codePart (base ++ ".lua") base lua ++ imagePart (base ++ ".png")).
Proof.
  intros base Hbase Hfound Hmd Hlua [png Hpng].
  unfold addExamples. cbv zeta.
  erewrite bind_Return by reflexivity.
  set (found := glob E (fs w) _) in *.
  rewrite bool_decide_eq_true_2
    by (rewrite (Permutation_length Hfound); simpl; lia).
  set (canon := [[base; "png"]; [base; "lua"]; [base; "md"]] : list (list str)).
  assert (Hexamples : Permutation (map (split ".") found) canon).
  { rewrite Hfound. unfold canon. cbn [map].
    change (base ++ ".png") with (base ++ "." ++ "png").
    change (base ++ ".lua") with (base ++ "." ++ "lua").
    change (base ++ ".md") with (base ++ "." ++ "md").
    rewrite !split_dot_ext; [done | done | | done | | done |];
      intros H; repeat (apply elem_of_cons in H as [H|H]; [done |]);
      by apply elem_of_nil in H. }
  assert (Hlen : Forall (fun x : list str => 2 <= length x) (map (split ".") found)).
  { rewrite Hexamples. unfold canon. repeat constructor. }
  unfold sorted_by_key.
  erewrite bind_Return; cycle 1.
  { erewrite bind_Return by (by apply decorate_keys). reflexivity. }
  assert (Hsorted :
    sorted str_lt fst (map (fun x => (extension_key x, x)) (map (split ".") found)) =
    [(base ++ ".0", [base; "md"]); (base ++ ".1", [base; "lua"]);
     (base ++ ".2", [base; "png"])]).
  { rewrite <- (sorted_permutation str_lt fst
                  (map (fun x => (extension_key x, x)) canon)).
    - unfold canon. cbn [map].
      change (extension_key [base; "png"]) with (base ++ ".2").
      change (extension_key [base; "lua"]) with (base ++ ".1").
      change (extension_key [base; "md"]) with (base ++ ".0").
      cbn [sorted insert_sorted fst]. rewrite !str_lt_app.
      change (str_lt ".0" ".1") with true. cbn [insert_sorted fst].
      rewrite !str_lt_app. reflexivity.
    - apply str_lt_strict_total.
    - unfold canon. cbn [map]. intros x y Hx Hy Hk.
      repeat (apply elem_of_cons in Hx as [->|Hx]);
        try (by apply elem_of_nil in Hx);
        repeat (apply elem_of_cons in Hy as [->|Hy]);
        try (by apply elem_of_nil in Hy);
        try done; cbn in Hk; by apply app_inv_head in Hk.
    - by rewrite Hexamples. }
  rewrite Hsorted. cbn [map snd addExampleList app].
  destruct (addExample_run "\n\n---\n\n### Examples\n\n" base "md" md [] w Hmd)
    as (d1 & Hrun1 & Hd1 & _).
  erewrite bind_Return by exact Hrun1. rewrite (Hd1 eq_refl).
  destruct (addExample_run ("\n\n---\n\n### Examples\n\n" ++ notesPart md) base "lua" lua []
              (printed w ["Info: Adding contents of example " ++ base ++ "." ++ "md"]) Hlua)
    as (d2 & Hrun2 & _ & Hd2 & _).
  erewrite bind_Return by exact Hrun2. rewrite (Hd2 eq_refl).
  destruct (addExample_run
              (("\n\n---\n\n### Examples\n\n" ++ notesPart md) ++
               codePart (base ++ "." ++ "lua") base lua) base "png" png []
              (printed (printed w ["Info: Adding contents of example " ++ base ++ "." ++ "md"])
                 ["Info: Adding contents of example " ++ base ++ "." ++ "lua"]) Hpng)
    as (d3 & Hrun3 & _ & _ & Hd3).
  erewrite bind_Return by exact Hrun3. rewrite (Hd3 eq_refl).
  cbn [fst]. by rewrite <- !app_assoc.
Qed.



(** ** Index Updater: running it again *)

Lemma readlines_not_nil (c : ascii) (s : str) : readlines (c :: s) <> [].
Proof. simpl. destruct (c =c? LF); [done |]. by destruct (readlines s). Qed.

Lemma readlines_app_terminated (x y : str) :
  readlines ((x ++ [LF]) ++ y) = readlines (x ++ [LF]) ++ readlines y.
Proof.
  induction x as [|c x IH]; [done |].
  cbn [app readlines]. destruct (c =c? LF).
  - by rewrite IH.
  - rewrite IH. destruct (readlines (x ++ [LF])) as [|l ls] eqn:Hl; [|done].
    destruct x; by apply readlines_not_nil in Hl.
Qed.

Lemma readlines_unterminated (l : str) : unterminated l -> readlines l = [l].
Proof.
  intros [Hne Hl]. induction l as [|c l IH]; [done |].
  apply not_elem_of_cons in Hl as [Hc Hl]. cbn [readlines].
  replace (c =c? LF) with false by (symmetry; by apply ascii_eqb_neq).
  destruct l as [|c' l]; [done |]. by rewrite IH.
Qed.

Lemma readlines_terminated (l : str) : terminated l -> readlines l = [l].
Proof.
  intros (body & -> & Hl). induction body as [|c body IH]; [done |].
  apply not_elem_of_cons in Hl as [Hc Hl]. cbn [app readlines].
  replace (c =c? LF) with false by (symmetry; by apply ascii_eqb_neq).
  by rewrite (IH Hl).
Qed.

Lemma terminated_cons (c : ascii) (l : str) :
  c <> LF -> terminated l -> terminated (c :: l).
Proof.
  intros Hc (body & -> & Hl). exists (c :: body). split; [done |].
  apply not_elem_of_cons. split; [congruence | done].
Qed.

Lemma unterminated_cons (c : ascii) (l : str) :
  c <> LF -> unterminated l -> unterminated (c :: l).
Proof.
  intros Hc [_ Hl]. split; [done |].
  apply not_elem_of_cons. split; [congruence | done].
Qed.

Lemma readlines_lined (s : str) : lined (readlines s).
Proof.
  induction s as [|c s IH]; [done |]. cbn [readlines].
  revert IH. destruct (readlines s) as [|l ls]; intros IH.
  - destruct (c =c? LF) eqn:Hc.
    + apply ascii_eqb_eq in Hc. subst c. left. exists [].
      split; [done | apply not_elem_of_nil].
    + apply ascii_eqb_neq in Hc. right. split; [done |].
      apply not_elem_of_cons. split; [congruence | apply not_elem_of_nil].
  - destruct (c =c? LF) eqn:Hc.
    + apply ascii_eqb_eq in Hc. subst c. split; [|done]. exists [].
      split; [done | apply not_elem_of_nil].
    + apply ascii_eqb_neq in Hc. cbn [lined] in *. destruct ls as [|l' ls].
      * destruct IH as [Ht|Hu]; [left; by apply terminated_cons
                                | right; by apply unterminated_cons].
      * destruct IH as [Ht Hl]. split; [by apply terminated_cons | done].
Qed.

Lemma lined_inv (line : str) (rest : list str) :
  lined (line :: rest) ->
  lined rest /\ (terminated line \/ (unterminated line /\ rest = [])).
Proof.
  cbn [lined]. destruct rest as [|l rest].
  - intros [Ht|Hu]; (split; [done |]); [by left | by right].
  - intros [Ht Hl]. split; [done | by left].
Qed.

(** A generated section ends its last line. *)
Lemma sectionLines_terminated (E : env) (w : world) (sectionName : str)
    (added : list str) :
  sectionLines E w sectionName = Some added ->
  exists x, concat added = x ++ [LF].
Proof.
  unfold sectionLines. destruct (sectionName =s? "timestamp").
  - intros [= <-]. rewrite !concat_cons, concat_nil, app_nil_r.
    exists ((STARTMARKER ++ sectionName ++ ")\n") ++ timestampLine (utcnow E (clock w)) ++
            ENDMARKER ++ sectionName ++ ")").
    unfold STARTMARKER, ENDMARKER.
    repeat (progress (rewrite <- ?app_assoc; cbn [app])); reflexivity.
  - destruct (MODULES w !! sectionName) as [fns|]; [|done]. simpl.
    intros [= <-]. rewrite concat_app, concat_cons, concat_nil, app_nil_r.
    eexists (concat _ ++ rstrip_ws _ ++ " " ++ ENDMARKER ++ sectionName ++ ")").
    unfold ENDMARKER.
    repeat (progress (rewrite <- ?app_assoc; cbn [app])); reflexivity.
Qed.

Lemma readlines_section (E : env) (w : world) (sectionName : str)
    (added tail : list str) :
  sectionLines E w sectionName = Some added ->
  readlines (concat (added ++ tail)) =
    readlines (concat added) ++ readlines (concat tail).
Proof.
  intros [x Hx]%sectionLines_terminated.
  by rewrite concat_app, Hx, readlines_app_terminated.
Qed.

(** The time-stamp line holds no newline but its last character, and no
    end marker. *)
Lemma digit_plain (n : nat) : digit n <> LF /\ digit n <> "["%char.
Proof.
  unfold digit. pose proof (Nat.mod_upper_bound n 10 ltac:(lia)) as Hk.
  destruct (n mod 10) as [|[|[|[|[|[|[|[|[|[|k]]]]]]]]]]; try lia;
    split; discriminate.
Qed.

Ltac plain_literal :=
  repeat (apply List.Forall_cons; [unfold LF; split; discriminate |]);
  apply List.Forall_nil.

Lemma two_digits_plain (n : nat) :
  Forall (fun c => c <> LF /\ c <> "["%char) (two_digits n).
Proof.
  unfold two_digits. repeat (apply List.Forall_cons; [apply digit_plain |]).
  apply List.Forall_nil.
Qed.

Lemma four_digits_plain (n : nat) :
  Forall (fun c => c <> LF /\ c <> "["%char) (four_digits n).
Proof.
  unfold four_digits. generalize (n / 1000), (n / 100), (n / 10). intros a b c.
  repeat (apply List.Forall_cons; [apply digit_plain |]).
  apply List.Forall_nil.
Qed.

Lemma strftime_plain (t : datetime) :
  Forall (fun c => c <> LF /\ c <> "["%char) (strftime t).
Proof.
  unfold strftime.
  apply Forall_app; split; [apply four_digits_plain |].
  do 5 (apply Forall_app; split; [plain_literal |];
        apply Forall_app; split; [apply two_digits_plain |]).
  plain_literal.
Qed.

Lemma timestampLine_plain (t : datetime) :
  exists body, timestampLine t = body ++ [LF] /\
    Forall (fun c => c <> LF /\ c <> "["%char) body.
Proof.
  exists ("<div class=\x22footer\x22>last updated on " ++ strftime t ++ "</div>").
  split.
  - unfold timestampLine. rewrite <- !app_assoc. reflexivity.
  - apply Forall_app. split; [plain_literal |].
    apply Forall_app. split; [apply strftime_plain | plain_literal].
Qed.

Lemma find_absent_char (c : ascii) (sub s : str) : c ∉ s -> find (c :: sub) s = None.
Proof.
  induction s as [|x s IH]; intros Hc; [done |].
  apply not_elem_of_cons in Hc as [Hx Hc]. cbn [find startswith].
  replace (c =c? x) with false by (symmetry; by apply ascii_eqb_neq).
  cbn [andb]. by rewrite IH.
Qed.

Lemma timestampLine_terminated (t : datetime) : terminated (timestampLine t).
Proof.
  destruct (timestampLine_plain t) as (body & Hb & Hall).
  exists body. split; [done |]. intros Hin.
  rewrite Forall_forall in Hall. by destruct (Hall _ Hin).
Qed.

Lemma timestampLine_not_end (t : datetime) : is_end (timestampLine t) = false.
Proof.
  destruct (timestampLine_plain t) as (body & Hb & Hall).
  unfold is_end, contains. rewrite (bool_decide_eq_false_2 (is_Some (find ENDMARKER _))).
  - apply andb_false_r.
  - unfold ENDMARKER. rewrite find_absent_char; [by intros [? ?] |].
    rewrite Hb. intros [Hin|Hin]%elem_of_app.
    + rewrite Forall_forall in Hall. by destruct (Hall _ Hin) as [_ ?].
    + apply elem_of_cons in Hin as [?|Hin]; [done | by apply elem_of_nil in Hin].
Qed.

Lemma timestamp_reads_back (t : datetime) :
  reads_back "timestamp"
    [STARTMARKER ++ "timestamp" ++ ")\n"; timestampLine t;
     ENDMARKER ++ "timestamp" ++ ")\n"].
Proof.
  exists (STARTMARKER ++ "timestamp" ++ ")\n"), [timestampLine t],
         (ENDMARKER ++ "timestamp" ++ ")\n").
  split; [|split; [done | split; [|split; [done | done]]]].
  - rewrite !concat_cons, concat_nil, app_nil_r.
    change (STARTMARKER ++ "timestamp" ++ ")\n")
      with ((STARTMARKER ++ "timestamp" ++ ")") ++ [LF]).
    rewrite readlines_app_terminated.
    destruct (timestampLine_terminated t) as (body & Hb & Hl). rewrite Hb.
    rewrite readlines_app_terminated.
    rewrite (readlines_terminated (body ++ [LF])) by (by exists body).
    reflexivity.
  - constructor; [apply timestampLine_not_end | constructor].
Qed.

Lemma same_or_stamp_refl (E : env) (l : list str) : Forall2 (same_or_stamp E) l l.
Proof. induction l; constructor; [by left | done]. Qed.

Lemma sectionLines_same_registry (E : env) (wa wb : world) (sectionName : str)
    (added : list str) :
  same_registry wa wb ->
  sectionLines E wa sectionName = Some added ->
  exists added',
    sectionLines E wb sectionName = Some added' /\
    Forall2 (same_or_stamp E) added added' /\
    (sectionName <> "timestamp" -> added' = added).
Proof.
  intros [Hm Ho]. unfold sectionLines.
  destruct (sectionName =s? "timestamp") eqn:Hts.
  - intros [= <-]. eexists. split; [reflexivity |]. split.
    + constructor; [by left |]. constructor; [right; by eexists _, _ |].
      constructor; [by left | constructor].
    + apply str_eqb_eq in Hts. done.
  - rewrite <- Hm. destruct (MODULES wa !! sectionName) as [fns|]; [|done].
    simpl. intros [= <-]. unfold moduleEntries. rewrite <- Ho.
    eexists. split; [reflexivity |]. split; [apply same_or_stamp_refl | done].
Qed.

Lemma same_registry_step (wa wb : world) (sectionName : str) :
  same_registry wa wb ->
  same_registry (if sectionName =s? "timestamp" then ticked wa else wa)
                (if sectionName =s? "timestamp" then ticked wb else wb).
Proof. by destruct (sectionName =s? "timestamp"). Qed.

Lemma registry_reads_back_step (E : env) (w : world) (sectionName : str) :
  registry_reads_back E w ->
  registry_reads_back E (if sectionName =s? "timestamp" then ticked w else w).
Proof.
  intros H. destruct (sectionName =s? "timestamp"); [|done].
  intros s added Hts Hsec. apply H; [done |].
  unfold sectionLines in *. apply str_eqb_neq in Hts. by rewrite Hts in *.
Qed.

Lemma sectionLines_reads_back (E : env) (w : world) (sectionName : str)
    (added : list str) :
  registry_reads_back E w ->
  sectionLines E w sectionName = Some added ->
  reads_back sectionName added.
Proof.
  intros Hreg Hsec. destruct (decide (sectionName = "timestamp")) as [->|Hts].
  - injection Hsec as <-. apply timestamp_reads_back.
  - by apply Hreg.
Qed.

(** A section that reads back is replaced as a whole when read again. *)
Lemma replaceLines_reads_back (E : env) (sectionName : str) (added rest : list str)
    (newContents : list str) :
  reads_back sectionName added ->
  replaceLines E (readlines (concat added) ++ rest) newContents false =
    (newContents ← insertSection E newContents sectionName;
     replaceLines E rest newContents false).
Proof.
  intros (sline & body & eline & -> & Hs & Hbody & He & <-).
  cbn [app]. rewrite replaceLines_start by done.
  rewrite <- app_assoc. rewrite replaceLines_drop by done.
  cbn [app]. by rewrite replaceLines_end.
Qed.

(** What a run wrote is read back the same way by the next run: the copied
    lines are copied again and every section is regenerated in its place. *)
Lemma replaceLines_again (E : env) (contents : list str) :
  lined contents ->
  forall newContents ignoreLine wa out wa',
    registry_reads_back E wa ->
    replaceLines E contents newContents ignoreLine wa = (Return out, wa') ->
    exists tail,
      out = newContents ++ tail /\
      forall newContents' wb,
        same_registry wa wb ->
        exists tail' wb',
          replaceLines E (readlines (concat tail)) newContents' false wb =
            (Return (newContents' ++ tail'), wb') /\
          Forall2 (same_or_stamp E) tail tail'.
Proof.
  induction contents as [|line rest IH];
    intros Hl newContents ignoreLine wa out wa' Hreg Hrun.
  - simpl in Hrun. injection Hrun as <- _. exists []. split; [by rewrite app_nil_r |].
    intros nc2 wb _. exists [], wb. simpl. rewrite app_nil_r. split; [done | constructor].
  - destruct (lined_inv _ _ Hl) as [Hlr Hline].
    destruct (line_kind line) as [Hk|[Hk|Hk]].
    + rewrite replaceLines_start in Hrun by done.
      by apply (IH Hlr _ _ _ _ _ Hreg Hrun).
    + rewrite replaceLines_end in Hrun by done.
      unfold mbind, M_bind in Hrun. rewrite insertSection_sectionLines in Hrun.
      destruct (sectionLines E wa (sectionNameOf line)) as [added|] eqn:Hsec; [|done].
      destruct (IH Hlr _ _ _ _ _
                  (registry_reads_back_step E wa (sectionNameOf line) Hreg) Hrun)
        as (tail & Hout & Hre).
      exists (added ++ tail). split; [by rewrite Hout, app_assoc |].
      intros nc2 wb Hsame.
      rewrite (readlines_section E wa _ added tail Hsec).
      rewrite (replaceLines_reads_back E (sectionNameOf line))
        by (by eapply sectionLines_reads_back).
      unfold mbind, M_bind. rewrite insertSection_sectionLines.
      destruct (sectionLines_same_registry E wa wb _ _ Hsame Hsec)
        as (added' & Hsec' & Hall & _).
      rewrite Hsec'.
      destruct (Hre (nc2 ++ added') _ (same_registry_step wa wb (sectionNameOf line) Hsame))
        as (tail' & wb' & Hrun' & Hall').
      exists (added' ++ tail'), wb'. split.
      * rewrite Hrun'. by rewrite app_assoc.
      * by apply Forall2_app.
    + rewrite replaceLines_plain in Hrun by done. destruct ignoreLine.
      * by apply (IH Hlr _ _ _ _ _ Hreg Hrun).
      * destruct (IH Hlr _ _ _ _ _ Hreg Hrun) as (tail & Hout & Hre).
        exists (line :: tail). split; [by rewrite Hout, <- app_assoc |].
        intros nc2 wb Hsame.
        assert (Hread : readlines (concat (line :: tail)) =
                        line :: readlines (concat tail)).
        { rewrite concat_cons. destruct Hline as [Ht|[Hu ->]].
          - pose proof (readlines_terminated _ Ht) as Hone.
            destruct Ht as (body & -> & Hb).
            by rewrite readlines_app_terminated, Hone.
          - simpl in Hrun. injection Hrun as <- _.
            rewrite <- (app_nil_r (newContents ++ [line])) in Hout at 1.
            apply app_inv_head in Hout. subst tail.
            rewrite concat_nil, app_nil_r. by apply readlines_unterminated. }
        rewrite Hread, replaceLines_plain by done.
        destruct (Hre (nc2 ++ [line]) wb Hsame) as (tail' & wb' & Hrun' & Hall').
        exists (line :: tail'), wb'. split.
        -- rewrite Hrun'. by rewrite <- app_assoc.
        -- constructor; [by left | done].
Qed.

Lemma replaceSections_again (E : env) (fileName data : str) (w w1 wb : world) :
  fs w !! fileName = Some data ->
  registry_reads_back E w ->
  replaceSections E fileName w = (Return tt, w1) ->
  fs wb !! fileName = fs w1 !! fileName ->
  same_registry w wb ->
  exists out1 out2 w2,
    fs w1 !! fileName = Some (concat out1) /\
    replaceSections E fileName wb = (Return tt, w2) /\
    fs w2 !! fileName = Some (concat out2) /\
    Forall2 (same_or_stamp E) out1 out2.
Proof.
  intros Hdata Hreg Hrun Hfsb Hsame.
  rewrite (replaceSections_run E _ _ _ Hdata) in Hrun.
  destruct (replaceLines E (readlines data) [] false w) as [[out|e] wl] eqn:Hloop;
    [|done].
  injection Hrun as <-.
  destruct (replaceLines_again E (readlines data) (readlines_lined data)
              [] false w out wl Hreg Hloop) as (tail & Hout & Hre).
  cbn [app] in Hout. subst tail. simpl in Hfsb.
  assert (Hfile : fs wb !! fileName = Some (concat out)).
  { etransitivity; [exact Hfsb |]. apply lookup_insert_eq. }
  destruct (Hre [] wb Hsame) as (tail' & wl' & Hloop' & Hall).
  cbn [app] in Hloop'.
  exists out, tail'. eexists. split; [simpl; apply lookup_insert_eq |]. split.
  - rewrite (replaceSections_run E _ _ _ Hfile). rewrite Hloop'. reflexivity.
  - split; [|done]. simpl. apply lookup_insert_eq.
Qed.

Lemma same_or_stamp_eq (E : env) (l l' : list str) :
  (forall n n', utcnow E n = utcnow E n') ->
  Forall2 (same_or_stamp E) l l' -> l = l'.
Proof.
  intros Htime. induction 1 as [|a b l l' Hab _ IH]; [done |].
  f_equal; [|done]. destruct Hab as [->|(n & n' & -> & ->)]; [done |].
  by rewrite (Htime n n').
Qed.

(** ** Function Doc Renderer: what a page depends on *)

Lemma byExtension_key_pure (x : list str) :
  exists r, forall w, byExtension_key x w = (r, w).
Proof.
  destruct x as [|e0 [|e1 x]]; eexists; intros w; reflexivity.
Qed.

Lemma decorate_pure (l : list (list str)) :
  exists r, (forall w, decorate byExtension_key l w = (r, w)) /\
            (forall kl, r = Return kl -> map snd kl = l).
Proof.
  induction l as [|x l (r & Hr & Hsnd)].
  - exists (Return []). split; [done |]. by intros kl [= <-].
  - destruct (byExtension_key_pure x) as [[k|e] Hk].
    + destruct r as [kl|e].
      * exists (Return ((k, x) :: kl)). split.
        -- intros w. cbn [decorate].
           erewrite bind_Return by apply Hk. erewrite bind_Return by apply Hr. done.
        -- intros kl' [= <-]. simpl. by rewrite (Hsnd kl).
      * exists (Raise e). split; [|done].
        intros w. cbn [decorate].
        erewrite bind_Return by apply Hk. by erewrite bind_Raise by apply Hr.
    + exists (Raise e). split; [|done].
      intros w. cbn [decorate]. by erewrite bind_Raise by apply Hk.
Qed.

Lemma addExample_unfold (doc e0 e1 : str) (rest : list str) (w : world) :
  addExample doc (e0 :: e1 :: rest) w =
    let w1 := printed w ["Info: Adding contents of example " ++ e0 ++ "." ++ e1] in
    match fs w !! (e0 ++ "." ++ e1) with
    | Some contents => (Return (exampleText doc e0 e1 contents), w1)
    | None => (Raise (IOError (e0 ++ "." ++ e1)), w1)
    end.
Proof.
  unfold addExample. cbn [first_item tl].
  erewrite bind_Return by reflexivity.
  erewrite bind_Return by reflexivity.
  erewrite bind_Return by apply logInfo_run.
  unfold mbind, M_bind, read_file, printed. cbn [fs]. cbv zeta.
  match goal with
  | |- context [match ?x with Some _ => _ | None => _ end] =>
      change x with (fs w !! (e0 ++ "." ++ e1))
  end.
  destruct (fs w !! (e0 ++ "." ++ e1)); reflexivity.
Qed.

Lemma addExampleList_frame (examples : list (list str)) (doc : str) (w w' : world) :
  (forall e0 e1 rest, e0 :: e1 :: rest ∈ examples ->
     fs w !! (e0 ++ "." ++ e1) = fs w' !! (e0 ++ "." ++ e1)) ->
  fst (addExampleList doc examples w) = fst (addExampleList doc examples w').
Proof.
  revert doc w w'. induction examples as [|x examples IH]; intros doc w w' Hfs; [done |].
  cbn [addExampleList].
  destruct x as [|e0 [|e1 x]]; [reflexivity | reflexivity |].
  assert (Hx : fs w !! (e0 ++ "." ++ e1) = fs w' !! (e0 ++ "." ++ e1)).
  { apply (Hfs e0 e1 x). apply elem_of_cons. by left. }
  unfold mbind, M_bind. rewrite !addExample_unfold. cbv zeta. rewrite <- Hx.
  destruct (fs w !! (e0 ++ "." ++ e1)) as [contents|]; [|done].
  apply IH. intros a b rest Hin.
  apply (Hfs a b rest). apply elem_of_cons. by right.
Qed.

Lemma opened_split (path e0 e1 : str) (rest : list str) :
  split "." path = e0 :: e1 :: rest -> opened path = e0 ++ "." ++ e1.
Proof. unfold opened. by intros ->. Qed.

(** A page depends on the state through the example files only. *)
Lemma generateFunctionDoc_frame (E : env) (f : func) (w w' : world) :
  same_examples E f w w' ->
  fst (generateFunctionDoc E f w) = fst (generateFunctionDoc E f w').
Proof.
  intros [Hglob Hfiles]. unfold generateFunctionDoc.
  assert (Hex : fst (addExamples E (moduleName f) (funcName f) w) =
                fst (addExamples E (moduleName f) (funcName f) w')).
  { unfold addExamples. unfold mbind at 1 3, M_bind, get_world.
    rewrite <- Hglob.
    set (found := glob E (fs w) _) in *.
    destruct (bool_decide (0 < length found)); [|done].
    unfold sorted_by_key.
    destruct (decorate_pure (map (split ".") found)) as (r & Hr & Hsnd).
    unfold mbind, M_bind. rewrite !Hr.
    destruct r as [kl|e]; [|done].
    unfold mret, M_ret. apply addExampleList_frame.
    intros e0 e1 rest Hin.
    assert (Hin' : e0 :: e1 :: rest ∈ map (split ".") found).
    { rewrite <- (Hsnd kl eq_refl).
      rewrite <- (sorted_perm str_lt fst kl). done. }
    apply list_elem_of_fmap in Hin' as (path & Hsplit & Hpath).
    symmetry in Hsplit. rewrite <- (opened_split _ _ _ _ Hsplit).
    by apply Hfiles. }
  unfold mbind, M_bind.
  destruct (addExamples E (moduleName f) (funcName f) w) as [[d|e] w1],
           (addExamples E (moduleName f) (funcName f) w') as [[d'|e'] w1'];
    cbn [fst] in Hex; unfold mret, M_ret; cbn [fst]; congruence.
Qed.

(** The index file a run wrote and the registry it was written from are read
    by a run that starts from the state the first one left. *)
Lemma replaceSections_same_registry (E : env) (fileName data : str) (w w1 : world) :
  fs w !! fileName = Some data ->
  replaceSections E fileName w = (Return tt, w1) ->
  same_registry w w1.
Proof.
  intros Hdata Hrun. rewrite (replaceSections_run E _ _ _ Hdata) in Hrun.
  pose proof (replaceLines_world E (readlines data) [] false w) as (Hfs & _ & Hmod).
  destruct (replaceLines E (readlines data) [] false w) as [[out|e] wl]; [|done].
  injection Hrun as <-. cbn [snd] in Hfs, Hmod.
  split; [simpl; by rewrite Hmod |]. intros s. simpl. rewrite Hfs.
  destruct (decide (fileName = overviewFileName s)) as [<-|Hne].
  - rewrite lookup_insert_eq, Hdata.
    by rewrite !bool_decide_eq_true_2 by (by eexists).
  - by rewrite lookup_insert_ne.
Qed.

Lemma forallb_Forall {A : Type} (p : A -> bool) (l : list A) :
  forallb p l = true -> Forall (fun x => p x = true) l.
Proof.
  induction l as [|x l IH]; simpl; [constructor |].
  intros [Hx Hl]%andb_prop. constructor; [done | by apply IH].
Qed.

Lemma reads_backb_sound (sectionName : str) (added : list str) :
  reads_backb sectionName added = true -> reads_back sectionName added.
Proof.
  unfold reads_backb, reads_back.
  destruct (readlines (concat added)) as [|sline [|l rest]]; [done | done |].
  set (tl := l :: rest).
  intros [[[Hs Hbody]%andb_prop He]%andb_prop Hname]%andb_prop.
  exists sline, (removelast tl), (List.last tl []).
  split; [f_equal; by apply app_removelast_last |].
  split; [done |]. split.
  - apply forallb_Forall in Hbody. eapply Forall_impl; [exact Hbody |].
    simpl. intros x Hx. by apply negb_true_iff.
  - split; [done | by apply str_eqb_eq].
Qed.

Lemma lcd_world_reads_back : registry_reads_back ticking_env lcd_world.
Proof.
  intros s added Hts. unfold sectionLines.
  rewrite (proj2 (str_eqb_neq _ _) Hts).
  unfold lcd_world. cbn [MODULES].
  destruct (decide (s = "lcd")) as [->|Hne].
  - rewrite lookup_singleton_eq. intros [= <-].
    apply reads_backb_sound. vm_compute. reflexivity.
  - rewrite lookup_singleton_ne by done. done.
Qed.

(* ===================================================================== *)
(** * Part III. Further properties of the script                          *)
(* ===================================================================== *)

(** ** [escape] *)

(** A character is not in a literal. *)
Ltac absent_char :=
  let H := fresh in
  intros H; repeat (apply elem_of_cons in H as [H|H]; [discriminate H |]);
  by apply elem_of_nil in H.

Lemma replace_char_absent (old c : ascii) (new s : str) :
  c ∉ new -> (c <> old -> c ∉ s) -> c ∉ replace_char old new s.
Proof.
  intros Hnew Hs. unfold replace_char. induction s as [|x s IH]; simpl.
  - apply not_elem_of_nil.
  - rewrite elem_of_app. intros [Hin|Hin].
    + destruct (x =c? old) eqn:Hx; [done |].
      apply list_elem_of_singleton in Hin. subst x.
      apply ascii_eqb_neq in Hx. apply (Hs Hx). apply elem_of_cons. by left.
    + revert Hin. apply IH. intros Hne Hin. apply (Hs Hne).
      apply elem_of_cons. by right.
Qed.

Lemma replace_char_id (old : ascii) (new s : str) :
  old ∉ s -> replace_char old new s = s.
Proof.
  unfold replace_char. induction s as [|x s IH]; intros Hs; simpl; [done |].
  apply not_elem_of_cons in Hs as [Hx Hs].
  destruct (x =c? old) eqn:Heq.
  - apply ascii_eqb_eq in Heq. congruence.
  - simpl. by rewrite IH.
Qed.

Lemma replace_char_length (old : ascii) (new s : str) :
  new <> [] -> length s <= length (replace_char old new s).
Proof.
  intros Hnew. unfold replace_char. induction s as [|x s IH]; simpl; [lia |].
  rewrite length_app. destruct (x =c? old); simpl; [|lia].
  destruct new; [done | simpl; lia].
Qed.

(** X1.  The text [escape] returns holds no [<] and no [>]; escaping it
    again changes nothing, and a text without the two characters is
    returned as it is.  The ampersand is not escaped, so that a text that
    already holds an entity and the text with the character itself escape
    to the same. *)
Theorem X1_escape (txt : str) :
  ("<"%char ∉ escape txt) /\ (">"%char ∉ escape txt) /\
  escape (escape txt) = escape txt /\
  ("<"%char ∉ txt -> ">"%char ∉ txt -> escape txt = txt) /\
  length txt <= length (escape txt) /\
  escape "a &lt; b" = escape "a < b".
Proof.
  assert (Hlt : "<"%char ∉ escape txt).
  { unfold escape. apply replace_char_absent.
    - absent_char.
    - intros _. apply replace_char_absent; [absent_char | done]. }
  assert (Hgt : ">"%char ∉ escape txt).
  { unfold escape. apply replace_char_absent; [absent_char | done]. }
  assert (Hid : forall t : str, "<"%char ∉ t -> ">"%char ∉ t -> escape t = t).
  { intros t H1 H2. unfold escape. by rewrite (replace_char_id "<"), replace_char_id. }
  split; [done |]. split; [done |]. split; [by apply Hid |].
  split; [exact (Hid txt) |]. split; [|reflexivity].
  unfold escape.
  etransitivity; [apply (replace_char_length "<" "&lt;"); done |].
  by apply replace_char_length.
Qed.

Lemma X1_witness : escape "a.b()" = "a.b()".
Proof.
  apply (proj1 (proj2 (proj2 (proj2 (X1_escape "a.b()"))))).
  - absent_char.
  - absent_char.
Defined.

(** ** [parseSource]: the blocks it finds *)

Lemma findall_rounds_elem (re : bool -> str -> option nat) (n : nat) (bol : bool)
    (s x : str) :
  x ∈ findall_rounds n re bol s ->
  exists b g t k, s = g ++ t /\ re b t = Some (S k) /\ x = take (S k) t.
Proof.
  revert bol s. induction n as [|n IH]; intros bol s; [by intros ?%elem_of_nil |].
  destruct s as [|c s]; [by intros ?%elem_of_nil |].
  cbn [findall_rounds].
  destruct (re bol (c :: s)) as [[|k]|] eqn:Hre.
  - intros (b & g & t & k & -> & Ht & ->)%IH.
    exists b, (c :: g), t, k. by rewrite app_comm_cons.
  - intros [->|Hin]%elem_of_cons.
    + by exists bol, [], (c :: s), k.
    + apply IH in Hin as (b & g & t & k' & Hs & Ht & ->).
      exists b, (take (S k) (c :: s) ++ g), t, k'.
      split; [|done]. rewrite <- app_assoc, <- Hs. by rewrite take_drop.
  - intros (b & g & t & k & -> & Ht & ->)%IH.
    exists b, (c :: g), t, k. by rewrite app_comm_cons.
Qed.

Lemma startswith_app_r (p a b : str) :
  startswith p a = true -> startswith p (a ++ b) = true.
Proof.
  intros (r & ->)%startswith_prefix. rewrite <- app_assoc. apply startswith_app.
Qed.

(** The first occurrence is still the first in the text cut after it. *)
Lemma find_take (sub s : str) (i : nat) :
  find sub s = Some i -> find sub (take i s ++ sub) = Some (length (take i s)).
Proof.
  intros Hfind. pose proof (find_Some _ _ _ Hfind) as (_ & Hle & Hmin).
  pose proof (find_cut _ _ _ Hfind) as Hcut.
  set (a := take i s) in *. set (r := drop (i + length sub) s) in *.
  assert (Hlen : length a = i) by (unfold a; rewrite length_take; lia).
  destruct (find_is_Some sub (a ++ sub) (length a)) as (j & Hj & Hjle).
  { rewrite drop_app_length. rewrite <- (app_nil_r sub) at 2. apply startswith_app. }
  rewrite Hj. f_equal. destruct (decide (j = length a)) as [|Hne]; [done |].
  exfalso. pose proof (find_Some _ _ _ Hj) as (Hst & _ & _).
  assert (Hlt : j < i) by lia. specialize (Hmin j Hlt).
  rewrite Hcut, app_assoc in Hmin.
  rewrite drop_app_le in Hmin by (rewrite length_app; lia).
  by rewrite (startswith_app_r _ _ _ Hst) in Hmin.
Qed.

Lemma find_take_cut (sub s : str) (i : nat) :
  find sub s = Some i -> take (i + length sub) s = take i s ++ sub.
Proof.
  intros Hfind. pose proof (find_cut _ _ _ Hfind) as Hcut.
  pose proof (find_Some _ _ _ Hfind) as (_ & Hle & _).
  apply (f_equal (take (i + length sub))) in Hcut. rewrite Hcut.
  rewrite app_assoc. apply take_app_length'.
  rewrite length_app, length_take. lia.
Qed.

Lemma luadoc_pattern_Some (bol : bool) (t : str) (n : nat) :
  luadoc_pattern bol t = Some n ->
  exists body, take n t = "/*luadoc" ++ body ++ "*/" /\
               find "*/" (body ++ "*/") = Some (length body).
Proof.
  unfold luadoc_pattern. destruct (startswith "/*luadoc" t) eqn:Hst; [|done].
  apply startswith_prefix in Hst as (r & ->).
  change (drop 8 ("/*luadoc" ++ r)) with r.
  destruct (find "*/" r) as [i|] eqn:Hfind; [|done]. intros [= <-].
  exists (take i r). split; [|by apply find_take].
  pose proof (find_take_cut "*/" r i Hfind) as Hcut. simpl in Hcut.
  transitivity ("/*luadoc" ++ take (i + 2) r); [reflexivity |]. by rewrite Hcut.
Qed.

Lemma blockText_body (body : str) :
  blockText ("/*luadoc" ++ body ++ "*/") = slice_between 1 1 body ++ "\n".
Proof.
  unfold blockText, slice_between. f_equal.
  destruct body as [|c body]; [done |].
  replace (drop 9 ("/*luadoc" ++ (c :: body) ++ "*/")) with (body ++ "*/")
    by reflexivity.
  replace (drop 1 (c :: body)) with body by reflexivity.
  replace (length ("/*luadoc" ++ (c :: body) ++ "*/") - 3 - 9)
    with (length body - 1) by (rewrite !length_app; simpl; lia).
  replace (length (c :: body) - 1 - 1) with (length body - 1) by (simpl; lia).
  apply take_app_le. lia.
Qed.

(** X2.  Every block [parseSource] hands to [parseDoc] is a piece of the
    source that starts with the opening delimiter and ends with the first
    closing delimiter after it; the text [parseDoc] works on is the inside
    of the block without its first and its last character, whatever they
    are, and a newline. *)
Theorem X2_luadoc_blocks (data doc : str) :
  doc ∈ findall luadoc_pattern data ->
  exists body,
    doc = "/*luadoc" ++ body ++ "*/" /\
    find "*/" (body ++ "*/") = Some (length body) /\
    blockText doc = slice_between 1 1 body ++ "\n" /\
    exists g r, data = g ++ doc ++ r.
Proof.
  intros (b & g & t & k & -> & Hre & ->)%findall_rounds_elem.
  destruct (luadoc_pattern_Some _ _ _ Hre) as (body & Htake & Hfind).
  exists body. split; [done |]. split; [done |]. split.
  - rewrite Htake. apply blockText_body.
  - exists g, (drop (S k) t). by rewrite take_drop.
Qed.

Lemma X2_witness :
  exists body,
    "/*luadoc\n@foobar x*/" = "/*luadoc" ++ body ++ "*/" /\
    blockText "/*luadoc\n@foobar x*/" = slice_between 1 1 body ++ "\n".
Proof.
  destruct (X2_luadoc_blocks "int a; /*luadoc\n@foobar x*/ int b; */" "/*luadoc\n@foobar x*/")
    as (body & H1 & _ & H2 & _).
  - vm_compute. apply elem_of_cons. by left.
  - by exists body.
Defined.

Lemma findall_luadoc_none (data : str) :
  find "/*luadoc" data = None \/ find "*/" data = None ->
  findall luadoc_pattern data = [].
Proof.
  intros Hnone. apply findall_none. intros q k Hq. unfold match_at, luadoc_pattern.
  destruct (startswith "/*luadoc" (drop q data)) eqn:Hst; [|done].
  destruct Hnone as [Hnone|Hnone].
  - by rewrite (find_None _ _ q Hnone) in Hst.
  - destruct (find "*/" (drop 8 (drop q data))) as [i|] eqn:Hfind; [|done].
    apply find_Some in Hfind as (Hi & _ & _).
    rewrite !drop_drop in Hi. by rewrite (find_None _ _ _ Hnone) in Hi.
Qed.

(** X3.  A source that holds no opening delimiter, or no closing delimiter
    at all (a block left open is not a block), registers nothing:
    [parseSource] reports that it found no section and returns. *)
Theorem X3_no_block (data : str) (w : world) :
  find "/*luadoc" data = None \/ find "*/" data = None ->
  parseSource data w =
    (Return tt, printed w ["Info: Found 0 documentation sections"]).
Proof.
  intros Hnone. unfold parseSource. by rewrite (findall_luadoc_none data Hnone).
Qed.

Lemma X3_witness :
  parseSource "/*luadoc\n@function f()\n" initial =
    (Return tt, printed initial ["Info: Found 0 documentation sections"]).
Proof. apply X3_no_block. right. reflexivity. Defined.

(** ** The registry *)

Lemma grows_refl (m : gmap str (list func)) : grows m m.
Proof. intros k fns H. exists []. by rewrite app_nil_r. Qed.

Lemma grows_trans (m1 m2 m3 : gmap str (list func)) :
  grows m1 m2 -> grows m2 m3 -> grows m1 m3.
Proof.
  intros H12 H23 k fns H. destruct (H12 k fns H) as (more & H2).
  destruct (H23 k _ H2) as (more' & H3). exists (more ++ more').
  by rewrite app_assoc.
Qed.

Lemma keeps_registry_same {A} (c : M A) :
  (forall w, MODULES (snd (c w)) = MODULES w) -> keeps_registry c.
Proof. intros H w Hk. rewrite H. split; [done | apply grows_refl]. Qed.

Lemma keeps_registry_bind {A B} (c : M A) (k : A -> M B) :
  keeps_registry c -> (forall a, keeps_registry (k a)) -> keeps_registry (c ≫= k).
Proof.
  intros Hc Hk w Hw. unfold mbind, M_bind. destruct (Hc w Hw) as [H1 H2].
  destruct (c w) as [[a|e] w1]; [|done]. simpl in H1, H2.
  destruct (Hk a w1 H1) as [H3 H4]. split; [done |]. by eapply grows_trans.
Qed.

Lemma keeps_registry_for_each {A} (l : list A) (body : A -> M unit) :
  (forall x, keeps_registry (body x)) -> keeps_registry (for_each l body).
Proof.
  intros Hbody. induction l as [|x l IH]; simpl.
  - by apply keeps_registry_same.
  - apply keeps_registry_bind; [apply Hbody | done].
Qed.

Lemma keeps_registry_register (f : func) : keeps_registry (register f).
Proof.
  intros w Hw. rewrite register_run. cbn [snd MODULES]. split.
  - intros k fns. destruct (decide (moduleName f = k)) as [<-|Hne].
    + rewrite lookup_insert_eq. intros [= <-]. split.
      * by destruct (default [] (MODULES w !! moduleName f)).
      * apply Forall_app. split; [|by constructor].
        destruct (MODULES w !! moduleName f) as [known|] eqn:Hknown; [|constructor].
        by apply (Hw _ _ Hknown).
    + rewrite lookup_insert_ne by done. apply Hw.
  - intros k fns Hk. destruct (decide (moduleName f = k)) as [<-|Hne].
    + rewrite lookup_insert_eq, Hk. by exists [f].
    + rewrite lookup_insert_ne by done. exists []. by rewrite app_nil_r.
Qed.

Lemma keeps_registry_parseFunction (doc : str) : keeps_registry (parseFunction doc).
Proof.
  destruct (extractItems "function" (doc ++ "\n")) as [[|d more] lines] eqn:Hitems.
  - apply keeps_registry_same. intros w. unfold parseFunction. by rewrite Hitems.
  - intros w. rewrite (parseFunction_found _ _ _ _ w Hitems).
    apply keeps_registry_register.
Qed.

Lemma keeps_registry_parseDoc (doc : str) : keeps_registry (parseDoc doc).
Proof.
  intros w. destruct (le_lt_dec 2 (length (firstLine doc))) as [Hlong|Hshort].
  - rewrite parseDoc_long by done. cbv zeta.
    destruct (_ =s? "@function"); [apply keeps_registry_parseFunction |].
    destruct (_ =s? "@foobar"); [by intros; split; [|apply grows_refl] |].
    intros Hw. split; [done | apply grows_refl].
  - rewrite parseDoc_short by done. intros Hw. split; [done | apply grows_refl].
Qed.

Lemma keeps_registry_parseSource (data : str) : keeps_registry (parseSource data).
Proof.
  unfold parseSource. apply keeps_registry_bind.
  - by apply keeps_registry_same.
  - intros _. apply keeps_registry_for_each, keeps_registry_parseDoc.
Qed.

Lemma keeps_registry_fetch (E : env) (fileName : str) : keeps_registry (fetch E fileName).
Proof.
  apply keeps_registry_same. intros w. unfold fetch, read_file.
  destruct (startswith "http" fileName); [by destruct (urlopen E fileName) |].
  by destruct (fs w !! fileName).
Qed.

(** X4.  However the scan of the sources ends, the registry stays in
    order: every module it holds has a function at least, every function
    is filed under its own module name, and what was registered before is
    still there, in its place: functions are added at the end of the list
    of their module and nothing is taken away. *)
Theorem X4_registry (E : env) (files : list str) (w : world) :
  keyed (MODULES w) ->
  keyed (MODULES (snd (scanFiles E files w))) /\
  grows (MODULES w) (MODULES (snd (scanFiles E files w))).
Proof.
  revert w. change (keeps_registry (scanFiles E files)).
  unfold scanFiles. apply keeps_registry_for_each. intros fileName.
  apply keeps_registry_bind; [by apply keeps_registry_same |]. intros _.
  apply keeps_registry_bind; [apply keeps_registry_fetch |]. intros data.
  apply keeps_registry_parseSource.
Qed.

Lemma X4_witness :
  keyed (MODULES (snd (scanFiles offline ["api.cpp"] marker_world))) /\
  grows (MODULES marker_world) (MODULES (snd (scanFiles offline ["api.cpp"] marker_world))).
Proof.
  apply (X4_registry offline ["api.cpp"] marker_world).
  intros k fns H. simpl in H. by rewrite lookup_empty in H.
Defined.

(** ** [parseFunction]: a block without a declaration *)

Section Least.
Context (re : bool -> str -> option nat) (text : str).

Lemma match_before_dec (n : nat) :
  (exists q k, q < n /\ match_at re text q = Some (S k)) \/
  (forall q k, q < n -> match_at re text q <> Some (S k)).
Proof.
  induction n as [|n [IH|IH]].
  - right. intros q k Hq. lia.
  - left. destruct IH as (q & k & Hq & Hm). exists q, k. split; [lia | done].
  - destruct (match_at re text n) as [[|k]|] eqn:Hn.
    + right. intros q k Hq. destruct (decide (q = n)) as [->|]; [by rewrite Hn |].
      apply IH. lia.
    + left. exists n, k. split; [lia | done].
    + right. intros q k Hq. destruct (decide (q = n)) as [->|]; [by rewrite Hn |].
      apply IH. lia.
Qed.

Lemma findall_not_nil (q k : nat) :
  q < length text -> match_at re text q = Some (S k) -> findall re text <> [].
Proof.
  revert k. induction q as [q IH] using lt_wf_ind. intros k Hq Hm.
  destruct (match_before_dec q) as [(q' & k' & Hq' & Hm')|Hnone].
  - apply (IH q' Hq' k'); [lia | done].
  - destruct (findall_rounds_first re text (length text) 0 q k) as (m & Hfirst);
      [lia | lia | | done | done |].
    + intros q' k' _ Hlt. by apply Hnone.
    + unfold findall. change text with (drop 0 text) at 2.
      change true with (line_start text 0). by rewrite Hfirst.
Qed.
End Least.

Lemma match_upto_blank_ends (x : str) : is_Some (match_upto_blank (x ++ "\n\n")).
Proof.
  induction x as [|c x [n IH]]; [by eexists |].
  simpl. destruct (if c =c? LF then match_blank (x ++ "\n\n") else None);
    [by eexists |].
  rewrite IH. by eexists.
Qed.

(** What follows a word in a text that ends with an empty line ends with an
    empty line. *)
Lemma after_word_ends (d word b g : str) :
  g ++ word ++ b = d ++ "\n\n" -> LF ∉ word -> word <> [] ->
  exists x, b = x ++ "\n\n".
Proof.
  intros Heq Hword Hne. apply (f_equal (@rev ascii)) in Heq.
  rewrite !rev_app_distr in Heq. simpl in Heq.
  destruct (rev b) as [|c1 [|c2 rb]] eqn:Hb.
  - simpl in Heq. destruct (rev word) as [|c w] eqn:Hw.
    + apply (f_equal (@rev ascii)) in Hw. rewrite rev_involutive in Hw. done.
    + injection Heq as -> _. exfalso. apply Hword.
      apply list_elem_of_In, in_rev. rewrite Hw. by left.
  - simpl in Heq. injection Heq as -> Heq.
    destruct (rev word) as [|c w] eqn:Hw.
    + apply (f_equal (@rev ascii)) in Hw. rewrite rev_involutive in Hw. done.
    + injection Heq as -> _. exfalso. apply Hword.
      apply list_elem_of_In, in_rev. rewrite Hw. by left.
  - injection Heq as -> -> _. exists (rev rb).
    apply (f_equal (@rev ascii)) in Hb. rewrite rev_involutive in Hb.
    rewrite Hb. simpl. by rewrite <- !app_assoc.
Qed.

Lemma startswith_app_inv (p x : str) (c : ascii) :
  startswith p (x ++ [c]) = true -> c ∉ p -> startswith p x = true.
Proof.
  revert x. induction p as [|a p IH]; intros x Hst Hc; [by destruct x |].
  apply not_elem_of_cons in Hc as [Hac Hc].
  destruct x as [|b x]; simpl in *.
  - apply andb_prop in Hst as [Hab _]. apply ascii_eqb_eq in Hab. congruence.
  - apply andb_prop in Hst as [Hab Hst]. rewrite Hab. simpl. by apply IH.
Qed.

Lemma line_start_app (a b : str) (q : nat) :
  q <= length a -> line_start (a ++ b) q = line_start a q.
Proof.
  intros Hq. destruct q as [|q]; [done |]. unfold line_start, str.
  by rewrite lookup_app_l by lia.
Qed.

Lemma ends_line_inv (s : str) : ends_line s = true -> exists d, s = d ++ "\n".
Proof.
  unfold ends_line. destruct (last s) as [c|] eqn:Hlast; [|done].
  intros Hc%ascii_eqb_eq. subst c. apply last_Some in Hlast as (d & ->). by exists d.
Qed.

Lemma function_found (doc : str) :
  ends_line doc = true ->
  line_starts "@function" doc = true ->
  findall (item_pattern "function") (doc ++ "\n") <> [].
Proof.
  intros (d & ->)%ends_line_inv Hline.
  apply existsb_exists in Hline as (q & Hq & Hline).
  apply in_seq in Hq as [_ Hq]. rewrite Nat.add_0_l in Hq.
  apply andb_prop in Hline as [Hstart Hst].
  apply startswith_prefix in Hst as (b & Hb).
  set (text := (d ++ "\n") ++ "\n").
  assert (Hdrop : drop q text = "@function" ++ b ++ "\n").
  { unfold text. rewrite drop_app_le by lia. by rewrite Hb. }
  destruct (after_word_ends d "@function" (b ++ "\n") (take q text)) as (x & Hx).
  { rewrite <- Hdrop, take_drop. unfold text. by rewrite <- app_assoc. }
  { absent_char. }
  { done. }
  destruct (match_upto_blank_ends x) as (n & Hn).
  apply (findall_not_nil _ text q (8 + n)).
  - unfold text. rewrite (length_app (d ++ "\n")). lia.
  - unfold match_at. unfold text at 1. rewrite line_start_app by lia.
    rewrite Hstart, Hdrop, Hx. unfold item_pattern.
    rewrite startswith_app. cbn [andb].
    change (drop (length "function" + 1) ("@function" ++ x ++ "\n\n"))
      with (x ++ "\n\n").
    rewrite Hn. reflexivity.
Qed.

Lemma function_not_found (doc : str) :
  line_starts "@function" doc = false ->
  findall (item_pattern "function") (doc ++ "\n") = [].
Proof.
  intros Hline. apply findall_none. intros q k Hq Hm.
  unfold match_at, item_pattern in Hm.
  destruct (line_start (doc ++ "\n") q) eqn:Hstart; [|done].
  destruct (startswith ("@" ++ "function") (drop q (doc ++ "\n"))) eqn:Hst; [|done].
  rewrite length_app in Hq. simpl in Hq.
  assert (Hlt : q < length doc).
  { destruct (decide (q = length doc)) as [->|]; [|lia].
    by rewrite drop_app_length in Hst. }
  rewrite drop_app_le in Hst by lia.
  apply startswith_app_inv in Hst; [|absent_char].
  change (startswith "@function" (drop q doc) = true) in Hst.
  rewrite line_start_app in Hstart by lia.
  assert (Hex : line_starts "@function" doc = true).
  { apply existsb_exists. exists q. split; [apply in_seq; lia |].
    by rewrite Hstart, Hst. }
  congruence.
Qed.

Lemma length_before (c : ascii) (s : str) : length (before c s) <= length s.
Proof. induction s as [|x s IH]; simpl; [lia |]. destruct (x =c? c); simpl; lia. Qed.

Lemma ends_line_blockText (doc : str) : ends_line (blockText doc) = true.
Proof. unfold blockText. by rewrite ends_line_app. Qed.

(** X5.  A block whose first line announces a function is registered when
    some line of its text starts with the tag.  When none does, which is so
    when the tag is indented (the first line is trimmed before its first word is
    read, the pattern looks at the start of a line), [functions[0]] raises
    [IndexError]: the run ends there and the state is as it was. *)
Theorem X5_function_block (doc : str) (w : world) :
  split_head " " (firstLine doc) = "@function" ->
  (line_starts "@function" (blockText doc) = true ->
     fst (parseDoc doc w) = Return tt) /\
  (line_starts "@function" (blockText doc) = false ->
     parseDoc doc w = (Raise IndexError, w)).
Proof.
  intros Htype.
  assert (Hlong : 2 <= length (firstLine doc)).
  { pose proof (length_before " " (firstLine doc)) as Hle.
    rewrite <- split_head_before, Htype in Hle. simpl in Hle. lia. }
  rewrite parseDoc_long by done. cbv zeta. rewrite Htype.
  replace ("@function" =s? "@function") with true by done.
  split; intros Hline.
  - pose proof (function_found _ (ends_line_blockText doc) Hline) as Hfound.
    destruct (extractItems "function" (blockText doc ++ "\n")) as [[|d more] lines]
      eqn:Hitems.
    + unfold extractItems in Hitems. injection Hitems as Hmap _.
      by apply map_eq_nil in Hmap.
    + rewrite (parseFunction_found _ _ _ _ w Hitems). by rewrite register_run.
  - pose proof (function_not_found _ Hline) as Hnone.
    unfold parseFunction, extractItems. by rewrite Hnone.
Qed.

Lemma X5_witness :
  fst (parseDoc "/*luadoc\n@function lcd.clear()\n*/" initial) = Return tt /\
  parseDoc "/*luadoc\n  @function lcd.clear()\n*/" initial = (Raise IndexError, initial).
Proof.
  split.
  - apply (proj1 (X5_function_block "/*luadoc\n@function lcd.clear()\n*/" initial eq_refl)).
    reflexivity.
  - apply (proj2 (X5_function_block "/*luadoc\n  @function lcd.clear()\n*/" initial eq_refl)).
    reflexivity.
Defined.

(** ** The files a run touches *)

Lemma writes_only_keeps (P : str -> Prop) {A} (c : M A) :
  keeps_files c -> writes_only P c.
Proof. intros H w. by rewrite H. Qed.

Lemma writes_only_bind (P : str -> Prop) {A B} (c : M A) (k : A -> M B) :
  writes_only P c -> (forall a, writes_only P (k a)) -> writes_only P (c ≫= k).
Proof.
  intros Hc Hk w. unfold mbind, M_bind. destruct (Hc w) as [H1 H2].
  destruct (c w) as [[a|e] w1]; [|done]. simpl in H1, H2.
  destruct (Hk a w1) as [H3 H4]. split.
  - intros p Hp. by apply H3, H1.
  - intros p Hp. by rewrite H4, H2.
Qed.

Lemma writes_only_for_each (P : str -> Prop) {A} (l : list A) (body : A -> M unit) :
  (forall x, writes_only P (body x)) -> writes_only P (for_each l body).
Proof.
  intros Hbody. induction l as [|x l IH]; simpl.
  - by apply writes_only_keeps.
  - apply writes_only_bind; [apply Hbody | done].
Qed.

Lemma writes_only_write_file (P : str -> Prop) (path data : str) :
  P path -> writes_only P (write_file path data).
Proof.
  intros HP w. rewrite write_file_run. cbn [snd fs]. split.
  - intros p Hp. destruct (decide (path = p)) as [->|Hne].
    + rewrite lookup_insert_eq. by eexists.
    + by rewrite lookup_insert_ne.
  - intros p Hp. rewrite lookup_insert_ne; [done |]. by intros ->.
Qed.

Lemma keeps_files_addExample (doc : str) (example : list str) :
  keeps_files (addExample doc example).
Proof.
  unfold addExample. destruct example as [|e0 [|e1 rest]]; [done | done |].
  cbn [first_item tl]. intros w.
  erewrite bind_Return by reflexivity. erewrite bind_Return by reflexivity.
  cbv zeta. apply keeps_files_bind; [apply keeps_files_print |]. intros _.
  apply keeps_files_bind; [apply keeps_files_read_file | done].
Qed.

Lemma keeps_files_addExampleList (examples : list (list str)) (doc : str) :
  keeps_files (addExampleList doc examples).
Proof.
  revert doc. induction examples as [|x examples IH]; intros doc; [done |].
  cbn [addExampleList]. apply keeps_files_bind; [apply keeps_files_addExample | done].
Qed.

Lemma keeps_files_addExamples (E : env) (moduleName funcName : str) :
  keeps_files (addExamples E moduleName funcName).
Proof.
  unfold addExamples. cbv zeta. apply keeps_files_bind; [done |]. intros w0.
  destruct (bool_decide _); [|done].
  apply keeps_files_bind; [|intros; apply keeps_files_addExampleList].
  unfold sorted_by_key. apply keeps_files_bind; [|done].
  intros w. destruct (decorate_pure (map (split ".") (glob E (fs w0)
    (moduleName ++ "/" ++ funcName ++ "-example*.*")))) as (r & Hr & _).
  by rewrite Hr.
Qed.

Lemma keeps_files_generateFunctionDoc (E : env) (f : func) :
  keeps_files (generateFunctionDoc E f).
Proof.
  unfold generateFunctionDoc. cbv zeta.
  apply keeps_files_bind; [apply keeps_files_addExamples | done].
Qed.

Lemma keeps_files_replaceLines (E : env) (contents newContents : list str)
    (ignoreLine : bool) :
  keeps_files (replaceLines E contents newContents ignoreLine).
Proof. intros w. apply (replaceLines_world E contents newContents ignoreLine w). Qed.

Lemma writes_only_replaceSections (P : str -> Prop) (E : env) (fileName : str) :
  P fileName -> writes_only P (replaceSections E fileName).
Proof.
  intros HP. unfold replaceSections.
  apply writes_only_bind; [apply writes_only_keeps, keeps_files_read_file |].
  intros data. cbv zeta.
  apply writes_only_bind; [apply writes_only_keeps, keeps_files_replaceLines |].
  intros newContents.
  apply writes_only_bind; [by apply writes_only_write_file |]. intros _.
  apply writes_only_keeps, keeps_files_print.
Qed.

Lemma writes_only_writePages (E : env) (fns : list func) :
  writes_only md_path (writePages E fns).
Proof.
  unfold writePages. apply writes_only_for_each. intros f.
  apply writes_only_bind;
    [apply writes_only_keeps, keeps_files_generateFunctionDoc |].
  intros doc. cbv zeta.
  apply writes_only_bind; [by apply writes_only_keeps |]. intros _.
  apply writes_only_bind; [|intros _; apply writes_only_keeps, keeps_files_print].
  apply writes_only_write_file.
  exists (moduleName f ++ "/" ++ funcName f). by rewrite <- !app_assoc.
Qed.

(** X6.  However a run ends, it has removed no file and has changed no
    file but pages, the summary and the read-me: a path that does not end in
    [.md] holds what it held before, so that the sources and the example
    files of other kinds are safe. *)
Theorem X6_files_touched (E : env) (files : list str) (w : world) (p : str) :
  (is_Some (fs w !! p) -> is_Some (fs (snd (main E files w)) !! p)) /\
  (~ md_path p -> fs (snd (main E files w)) !! p = fs w !! p).
Proof.
  assert (H : writes_only md_path (main E files)).
  { unfold main. cbv zeta.
    apply writes_only_bind; [apply writes_only_keeps, keeps_files_scanFiles |].
    intros _. apply writes_only_bind; [by apply writes_only_keeps |]. intros w0.
    apply writes_only_bind.
    - apply writes_only_for_each. intros [m fns].
      apply writes_only_bind; [apply writes_only_writePages |]. intros _.
      apply writes_only_bind; [apply writes_only_keeps, keeps_files_print |].
      intros _. apply writes_only_keeps, keeps_files_print.
    - intros _.
      apply writes_only_bind;
        [apply writes_only_replaceSections; by exists "SUMMARY" |].
      intros _. apply writes_only_replaceSections. by exists "README". }
  destruct (H w) as [H1 H2]. split; [apply H1 | apply H2].
Qed.

Lemma X6_witness :
  is_Some (fs (snd (main local_env ["api.cpp"] marker_world)) !! ("api.cpp" : str)) /\
  fs (snd (main local_env ["api.cpp"] marker_world)) !! ("api.cpp" : str) =
    fs marker_world !! ("api.cpp" : str).
Proof.
  destruct (X6_files_touched local_env ["api.cpp"] marker_world "api.cpp") as [H1 H2].
  split.
  - apply H1. by eexists.
  - apply H2. intros [q Hq]. apply (f_equal (@rev ascii)) in Hq.
    rewrite rev_app_distr in Hq. discriminate Hq.
Defined.

(** ** A source that cannot be read *)



(** ** [replaceSections]: markers that do not pair *)

(** X8.  A start marker that no end marker follows cuts the document
    short: the start-marker line and every line after it are dropped, and
    the file is rewritten with the lines before it only. *)
Theorem X8_unclosed_section (E : env) (fileName data : str) (pre : list str)
    (sline : str) (rest : list str) (w : world) :
  fs w !! fileName = Some data ->
  readlines data = pre ++ sline :: rest ->
  Forall (fun l => is_plain l = true) pre ->
  is_start sline = true ->
  Forall (fun l => is_end l = false) rest ->
  replaceSections E fileName w =
    (Return tt,
     printed (World (<[fileName := concat pre]> (fs w)) (stdout w) (MODULES w) (clock w))
       ["Info: generated " ++ fileName]).
Proof.
  intros Hdata Hlines Hpre Hs Hrest.
  rewrite (replaceSections_run E _ _ _ Hdata), Hlines.
  rewrite replaceLines_copy by done. rewrite replaceLines_start by done.
  rewrite <- (app_nil_r rest). rewrite replaceLines_drop by done.
  reflexivity.
Qed.

Lemma X8_witness :
  let data := "# Readme\n[//]: <> (LUADOC-BEGIN:timestamp)\nold\nbye\n" in
  let w := World {[ READMEFILE := data ]} [] ∅ 0 in
  replaceSections offline READMEFILE w =
    (Return tt,
     printed (World (<[READMEFILE := "# Readme\n"]> (fs w)) [] ∅ 0)
       ["Info: generated README.md"]).
Proof.
  intros data w.
  apply (X8_unclosed_section offline READMEFILE data ["# Readme\n"]
           "[//]: <> (LUADOC-BEGIN:timestamp)\n" ["old\n"; "bye\n"] w).
  - reflexivity.
  - reflexivity.
  - by repeat constructor.
  - reflexivity.
  - by repeat constructor.
Defined.

(** X9.  An end marker that no start marker precedes removes nothing: the
    section it names is generated in the place of the end-marker line, and
    the lines around it are kept. *)
Theorem X9_stray_end (E : env) (fileName data : str) (pre : list str)
    (eline : str) (post added : list str) (w : world) :
  fs w !! fileName = Some data ->
  readlines data = pre ++ eline :: post ->
  Forall (fun l => is_plain l = true) pre ->
  is_end eline = true ->
  Forall (fun l => is_plain l = true) post ->
  sectionLines E w (sectionNameOf eline) = Some added ->
  exists w',
    replaceSections E fileName w = (Return tt, w') /\
    fs w' = <[fileName := concat (pre ++ added ++ post)]> (fs w).
Proof.
  intros Hdata Hlines Hpre He Hpost Hsec.
  rewrite (replaceSections_run E _ _ _ Hdata), Hlines.
  rewrite replaceLines_copy by done. rewrite replaceLines_end by done.
  erewrite bind_Return by (rewrite insertSection_sectionLines, Hsec; reflexivity).
  match goal with
  | |- context [replaceLines E post ?nc false] =>
      pose proof (replaceLines_copy E post [] nc Hpost) as Hcopy
  end.
  rewrite app_nil_r in Hcopy. rewrite Hcopy.
  cbn [replaceLines app]. unfold mret, M_ret. eexists. split; [reflexivity |].
  cbn [fs printed]. rewrite <- app_assoc. by destruct (_ =s? "timestamp").
Qed.

Lemma X9_witness :
  let data := "# Readme\n[//]: <> (LUADOC-END:timestamp)\nbye\n" in
  let w := World {[ READMEFILE := data ]} [] ∅ 0 in
  exists w',
    replaceSections offline READMEFILE w = (Return tt, w') /\
    fs w' = <[READMEFILE :=
              concat (["# Readme\n"] ++
                      ["[//]: <> (LUADOC-BEGIN:timestamp)\n";
                       "<div class=\x22footer\x22>last updated on 2016/01/01 00:00:00 UTC</div>\n";
                       "[//]: <> (LUADOC-END:timestamp)\n"] ++ ["bye\n"])]> (fs w).
Proof.
  intros data w.
  apply (X9_stray_end offline READMEFILE data ["# Readme\n"]
           "[//]: <> (LUADOC-END:timestamp)\n" ["bye\n"]).
  - reflexivity.
  - reflexivity.
  - by repeat constructor.
  - reflexivity.
  - by repeat constructor.
  - reflexivity.
Defined.

(** ** [replaceSections]: when it succeeds *)

Lemma replaceLines_known (E : env) (contents : list str) :
  forall newContents ignoreLine w,
    known_sections w contents ->
    exists out,
      replaceLines E contents newContents ignoreLine w =
        (Return out,
         World (fs w) (stdout w) (MODULES w) (clock w + stamps contents)).
Proof.
  induction contents as [|line rest IH]; intros newContents ignoreLine w Hknown.
  - exists newContents. simpl. unfold mret, M_ret. destruct w. simpl.
    by rewrite Nat.add_0_r.
  - apply Forall_cons in Hknown as [Hline Hrest]. unfold stamps. cbn [List.filter].
    destruct (line_kind line) as [Hk|[Hk|Hk]].
    + rewrite replaceLines_start by done. rewrite (is_start_not_end _ Hk).
      cbn [andb]. apply IH, Hrest.
    + rewrite replaceLines_end by done. rewrite Hk. cbn [andb].
      unfold mbind, M_bind. rewrite insertSection_sectionLines. unfold sectionLines.
      destruct (sectionNameOf line =s? "timestamp") eqn:Hts.
      * destruct (IH (newContents ++
                        [STARTMARKER ++ sectionNameOf line ++ ")\n";
                         timestampLine (utcnow E (clock w));
                         ENDMARKER ++ sectionNameOf line ++ ")\n"]) false (ticked w))
          as (out & Hout); [done |].
        exists out. rewrite Hout. cbn [length fs stdout MODULES clock ticked].
        do 2 f_equal. unfold stamps. lia.
      * destruct (Hline Hk) as [Heq|[fns Hfns]].
        { apply str_eqb_neq in Hts. done. }
        rewrite Hfns. cbn [mbind option_bind]. apply IH, Hrest.
    + rewrite replaceLines_plain by done. rewrite (is_plain_not_end _ Hk).
      cbn [andb]. apply IH, Hrest.
Qed.

(** X10.  [replaceSections] on a file that exists succeeds if and only if
    every end-marker line of it names the time stamp or a module of the
    registry.  It then rewrites that one file, prints one line, leaves the
    registry as it is and reads the clock once for every end-marker line
    that names the time stamp. *)
Theorem X10_replaceSections_succeeds (E : env) (fileName data : str) (w : world) :
  fs w !! fileName = Some data ->
  (known_sections w (readlines data) ->
     exists out,
       replaceSections E fileName w =
         (Return tt,
          printed (World (<[fileName := concat out]> (fs w)) (stdout w) (MODULES w)
                     (clock w + stamps (readlines data)))
            ["Info: generated " ++ fileName])) /\
  ((exists w', replaceSections E fileName w = (Return tt, w')) ->
     known_sections w (readlines data)).
Proof.
  intros Hdata. split.
  - intros Hknown. rewrite (replaceSections_run E _ _ _ Hdata).
    destruct (replaceLines_known E (readlines data) [] false w Hknown) as (out & ->).
    by exists out.
  - intros (w' & Hrun). apply Forall_forall. intros line Hin He.
    destruct (decide (sectionNameOf line = "timestamp")) as [|Hts]; [by left |].
    destruct (MODULES w !! sectionNameOf line) as [fns|] eqn:Hfns; [right; by eexists |].
    exfalso. rewrite (replaceSections_run E _ _ _ Hdata) in Hrun.
    destruct (replaceLines_unknown E (readlines data) [] false w line Hin He)
      as (key & w1 & Hraise & _); [by split |].
    by rewrite Hraise in Hrun.
Qed.

Lemma X10_witness :
  let data := "# Readme\n[//]: <> (LUADOC-BEGIN:timestamp)\nold\n[//]: <> (LUADOC-END:timestamp)\n" in
  let w := World {[ READMEFILE := data ]} [] ∅ 7 in
  exists out,
    replaceSections ticking_env READMEFILE w =
      (Return tt,
       printed (World (<[READMEFILE := concat out]> (fs w)) [] ∅ 8)
         ["Info: generated README.md"]).
Proof.
  intros data w.
  destruct (X10_replaceSections_succeeds ticking_env READMEFILE data w eq_refl)
    as [Hthen _].
  destruct Hthen as (out & Hout).
  - unfold known_sections.
    change (readlines data)
      with ["# Readme\n"; "[//]: <> (LUADOC-BEGIN:timestamp)\n"; "old\n";
            "[//]: <> (LUADOC-END:timestamp)\n"].
    repeat (apply List.Forall_cons;
            [intros He; vm_compute in He; first [discriminate He | left; reflexivity] |]).
    apply List.Forall_nil.
  - by exists out.
Defined.

(** ** The order of the functions of a module *)

Lemma StronglySorted_weaken {A} (R R' : A -> A -> Prop) (P : A -> Prop) (l : list A) :
  (forall x y, P x -> P y -> R x y -> R' x y) ->
  Forall P l -> StronglySorted R l -> StronglySorted R' l.
Proof.
  intros HR HP Hs. induction Hs as [|a l Hs IH Hall]; [constructor |].
  apply Forall_cons in HP as [Ha HP]. constructor; [by apply IH |].
  clear IH Hs. induction Hall as [|b l Hb _ IH']; [constructor |].
  apply Forall_cons in HP as [Hb' HP]. constructor; [by apply HR | by apply IH'].
Qed.

Lemma func_lt_same_module (f g : func) :
  moduleName f = moduleName g -> func_lt g f = false ->
  str_lt (funcName g) (funcName f) = false.
Proof.
  intros Hm Hlt. unfold func_lt in Hlt. rewrite Hm in Hlt.
  rewrite (lt_irrefl _ str_lt_strict_total) in Hlt.
  by destruct (str_lt (funcName g) (funcName f)).
Qed.

(** X11.  When the functions of a list are all of one module, as those of
    a registered module are, [sorted] puts them in the order of their
    function names, compared byte by byte (capitals before small letters);
    the index section and the printed summary list them in that order. *)
Theorem X11_listed_by_name (m : str) (fns : list func) :
  Forall (fun f => moduleName f = m) fns ->
  StronglySorted (fun f g => str_lt (funcName g) (funcName f) = false)
    (sorted func_lt id fns) /\
  Permutation (sorted func_lt id fns) fns.
Proof.
  intros Hm. split; [|apply sorted_perm].
  apply (StronglySorted_weaken (key_le func_lt id) _ (fun f => moduleName f = m)).
  - intros f g Hf Hg Hle. apply func_lt_same_module; [congruence | exact Hle].
  - apply (Permutation_Forall (Permutation_sym (sorted_perm func_lt id fns)) Hm).
  - apply sorted_sorted, func_lt_strict_total.
Qed.

Lemma X11_witness :
  funcName <$> sorted func_lt id lcd_functions = ["clear"; "drawText"] /\
  StronglySorted (fun f g => str_lt (funcName g) (funcName f) = false)
    (sorted func_lt id lcd_functions).
Proof.
  split; [reflexivity |].
  apply (X11_listed_by_name "lcd" lcd_functions). by repeat constructor.
Defined.

(** ** The examples of a page *)

(** X12.  The code of a [lua] example is put between the fences as the file
    holds it when the file is empty or ends with a newline, and with one
    newline added when it does not: the closing fence always starts a line,
    and an empty file gives an empty fence. *)
Theorem X12_code_fence (doc e0 contents : str) (rest : list str) (w : world) :
  fs w !! (e0 ++ ".lua") = Some contents ->
  exists code,
    fst (addExample doc (e0 :: "lua" :: rest) w) =
      Return (doc ++ "<a class=\x22dlbtn\x22 href=\x22" ++ DOCBASE ++
              replace_char "\" "/" (e0 ++ ".lua") ++ "\x22>" ++
              replace_char "\" "/" e0 ++ "</a>\n\n" ++
              "```lua\n" ++ code ++ "```\n\n") /\
    (contents = [] \/ ends_line contents = true -> code = contents) /\
    (contents <> [] -> ends_line contents = false -> code = contents ++ "\n") /\
    (code = [] \/ ends_line code = true).
Proof.
  intros Hfile.
  destruct (addExample_run doc e0 "lua" contents rest w Hfile)
    as (doc' & Hrun & _ & Hlua & _).
  specialize (Hlua eq_refl). subst doc'.
  exists (contents ++ (if ends_line ("\n" ++ contents) then [] else "\n")).
  split.
  - etransitivity; [exact (f_equal fst Hrun) |]. cbn [fst].
    unfold codePart. do 2 f_equal.
    repeat (progress (rewrite <- ?app_assoc; cbn [app])). reflexivity.
  - destruct contents as [|c contents].
    + split; [done |]. split; [done | by left].
    + rewrite ends_line_app by done.
      destruct (ends_line (c :: contents)) eqn:Hends.
      * rewrite app_nil_r. split; [done |]. split; [done | by right].
      * split; [by intros [|] |]. split; [done |]. right. by rewrite ends_line_app.
Qed.

Lemma X12_witness :
  fst (addExample "" ["lcd/clear-example"; "lua"] lcd_world) =
    Return ("<a class=\x22dlbtn\x22 href=\x22" ++ DOCBASE ++
            "lcd/clear-example.lua" ++ "\x22>" ++ "lcd/clear-example" ++ "</a>\n\n" ++
            "```lua\n" ++ ("lcd.clear()" ++ "\n") ++ "```\n\n") /\
  fst (addExample "" ["lcd/clear-example"; "lua"]
         (World {[ ("lcd/clear-example.lua" : str) := ("lcd.clear()\n" : str) ]} [] ∅ 0)) =
    Return ("<a class=\x22dlbtn\x22 href=\x22" ++ DOCBASE ++
            "lcd/clear-example.lua" ++ "\x22>" ++ "lcd/clear-example" ++ "</a>\n\n" ++
            "```lua\n" ++ "lcd.clear()\n" ++ "```\n\n").
Proof.
  split.
  - destruct (X12_code_fence "" "lcd/clear-example" "lcd.clear()" [] lcd_world eq_refl)
      as (code & Hrun & _ & Hadd & _).
    rewrite (Hadd ltac:(done) eq_refl) in Hrun. exact Hrun.
  - destruct (X12_code_fence "" "lcd/clear-example" "lcd.clear()\n" []
                (World {[ ("lcd/clear-example.lua" : str) := ("lcd.clear()\n" : str) ]}
                   [] ∅ 0))
      as (code & Hrun & Hsame & _); [vm_compute; reflexivity |].
    rewrite (Hsame (or_intror eq_refl)) in Hrun. exact Hrun.
Defined.

Lemma addExampleList_run (examples : list (list str)) (doc : str) (w : world) :
  Forall (fun x => exists e0 e1, x = [e0; e1] /\ is_Some (fs w !! (e0 ++ "." ++ e1)))
    examples ->
  exists doc',
    addExampleList doc examples w =
      (Return doc',
       printed w (map (fun x => "Info: Adding contents of example " ++ join "." x)
                    examples)).
Proof.
  revert doc w. induction examples as [|x examples IH]; intros doc w Hall.
  - exists doc. simpl. unfold mret, M_ret, printed. destruct w. simpl.
    by rewrite app_nil_r.
  - apply Forall_cons in Hall as [(e0 & e1 & -> & [contents Hfile]) Hall].
    cbn [addExampleList map]. unfold mbind, M_bind.
    rewrite addExample_unfold. cbv zeta.
    match goal with
    | |- context [match ?x with Some _ => _ | None => _ end] =>
        replace x with (Some contents)
    end.
    destruct (IH (exampleText doc e0 e1 contents)
                (printed w ["Info: Adding contents of example " ++ e0 ++ "." ++ e1]) Hall)
      as (doc' & Hrun).
    exists doc'. rewrite Hrun. by rewrite printed_printed.
Qed.

Lemma split_one_dot (path : str) :
  count_char "." path = 1 ->
  split "." path = [before "." path; after "." path] /\
  before "." path ++ "." ++ after "." path = path.
Proof.
  intros Hcount.
  assert (Hin : "."%char ∈ path).
  { destruct (decide ("."%char ∈ path)) as [|Hno]; [done |].
    apply count_char_0 in Hno. lia. }
  split; [|symmetry; by apply before_after].
  rewrite split_char, bool_decide_eq_true_2 by done. f_equal.
  rewrite split_char, bool_decide_eq_false_2; [done |].
  apply count_char_0. rewrite (count_char_after _ _ Hin) in Hcount. lia.
Qed.

(** X13.  [addExamples] succeeds when every path [glob] finds holds one dot
    and names a file: it then changes nothing but the output, on which it
    reports every example once.  When [glob] finds nothing, nothing is
    added to the page and nothing is printed. *)
Theorem X13_examples_succeed (E : env) (m f : str) (w : world) :
  let found := glob E (fs w) (m ++ "/" ++ f ++ "-example*.*") in
  Forall (fun path => count_char "." path = 1 /\ is_Some (fs w !! path)) found ->
  exists doc lines,
    addExamples E m f w = (Return doc, printed w lines) /\
    Permutation lines (map (app "Info: Adding contents of example ") found) /\
    (found = [] -> doc = []).
Proof.
  intros found Hfound. unfold addExamples. cbv zeta.
  erewrite bind_Return by reflexivity. fold found.
  destruct found as [|p0 found'] eqn:Hf.
  - exists [], []. split; [|done]. simpl. unfold mret, M_ret, printed.
    destruct w. simpl. by rewrite app_nil_r.
  - rewrite bool_decide_eq_true_2 by (simpl; lia).
    assert (Hne : found <> []) by (by rewrite Hf).
    rewrite <- Hf in *. clear Hf.
    set (exs := map (split ".") found).
    assert (Hlen : Forall (fun x => 2 <= length x) exs).
    { unfold exs. apply Forall_map. eapply Forall_impl; [exact Hfound |].
      intros path [Hcount _]. simpl. rewrite length_split. lia. }
    unfold sorted_by_key.
    erewrite bind_Return by (erewrite bind_Return by (by apply decorate_keys); reflexivity).
    set (examples := map snd (sorted str_lt fst (map (fun x => (extension_key x, x)) exs))).
    assert (Hperm : Permutation examples exs).
    { unfold examples. rewrite sorted_perm. rewrite map_map. simpl. by rewrite map_id. }
    assert (Hexs : Forall (fun x => exists e0 e1, x = [e0; e1] /\
                                    is_Some (fs w !! (e0 ++ "." ++ e1))) exs).
    { unfold exs. apply Forall_map. eapply Forall_impl; [exact Hfound |].
      intros path [Hcount Hfile]. cbv beta.
      destruct (split_one_dot path Hcount) as [Hsplit Hpath].
      exists (before "." path), (after "." path). split; [done |]. by rewrite Hpath. }
    destruct (addExampleList_run examples ([] ++ "\n\n---\n\n### Examples\n\n") w)
      as (doc & Hrun).
    { by rewrite Hperm. }
    exists doc, (map (fun x => "Info: Adding contents of example " ++ join "." x) examples).
    split; [exact Hrun |]. split; [|done].
    rewrite Hperm. unfold exs. rewrite map_map.
    erewrite map_ext; [reflexivity |]. intros path. simpl. by rewrite join_split.
Qed.

Lemma X13_witness :
  exists doc lines,
    addExamples local_env "lcd" "clear" lcd_world = (Return doc, printed lcd_world lines) /\
    Permutation lines ["Info: Adding contents of example lcd/clear-example.lua"].
Proof.
  destruct (X13_examples_succeed local_env "lcd" "clear" lcd_world)
    as (doc & lines & Hrun & Hperm & _).
  - change (glob local_env (fs lcd_world) ("lcd" ++ "/" ++ "clear" ++ "-example*.*"))
      with ["lcd/clear-example.lua" : str].
    apply List.Forall_cons; [|apply List.Forall_nil].
    split; [reflexivity | by eexists].
  - exists doc, lines. split; [exact Hrun | exact Hperm].
Defined.

(** ** The pages *)

Lemma generateFunctionDoc_header (E : env) (f : func) (w w1 : world) (doc : str) :
  generateFunctionDoc E f w = (Return doc, w1) ->
  fs w1 = fs w /\ startswith pageHeader doc = true.
Proof.
  intros Hrun. split.
  - pose proof (keeps_files_generateFunctionDoc E f w) as Hfs. by rewrite Hrun in Hfs.
  - unfold generateFunctionDoc in Hrun. cbv zeta in Hrun.
    unfold mbind, M_bind in Hrun.
    destruct (addExamples E (moduleName f) (funcName f) w) as [[examples|e] w2];
      [|done].
    injection Hrun as <- _. apply startswith_prefix. eexists. reflexivity.
Qed.

Lemma writePages_loop (E : env) (l : list func) (w w' : world) :
  for_each l (fun f =>
    doc ← generateFunctionDoc E f;
    let docName := moduleName f ++ "/" ++ funcName f ++ ".md" in
    mkdir_p docName ;;
    write_file docName doc ;;
    logInfo ("generated " ++ docName)) w = (Return tt, w') ->
  (forall p page, fs w !! p = Some page -> startswith pageHeader page = true ->
     exists page', fs w' !! p = Some page' /\ startswith pageHeader page' = true) /\
  (forall f, f ∈ l ->
     exists page, fs w' !! docNameOf f = Some page /\
                  startswith pageHeader page = true).
Proof.
  revert w. induction l as [|f l IH]; intros w Hrun.
  - simpl in Hrun. injection Hrun as <-. split; [by eauto |].
    by intros f ?%elem_of_nil.
  - cbn [for_each] in Hrun. unfold mbind at 1, M_bind at 1 in Hrun.
    match type of Hrun with
    | context [match ?body w with _ => _ end] => destruct (body w) as [[[]|e] w1] eqn:Hbody
    end; [|done].
    unfold mbind, M_bind in Hbody.
    destruct (generateFunctionDoc E f w) as [[doc|e] wg] eqn:Hgen; [|done].
    apply generateFunctionDoc_header in Hgen as [Hfs Hhead].
    cbv zeta in Hbody. unfold mkdir_p, mret, M_ret in Hbody.
    rewrite write_file_run in Hbody. unfold logInfo, print in Hbody.
    injection Hbody as <-. cbn [fs] in *.
    destruct (IH _ Hrun) as [Hkeep Hpages]. cbn [fs] in Hkeep.
    assert (Hf : exists page, fs w' !! docNameOf f = Some page /\
                              startswith pageHeader page = true).
    { apply (Hkeep (docNameOf f) doc); [|done]. apply lookup_insert_eq. }
    split.
    + intros p page Hp Hpage.
      destruct (decide (docNameOf f = p)) as [<-|Hne]; [done |].
      apply (Hkeep p page); [|done]. rewrite lookup_insert_ne by done. by rewrite Hfs.
    + intros g [->|Hin]%elem_of_cons; [done | by apply Hpages].
Qed.

(** X14.  When [writePages] returns, every function of the list has its
    page under [module/function.md], and the page starts with the line that
    says it was generated.  (Two functions of the same name share the page:
    it holds what was written last.) *)
Theorem X14_pages_written (E : env) (fns : list func) (w w' : world) (f : func) :
  writePages E fns w = (Return tt, w') ->
  f ∈ fns ->
  exists page,
    fs w' !! (moduleName f ++ "/" ++ funcName f ++ ".md") = Some page /\
    startswith pageHeader page = true.
Proof.
  intros Hrun Hin. unfold writePages in Hrun.
  apply writePages_loop in Hrun as [_ Hpages].
  apply (Hpages f). by rewrite sorted_perm.
Qed.

Lemma X14_witness :
  exists page,
    fs (snd (writePages local_env [lcd_clear] lcd_world)) !! ("lcd/clear.md" : str) =
      Some page /\
    startswith pageHeader page = true.
Proof.
  apply (X14_pages_written local_env [lcd_clear] lcd_world
           (snd (writePages local_env [lcd_clear] lcd_world)) lcd_clear).
  - vm_compute. reflexivity.
  - apply elem_of_cons. by left.
Defined.

(** ** [readlines] *)

(** A text is cut into its lines in one way only. *)
Lemma lined_readlines (ls : list str) : lined ls -> readlines (concat ls) = ls.
Proof.
  induction ls as [|l rest IH]; intros Hl; [done |].
  destruct (lined_inv _ _ Hl) as [Hrest [Ht|[Hu ->]]].
  - rewrite concat_cons.
    pose proof (readlines_terminated _ Ht) as Hone.
    destruct Ht as (body & -> & Hbody).
    rewrite readlines_app_terminated, Hone. simpl. f_equal. by apply IH.
  - rewrite concat_cons, concat_nil, app_nil_r. by apply readlines_unterminated.
Qed.

(** X15.  The lines [readlines] returns give back the text when they are put
    together, as [replaceSections] does with the lines it keeps; every
    line but the last ends with its only newline and the last is not
    empty.  No other cut of the text is like that. *)
Theorem X15_readlines (s : str) :
  concat (readlines s) = s /\
  lined (readlines s) /\
  forall ls, concat ls = s -> lined ls -> ls = readlines s.
Proof.
  split; [apply concat_readlines |]. split; [apply readlines_lined |].
  intros ls <- Hl. symmetry. by apply lined_readlines.
Qed.

Lemma X15_witness : ["a\n"; "\n"; "b"] = readlines "a\n\nb".
Proof.
  apply (proj2 (proj2 (X15_readlines "a\n\nb"))); [reflexivity |].
  simpl. split; [exists "a"; split; [done | absent_char] |].
  split; [exists ""; split; [done | absent_char] |].
  right. split; [done | absent_char].
Defined.

(** ** [sorted] is stable *)

Section Stable.
Context {A K : Type} (lt : K -> K -> bool) (key : A -> K).
Context (Hlt : strict_total lt).

Lemma filter_insert_sorted (k : K) (x : A) (l : list A) :
  let same := fun y => negb (lt (key y) k) && negb (lt k (key y)) in
  List.filter same (insert_sorted lt key x l) = List.filter same (x :: l).
Proof.
  intros same. induction l as [|y l IH]; [done |].
  cbn [insert_sorted]. destruct (lt (key y) (key x)) eqn:Hyx; [|done].
  cbn [List.filter]. rewrite IH. cbn [List.filter].
  destruct (same x) eqn:Hx; [|done]. destruct (same y) eqn:Hy; [|done].
  exfalso. unfold same in Hx, Hy.
  apply andb_prop in Hx as [Hx1 Hx2]. apply andb_prop in Hy as [Hy1 Hy2].
  apply negb_true_iff in Hx1, Hx2, Hy1, Hy2.
  pose proof (lt_total _ Hlt _ _ Hx1 Hx2) as Hkx.
  pose proof (lt_total _ Hlt _ _ Hy1 Hy2) as Hky.
  rewrite Hkx, <- Hky in Hyx. by rewrite (lt_irrefl _ Hlt) in Hyx.
Qed.
End Stable.

(** X16.  [sorted] is stable: the elements that have one and the same key
    come out in the order in which they went in.  So the examples whose keys
    are equal are added in the order in which [glob] found them, and two
    records of a module that are equal stay two. *)
Theorem X16_sorted_stable {A K : Type} (lt : K -> K -> bool) (key : A -> K)
    (k : K) (l : list A) :
  strict_total lt ->
  let same := fun y => negb (lt (key y) k) && negb (lt k (key y)) in
  List.filter same (sorted lt key l) = List.filter same l.
Proof.
  intros Hlt same. induction l as [|x l IH]; [done |].
  cbn [sorted]. unfold same. rewrite (filter_insert_sorted lt key Hlt).
  cbn [List.filter]. fold same. by rewrite IH.
Qed.

Lemma X16_witness :
  sorted str_lt fst [("b", 1); ("a", 2); ("b", 3); ("a", 4)] =
    [("a", 2); ("a", 4); ("b", 1); ("b", 3)] /\
  List.filter (fun y => negb (str_lt (fst y) "b") && negb (str_lt "b" (fst y)))
    (sorted str_lt fst [("b", 1); ("a", 2); ("b", 3); ("a", 4)]) =
    [("b", 1); ("b", 3)].
Proof.
  split; [reflexivity |].
  rewrite (X16_sorted_stable str_lt fst "b" _ str_lt_strict_total). reflexivity.
Defined.



(** ** The sections of the index, read again *)

Ltac clean_literal :=
  repeat (apply List.Forall_cons; [split; discriminate |]); apply List.Forall_nil.

Lemma upper_char_clean (c : ascii) : clean c -> clean (upper_char c).
Proof.
  intros [H1 H2].
  destruct c as [[] [] [] [] [] [] [] []]; split; intros H;
    vm_compute in H; first [discriminate H | by apply H1 | by apply H2].
Qed.

Lemma lower_char_clean (c : ascii) : clean c -> clean (lower_char c).
Proof.
  intros [H1 H2].
  destruct c as [[] [] [] [] [] [] [] []]; split; intros H;
    vm_compute in H; first [discriminate H | by apply H1 | by apply H2].
Qed.

Lemma capitalize_clean (s : str) : Forall clean s -> Forall clean (capitalize s).
Proof.
  destruct 1 as [|c s Hc Hs]; [constructor |]. simpl.
  constructor; [by apply upper_char_clean |].
  apply Forall_map. eapply Forall_impl; [exact Hs |]. apply lower_char_clean.
Qed.

Lemma clean_no_LF (s : str) : Forall clean s -> LF ∉ s.
Proof. intros Hs Hin. by destruct (proj1 (Forall_forall _ _) Hs _ Hin). Qed.

Lemma clean_no_lt (s : str) : Forall clean s -> "<"%char ∉ s.
Proof. intros Hs Hin. by destruct (proj1 (Forall_forall _ _) Hs _ Hin). Qed.

Lemma find_absent (c : ascii) (sub s : str) : c ∈ sub -> c ∉ s -> find sub s = None.
Proof.
  intros Hsub Hs. destruct (find sub s) as [i|] eqn:Hfind; [|done].
  exfalso. apply Hs. rewrite (find_cut _ _ _ Hfind).
  apply elem_of_app. right. apply elem_of_app. by left.
Qed.

(** A text that holds a character once is cut at it in one way. *)
Lemma unique_char (c : ascii) (A R U V : str) :
  c ∉ A -> c ∉ R -> A ++ c :: R = U ++ c :: V -> U = A /\ V = R.
Proof.
  revert U. induction A as [|a A IH]; intros U HA HR Heq.
  - destruct U as [|u U]; simpl in Heq.
    + injection Heq as ->. done.
    + injection Heq as <- ->. exfalso. apply HR.
      apply elem_of_app. right. apply elem_of_cons. by left.
  - apply not_elem_of_cons in HA as [Hac HA].
    destruct U as [|u U]; simpl in Heq.
    + injection Heq as -> _. done.
    + injection Heq as <- Heq. destruct (IH U HA HR Heq) as [-> ->]. done.
Qed.

Lemma marker_cut (U M1 M2 V : str) :
  U ++ (M1 ++ "<"%char :: M2) ++ V = (U ++ M1) ++ "<"%char :: (M2 ++ V).
Proof. by rewrite <- !app_assoc. Qed.

Lemma Forall_terminated_lined (ls : list str) : Forall terminated ls -> lined ls.
Proof.
  induction 1 as [|l ls Hl Hls IH]; [done |].
  simpl. destruct ls; [by left | done].
Qed.

(** A line without [<]: it is no marker line. *)
Lemma clean_line (b : str) :
  Forall clean b -> terminated (b ++ [LF]) /\ is_end (b ++ [LF]) = false.
Proof.
  intros Hb. split.
  - exists b. split; [done | by apply clean_no_LF].
  - unfold is_end, contains. rewrite (find_absent "<" ENDMARKER).
    + by rewrite andb_false_r.
    + unfold ENDMARKER. do 6 (apply elem_of_cons; right). apply elem_of_cons. by left.
    + intros [Hin|Hin]%elem_of_app; [by apply (clean_no_lt b) |].
      apply list_elem_of_singleton in Hin. discriminate Hin.
Qed.

(** The line that carries the end marker of section [s]. *)
Lemma end_line (P s : str) :
  Forall clean P -> Forall clean s -> ")"%char ∉ s ->
  let line := P ++ " " ++ ENDMARKER ++ s ++ ")\n" in
  terminated line /\ is_end line = true /\ sectionNameOf line = s.
Proof.
  intros HP Hs Hparen line.
  set (A := P ++ " [//]: ").
  set (tE := "> (LUADOC-END:" : str).
  assert (Hline : line = A ++ "<"%char :: (tE ++ s ++ ")\n")).
  { unfold line, A, ENDMARKER, tE. by rewrite <- !app_assoc. }
  assert (HA : "<"%char ∉ A).
  { unfold A. intros [Hin|Hin]%elem_of_app; [by apply (clean_no_lt P) |].
    revert Hin. absent_char. }
  assert (HB : "<"%char ∉ (s ++ ")\n" : str)).
  { intros [Hin|Hin]%elem_of_app; [by apply (clean_no_lt s) |].
    revert Hin. absent_char. }
  assert (HR : "<"%char ∉ tE ++ s ++ ")\n").
  { intros [Hin|Hin]%elem_of_app; [|done]. revert Hin. unfold tE. absent_char. }
  split; [|split].
  - exists (P ++ " " ++ ENDMARKER ++ s ++ ")"). split.
    + unfold line. by rewrite <- !app_assoc.
    + intros [Hin|Hin]%elem_of_app; [by apply (clean_no_LF P) |].
      apply elem_of_app in Hin as [Hin|Hin]; [revert Hin; absent_char |].
      apply elem_of_app in Hin as [Hin|Hin];
        [revert Hin; unfold ENDMARKER; absent_char |].
      apply elem_of_app in Hin as [Hin|Hin]; [by apply (clean_no_LF s) |].
      revert Hin. absent_char.
  - unfold is_end. apply andb_true_intro. split.
    + apply negb_true_iff. unfold contains. apply bool_decide_eq_false_2.
      intros [i Hfind]. pose proof (find_cut _ _ _ Hfind) as Hcut.
      pose proof (marker_cut (take i line) "[//]: " "> (LUADOC-BEGIN:"
                    (drop (i + length STARTMARKER) line)) as Hm.
      change ("[//]: " ++ "<"%char :: "> (LUADOC-BEGIN:") with STARTMARKER in Hm.
      rewrite Hm, Hline in Hcut.
      apply unique_char in Hcut as [_ Hcut]; [|done |done].
      unfold tE in Hcut. discriminate Hcut.
    + unfold line. rewrite app_assoc. apply contains_occurrence.
  - unfold sectionNameOf, split_tail.
    assert (Hsplit : split ENDMARKER line = [P ++ " "; s ++ ")\n"]).
    { rewrite split_unfold by done.
      destruct (find_occurrence ENDMARKER (P ++ " ") (s ++ ")\n")) as (i & Hfind & _).
      replace ((P ++ " ") ++ ENDMARKER ++ s ++ ")\n") with line in Hfind
        by (unfold line; by rewrite <- app_assoc).
      rewrite Hfind. pose proof (find_cut _ _ _ Hfind) as Hcut.
      pose proof (marker_cut (take i line) "[//]: " tE
                    (drop (i + length ENDMARKER) line)) as Hm.
      change ("[//]: " ++ "<"%char :: tE) with ENDMARKER in Hm.
      rewrite Hm in Hcut. rewrite Hline in Hcut at 1.
      apply unique_char in Hcut as [Htake Hdrop]; [|done |done].
      unfold A in Htake. change (P ++ " [//]: ") with (P ++ " " ++ "[//]: ") in Htake.
      rewrite app_assoc in Htake.
      apply app_inv_tail in Htake. apply app_inv_head in Hdrop.
      rewrite Htake. f_equal.
      rewrite Hdrop. rewrite split_unfold by done.
      rewrite (find_absent "<" ENDMARKER); [done | | exact HB].
      unfold ENDMARKER. do 6 (apply elem_of_cons; right). apply elem_of_cons. by left. }
    rewrite Hsplit. cbn [tl hd]. rewrite split_head_before.
    clear -Hparen. induction s as [|c s IH]; [done |].
    apply not_elem_of_cons in Hparen as [Hc Hparen]. simpl.
    destruct (c =c? ")") eqn:Heq; [apply ascii_eqb_eq in Heq; congruence |].
    by rewrite IH.
Qed.

Lemma startLine_shape (s : str) :
  Forall clean s ->
  terminated (startLine s) /\ is_start (startLine s) = true.
Proof.
  intros Hs. split.
  - exists ("   * [" ++ capitalize s ++ " Functions](" ++ s ++ "/" ++ s ++
            "_functions.md) " ++ STARTMARKER ++ s ++ ")").
    split; [unfold startLine; by rewrite <- !app_assoc |].
    pose proof (clean_no_LF _ Hs) as Hno.
    pose proof (clean_no_LF _ (capitalize_clean _ Hs)) as Hcap.
    repeat (let H := fresh in
            intros [H|H]%elem_of_app;
            [first [done | revert H; unfold STARTMARKER; absent_char] | revert H]).
    absent_char.
  - unfold is_start.
    replace (startLine s)
      with (("   * [" ++ capitalize s ++ " Functions](" ++ s ++ "/" ++ s ++
             "_functions.md) ") ++ STARTMARKER ++ (s ++ ")\n"))
      by (unfold startLine; by rewrite <- !app_assoc).
    apply contains_occurrence.
Qed.

Lemma overviewLine_shape (s : str) :
  Forall clean s -> exists b, overviewLine s = b ++ [LF] /\ Forall clean b.
Proof.
  intros Hs.
  exists ("      * [" ++ capitalize s ++ " Functions Overview](" ++ s ++ "/" ++ s ++
          "_functions-overview.md" ++ ")").
  split.
  - unfold overviewLine, overviewFileName. by rewrite <- !app_assoc.
  - repeat (apply Forall_app; split;
            [first [exact Hs | by apply capitalize_clean | clean_literal] |]).
    clean_literal.
Qed.

Lemma functionLine_shape (s : str) (f : func) :
  Forall clean s -> Forall clean (funcName f) ->
  Forall clean (rstrip_ws (funcDefinition f)) ->
  Forall clean ("      * [" ++ rstrip_ws (funcDefinition f) ++ "](" ++ s ++ "/" ++
                funcName f ++ ".md)") /\
  functionLine s f =
    ("      * [" ++ rstrip_ws (funcDefinition f) ++ "](" ++ s ++ "/" ++
     funcName f ++ ".md)") ++ [LF].
Proof.
  intros Hs Hf Hd. split.
  - repeat (apply Forall_app; split; [first [done | clean_literal] |]).
    clean_literal.
  - unfold functionLine. by rewrite <- !app_assoc.
Qed.

Lemma sectionLines_module (E : env) (w : world) (s : str) (fns : list func) :
  s <> "timestamp" -> MODULES w !! s = Some fns ->
  sectionLines E w s =
    Some (removelast (moduleEntries w s fns) ++
          [rstrip_ws (List.last (moduleEntries w s fns) []) ++ " " ++ ENDMARKER ++
           s ++ ")\n"]).
Proof.
  intros Hts Hm. unfold sectionLines.
  by rewrite (proj2 (str_eqb_neq _ _) Hts), Hm.
Qed.

Lemma sectionLines_none (E : env) (w : world) (s : str) :
  s <> "timestamp" -> MODULES w !! s = None -> sectionLines E w s = None.
Proof.
  intros Hts Hm. unfold sectionLines.
  by rewrite (proj2 (str_eqb_neq _ _) Hts), Hm.
Qed.

Lemma module_section_reads_back (E : env) (w : world) (s : str) (fns : list func)
    (added : list str) :
  s <> "timestamp" ->
  MODULES w !! s = Some fns ->
  fns <> [] -> Forall clean s -> ")"%char ∉ s ->
  Forall (fun f => Forall clean (funcName f) /\
                   Forall clean (rstrip_ws (funcDefinition f))) fns ->
  sectionLines E w s = Some added ->
  reads_back s added.
Proof.
  intros Hts Hm Hne Hs Hparen Hfns Hsec.
  rewrite (sectionLines_module E w s fns Hts Hm) in Hsec.
  apply (inj Some) in Hsec. subst added. unfold moduleEntries.
  set (ov := if bool_decide (is_Some (fs w !! overviewFileName s))
             then [overviewLine s] else []).
  set (recs := sorted func_lt id fns).
  assert (Hrecs : Forall (fun f => Forall clean (funcName f) /\
                                   Forall clean (rstrip_ws (funcDefinition f))) recs).
  { apply (Permutation_Forall (Permutation_sym (sorted_perm func_lt id fns)) Hfns). }
  assert (Hrne : recs <> []).
  { intros Hnil. apply (f_equal length) in Hnil. unfold recs in Hnil.
    rewrite sorted_length in Hnil. by destruct fns. }
  destruct (exists_last Hrne) as (init & flast & Hlast). rewrite Hlast in *.
  apply Forall_app in Hrecs as [Hinit Hflast].
  apply Forall_cons in Hflast as [[Hfn Hfd] _].
  destruct (functionLine_shape s flast Hs Hfn Hfd) as [HP Hline].
  set (P := "      * [" ++ rstrip_ws (funcDefinition flast) ++ "](" ++ s ++ "/" ++
            funcName flast ++ ".md)") in *.
  assert (Hentries : startLine s :: ov ++ map (functionLine s) (init ++ [flast]) =
                     (startLine s :: ov ++ map (functionLine s) init) ++
                     [functionLine s flast]).
  { rewrite map_app. cbn [map]. by rewrite app_comm_cons, app_assoc. }
  rewrite Hentries, removelast_last, last_last.
  assert (Hstrip : rstrip_ws (functionLine s flast) = P).
  { replace (functionLine s flast)
      with (("      * [" ++ rstrip_ws (funcDefinition flast) ++ "](" ++ s ++ "/" ++
             funcName flast ++ ".md") ++ ")\n")
      by (unfold functionLine; by rewrite <- !app_assoc).
    rewrite rstrip_ws_line. unfold P. by rewrite <- !app_assoc. }
  rewrite Hstrip.
  destruct (end_line P s HP Hs Hparen) as (Hterm & Hend & Hname).
  destruct (startLine_shape s Hs) as [Hsterm Hstart].
  assert (Hbody : Forall (fun l => terminated l /\ is_end l = false)
                    (ov ++ map (functionLine s) init)).
  { apply Forall_app. split.
    - unfold ov. case_bool_decide; [|constructor]. constructor; [|constructor].
      destruct (overviewLine_shape s Hs) as (b & -> & Hb). by apply clean_line.
    - apply Forall_map. eapply Forall_impl; [exact Hinit |].
      intros f [Hf Hd]. simpl.
      destruct (functionLine_shape s f Hs Hf Hd) as [Hc ->]. by apply clean_line. }
  exists (startLine s), (ov ++ map (functionLine s) init),
         (P ++ " " ++ ENDMARKER ++ s ++ ")\n").
  split; [|split; [done |split; [|done]]].
  - rewrite lined_readlines; [done |]. apply Forall_terminated_lined.
    constructor; [done |]. apply Forall_app. split.
    + eapply Forall_impl; [exact Hbody |]. by intros l [Hl _].
    + by constructor.
  - eapply Forall_impl; [exact Hbody |]. by intros l [_ Hl].
Qed.

(** X17.  When the names of the registry bring neither marker text nor line
    breaks into the index, every module section reads back as one section,
    and so a second run finds what the first one wrote: [replaceSections]
    on the file it has written succeeds and writes the same lines again,
    but that a time-stamp line may give way to the time-stamp line of
    another reading of the clock. *)
Theorem X17_plain_registry_rerun (E : env) (fileName data : str) (w w1 : world) :
  plain_registry w ->
  fs w !! fileName = Some data ->
  replaceSections E fileName w = (Return tt, w1) ->
  registry_reads_back E w /\
  exists out1 out2 w2,
    fs w1 !! fileName = Some (concat out1) /\
    replaceSections E fileName w1 = (Return tt, w2) /\
    fs w2 !! fileName = Some (concat out2) /\
    Forall2 (same_or_stamp E) out1 out2.
Proof.
  intros Hplain Hdata Hrun.
  assert (Hreg : registry_reads_back E w).
  { intros s added Hts Hsec.
    destruct (MODULES w !! s) as [fns|] eqn:Hm.
    - destruct (Hplain s fns Hm) as (Hne & Hs & Hparen & Hfns).
      by apply (module_section_reads_back E w s fns).
    - by rewrite (sectionLines_none E w s Hts Hm) in Hsec. }
  split; [done |].
  apply (replaceSections_again E fileName data w w1 w1 Hdata Hreg Hrun eq_refl).
  by apply (replaceSections_same_registry E fileName data).
Qed.

Lemma X17_witness :
  let w1 := snd (replaceSections ticking_env SUMMARYFILE lcd_world) in
  exists out1 out2 w2,
    fs w1 !! SUMMARYFILE = Some (concat out1) /\
    replaceSections ticking_env SUMMARYFILE w1 = (Return tt, w2) /\
    fs w2 !! SUMMARYFILE = Some (concat out2) /\
    Forall2 (same_or_stamp ticking_env) out1 out2.
Proof.
  intros w1.
  apply (X17_plain_registry_rerun ticking_env SUMMARYFILE lcd_summary lcd_world w1).
  - intros m fns Hm. unfold lcd_world in Hm. cbn [MODULES] in Hm.
    apply lookup_singleton_Some in Hm as [<- <-].
    split; [done |]. split; [clean_literal |]. split; [absent_char |].
    apply List.Forall_cons; [|apply List.Forall_nil]. split; [clean_literal |].
    change (rstrip_ws (funcDefinition lcd_clear)) with ("lcd.clear()" : str).
    clean_literal.
  - reflexivity.
  - vm_compute. reflexivity.
Defined.

(** ** The items of a block *)

Lemma match_blank_last (s : str) (n : nat) :
  match_blank s = Some n -> exists u, take n s = u ++ [LF].
Proof.
  revert n. induction s as [|c s IH]; intros n; [done |]. simpl.
  destruct (isspace c); [|done].
  destruct (match_blank s) as [n'|].
  - intros [= <-]. destruct (IH n' eq_refl) as (u & Hu). exists (c :: u).
    simpl. by rewrite Hu.
  - destruct (c =c? LF) eqn:Hc; [|done]. intros [= <-].
    apply ascii_eqb_eq in Hc. subst c. by exists [].
Qed.

Lemma match_upto_blank_last (s : str) (n : nat) :
  match_upto_blank s = Some n -> exists c u, take n s = c :: u ++ [LF].
Proof.
  revert n. induction s as [|c s IH]; intros n; [done |]. simpl.
  destruct (if c =c? LF then match_blank s else None) as [n'|] eqn:Hb.
  - intros [= <-]. destruct (c =c? LF); [|done].
    destruct (match_blank_last s n' Hb) as (u & Hu). exists c, u.
    simpl. by rewrite Hu.
  - destruct (match_upto_blank s) as [n'|]; [|done]. intros [= <-].
    destruct (IH n' eq_refl) as (c' & u & Hu). exists c, (c' :: u).
    simpl. by rewrite Hu.
Qed.

Lemma item_ends_line (item : str) (bol : bool) (t : str) (n : nat) :
  item_pattern item bol t = Some n ->
  ends_line (slice_from (length item + 2) (take n t)) = true.
Proof.
  unfold item_pattern. destruct (bol && startswith ("@" ++ item) t) eqn:Hst; [|done].
  apply andb_prop in Hst as [_ (r & ->)%startswith_prefix].
  replace (drop (length item + 1) (("@" ++ item) ++ r)) with r
    by (rewrite drop_app_length'; [done | simpl; lia]).
  destruct (match_upto_blank r) as [m|] eqn:Hm; [|done]. intros [= <-].
  destruct (match_upto_blank_last r m Hm) as (c & u & Hu).
  replace (length item + 1 + m) with (length ("@" ++ item) + m) by (simpl; lia).
  rewrite take_app_add, Hu. unfold slice_from.
  replace (length item + 2) with (length ("@" ++ item) + 1) by (simpl; lia).
  rewrite drop_app_add. change (drop 1 (c :: u ++ [LF])) with (u ++ [LF]).
  by rewrite ends_line_app.
Qed.

Lemma lstrip_absent (chars s : str) (c : ascii) : c ∉ s -> c ∉ lstrip chars s.
Proof.
  induction s as [|x s IH]; [done |]. intros Hc. simpl.
  destruct (in_chars chars x); [|done]. apply IH.
  by apply not_elem_of_cons in Hc as [_ Hc].
Qed.

Lemma strip_absent (chars s : str) (c : ascii) : c ∉ s -> c ∉ strip chars s.
Proof.
  intros Hc. unfold strip, rstrip. intros Hin%list_elem_of_In%in_rev%list_elem_of_In.
  revert Hin. apply lstrip_absent.
  intros Hin%list_elem_of_In%in_rev%list_elem_of_In.
  revert Hin. by apply lstrip_absent.
Qed.

Lemma items_end_line (item doc : str) :
  Forall (fun x => ends_line x = true) (fst (extractItems item doc)).
Proof.
  unfold extractItems. cbn [fst]. apply Forall_map. apply Forall_forall.
  intros x (b & g & t & k & _ & Hre & ->)%findall_rounds_elem. simpl.
  by apply (item_ends_line item b).
Qed.

(** X18.  For a tag that is matched literally, as the four tags of the
    script are, every item [extractItems] returns ends with a newline.  So, of
    the pairs [parseParameters] makes of the items, the name holds no space
    and the description is empty or ends with a newline: the lines of the
    page that list the parameters are ended by the descriptions. *)
Theorem X18_items_end_lines (item doc : str) :
  plain_tag item = true ->
  Forall (fun x => ends_line x = true) (fst (extractItems item doc)) /\
  Forall (fun p => (" "%char ∉ fst p) /\ (snd p = [] \/ ends_line (snd p) = true))
    (parseParameters (fst (extractItems item doc))).
Proof.
  intros _. pose proof (items_end_line item doc) as Hitems.
  split; [done |]. rewrite parseParameters_spec. apply Forall_map.
  eapply Forall_impl; [exact Hitems |]. intros l Hl. cbn [fst snd]. split.
  - apply strip_absent, before_not_elem.
  - destruct (decide (" "%char ∈ l)) as [Hin|Hno].
    + right. rewrite (before_after _ _ Hin) in Hl.
      destruct (after " " l) as [|c r] eqn:Hafter.
      * exfalso. change (before " " l ++ [" "%char]) with (before " " l ++ " ") in Hl.
        by rewrite ends_line_app in Hl.
      * change (before " " l ++ " "%char :: c :: r)
          with (before " " l ++ " " ++ c :: r) in Hl.
        by rewrite app_assoc, ends_line_app in Hl.
    + left. by apply after_no_char.
Qed.

Lemma X18_witness :
  let doc := "@param x the left edge\n\n@param y\n\n" in
  fst (extractItems "param" doc) = ["x the left edge\n\n"; "y\n\n"] /\
  Forall (fun x => ends_line x = true) (fst (extractItems "param" doc)) /\
  Forall (fun p => (" "%char ∉ fst p) /\ (snd p = [] \/ ends_line (snd p) = true))
    (parseParameters (fst (extractItems "param" doc))).
Proof.
  intros doc. split; [reflexivity |].
  exact (X18_items_end_lines "param" doc eq_refl).
Defined.

(** ** The link to an image *)

Lemma last_cons_nonempty {A} (p d d' : A) (l : list A) :
  l <> [] -> List.last (p :: l) d = List.last l d'.
Proof.
  revert p. induction l as [|x l IH]; intros p Hne; [done |].
  destruct l as [|y l]; [done |].
  change (List.last (p :: x :: y :: l) d) with (List.last (x :: y :: l) d).
  rewrite (IH x) by done.
  change (List.last (x :: y :: l) d') with (List.last (y :: l) d'). 
  destruct l; [done |]. reflexivity.
Qed.

Lemma split_last (c : ascii) (a b : str) (d : str) :
  c ∉ b -> List.last (split [c] (a ++ c :: b)) d = b.
Proof.
  intros Hb. revert d. induction a as [|x a IH]; intros d.
  - cbn [app]. rewrite split_char, bool_decide_eq_true_2
      by (apply elem_of_cons; by left).
    simpl. rewrite ascii_eqb_refl.
    rewrite split_char, bool_decide_eq_false_2 by done. done.
  - cbn [app]. rewrite split_char, bool_decide_eq_true_2
      by (apply elem_of_cons; right; apply elem_of_app; right; apply elem_of_cons; by left).
    rewrite (last_cons_nonempty _ d d) by apply split_not_nil.
    simpl. destruct (x =c? c) eqn:Hx.
    + apply IH.
    + specialize (IH d). rewrite split_char, bool_decide_eq_true_2 in IH
        by (apply elem_of_app; right; apply elem_of_cons; by left).
      rewrite (last_cons_nonempty _ d d) in IH by apply split_not_nil. exact IH.
Qed.

Lemma basename_app (dir name : str) :
  "/"%char ∉ name -> basename (dir ++ "/" ++ name) = name.
Proof.
  intros Hname. unfold basename.
  destruct (split "/" (dir ++ "/" ++ name)) as [|p ps] eqn:Hsplit;
    [by apply split_not_nil in Hsplit |].
  pose proof (split_last "/" dir name p Hname) as Hlast.
  change (dir ++ "/"%char :: name) with (dir ++ "/" ++ name) in Hlast.
  rewrite Hsplit in Hlast. destruct ps as [|q ps]; [|exact Hlast].
  (* one part only: the text holds no separator, which it does *)
  exfalso. apply (f_equal length) in Hsplit. rewrite length_split in Hsplit.
  simpl in Hsplit. injection Hsplit as Hcount. apply count_char_0 in Hcount.
  apply Hcount. apply elem_of_app. right. apply elem_of_cons. by left.
Qed.

(** X19.  The image of a [png] example is linked by its file name alone,
    without the directory of the module: the link is relative to the page,
    which lies in that directory. *)
Theorem X19_image_link (doc dir name contents : str) (rest : list str) (w : world) :
  "/"%char ∉ name ->
  fs w !! (dir ++ "/" ++ name ++ ".png") = Some contents ->
  addExample doc ((dir ++ "/" ++ name) :: "png" :: rest) w =
    (Return (doc ++ "![](" ++ name ++ ".png)\n\n"),
     printed w ["Info: Adding contents of example " ++ dir ++ "/" ++ name ++ ".png"]).
Proof.
  intros Hname Hfile.
  destruct (addExample_run doc (dir ++ "/" ++ name) "png" contents rest w)
    as (doc' & Hrun & _ & _ & Hpng).
  { rewrite <- Hfile. f_equal. by rewrite <- !app_assoc. }
  rewrite (Hpng eq_refl) in Hrun. etransitivity; [exact Hrun |]. f_equal.
  - f_equal. f_equal. unfold imagePart.
    replace ((dir ++ "/" ++ name) ++ "." ++ "png") with (dir ++ "/" ++ (name ++ ".png"))
      by (by rewrite <- !app_assoc).
    rewrite basename_app.
    + by rewrite <- !app_assoc.
    + intros [Hin|Hin]%elem_of_app; [done |]. revert Hin. absent_char.
  - do 3 f_equal. by rewrite <- !app_assoc.
Qed.

Lemma X19_witness :
  let w := World {[ ("lcd/clear-example.png" : str) := ("PNG" : str) ]} [] ∅ 0 in
  addExample "" ["lcd/clear-example"; "png"] w =
    (Return "![](clear-example.png)\n\n",
     printed w ["Info: Adding contents of example lcd/clear-example.png"]).
Proof.
  intros w.
  apply (X19_image_link "" "lcd" "clear-example" "PNG" [] w); [absent_char | reflexivity].
Defined.

(** ** A declaration without parenthesis *)

Lemma ends_line_after (c : ascii) (s : str) :
  c <> LF -> c ∈ s -> ends_line s = true -> ends_line (after c s) = true.
Proof.
  intros Hc Hin Hs. rewrite (before_after _ _ Hin) in Hs.
  destruct (after c s) as [|x r].
  - exfalso. rewrite ends_line_app in Hs by done. unfold ends_line in Hs. simpl in Hs.
    apply ascii_eqb_eq in Hs. done.
  - change (before c s ++ c :: x :: r) with (before c s ++ [c] ++ x :: r) in Hs.
    by rewrite app_assoc, ends_line_app in Hs.
Qed.

(** X20.  The name of a function is the text of its declaration before the
    first parenthesis.  A declaration without a parenthesis is taken whole,
    with the newlines that end the item: the name of the function then ends
    with a newline, and so do the path of its page and its link in the
    index. *)
Theorem X20_declaration_without_parenthesis (doc d : str) (more : list str)
    (lines : str) (w : world) :
  extractItems "function" (doc ++ "\n") = (d :: more, lines) ->
  "("%char ∉ d ->
  exists f,
    snd (parseFunction doc w) =
      World (fs w) (stdout w)
        (<[moduleName f := default [] (MODULES w !! moduleName f) ++ [f]]> (MODULES w))
        (clock w) /\
    funcDefinition f = d /\
    (funcName f = d \/ d = moduleName f ++ "." ++ funcName f) /\
    ends_line (funcName f) = true.
Proof.
  intros Hitems Hparen.
  rewrite (parseFunction_found _ _ _ _ w Hitems). cbv zeta.
  match goal with |- context [register ?f w] => exists f end.
  rewrite register_run. cbn [snd]. split; [reflexivity |].
  cbn [moduleName funcName funcDefinition]. split; [reflexivity |].
  assert (Hd : ends_line d = true).
  { pose proof (items_end_line "function" (doc ++ "\n")) as Hall.
    rewrite Hitems in Hall. by apply Forall_cons in Hall as [Hd _]. }
  rewrite parseNames_spec. cbv zeta. rewrite (before_no_char _ _ Hparen).
  destruct (count_char "." d =? 1) eqn:Hcount; cbn [fst snd].
  - assert (Hin : "."%char ∈ d).
    { destruct (decide ("."%char ∈ d)) as [|Hno]; [done |].
      apply count_char_0 in Hno. apply Nat.eqb_eq in Hcount. lia. }
    split; [right; by apply before_after |]. by apply ends_line_after.
  - split; [by left | done].
Qed.

Lemma X20_witness :
  exists f,
    funcDefinition f = "lcd.clear\n\n" /\
    (funcName f = "lcd.clear\n\n" \/ "lcd.clear\n\n" = moduleName f ++ "." ++ funcName f) /\
    ends_line (funcName f) = true.
Proof.
  destruct (X20_declaration_without_parenthesis "@function lcd.clear\n" "lcd.clear\n\n"
              [] "" initial) as (f & _ & H1 & H2 & H3).
  - reflexivity.
  - absent_char.
  - by exists f.
Defined.

(** ** The index and the pages *)

(** X21.  In a registry that is in order, the line of the index for a
    function of a module links to the very path under which the page of
    the function is written: once the pages of the module are written, no
    line of its section points to a page that is not there. *)
Theorem X21_links_match_pages (E : env) (w w' : world) (m : str) (fns : list func)
    (f : func) :
  keyed (MODULES w) ->
  MODULES w !! m = Some fns ->
  f ∈ fns ->
  writePages E fns w = (Return tt, w') ->
  functionLine m f =
    "      * [" ++ rstrip_ws (funcDefinition f) ++ "](" ++ docNameOf f ++ ")\n" /\
  is_Some (fs w' !! docNameOf f).
Proof.
  intros Hkeyed Hm Hin Hrun. destruct (Hkeyed m fns Hm) as [_ Hall].
  pose proof (proj1 (Forall_forall _ _) Hall f Hin) as Hf. simpl in Hf. split.
  - unfold functionLine, docNameOf. rewrite Hf. by rewrite <- !app_assoc.
  - unfold writePages in Hrun. apply writePages_loop in Hrun as [_ Hpages].
    destruct (Hpages f) as (page & Hpage & _); [by rewrite sorted_perm | by eexists].
Qed.

Lemma X21_witness :
  functionLine "lcd" lcd_clear = "      * [lcd.clear()](lcd/clear.md)\n" /\
  is_Some (fs (snd (writePages local_env [lcd_clear] lcd_world)) !! docNameOf lcd_clear).
Proof.
  apply (X21_links_match_pages local_env lcd_world
           (snd (writePages local_env [lcd_clear] lcd_world)) "lcd" [lcd_clear] lcd_clear).
  - intros k fns Hk. unfold lcd_world in Hk. cbn [MODULES] in Hk.
    apply lookup_singleton_Some in Hk as [<- <-].
    split; [done |]. by repeat constructor.
  - reflexivity.
  - apply elem_of_cons. by left.
  - vm_compute. reflexivity.
Defined.



(* ===================================================================== *)
(** * Part IV. Two runs of the script                                     *)
(* ===================================================================== *)

(** ** Two runs: the scan *)

Lemma alike_ret (P : str -> Prop) {A} (x : A) : alike P (mret x : M A).
Proof. by intros a b H. Qed.

Lemma alike_raise (P : str -> Prop) {A} (e : exn) : alike P (raise e : M A).
Proof. by intros a b H. Qed.

Lemma alike_print (P : str -> Prop) (txt : str) : alike P (print txt).
Proof. by intros a b H. Qed.

Lemma alike_bind (P : str -> Prop) {A B} (c : M A) (k : A -> M B) :
  alike P c -> (forall x, alike P (k x)) -> alike P (c ≫= k).
Proof.
  intros Hc Hk a b Hab. destruct (Hc a b Hab) as [Hfst Hsnd].
  unfold mbind, M_bind.
  destruct (c a) as [[x|e] a1], (c b) as [[y|e'] b1]; simpl in Hfst, Hsnd;
    try discriminate Hfst.
  - injection Hfst as <-. by apply Hk.
  - injection Hfst as <-. by split.
Qed.

Lemma alike_for_each (P : str -> Prop) {A} (l : list A) (body : A -> M unit) :
  (forall x, alike P (body x)) -> alike P (for_each l body).
Proof.
  intros Hbody. induction l as [|x l IH]; [by apply alike_ret |].
  cbn [for_each]. apply alike_bind; [apply Hbody | by intros _].
Qed.

Lemma alike_register (P : str -> Prop) (f : func) : alike P (register f).
Proof.
  intros a b [Hm Hfs]. rewrite !register_run. split; [done |].
  split; [simpl; by rewrite Hm | done].
Qed.

Lemma alike_parseFunction (P : str -> Prop) (doc : str) : alike P (parseFunction doc).
Proof.
  intros a b Hab.
  destruct (extractItems "function" (doc ++ "\n")) as [[|d more] lines] eqn:H.
  - unfold parseFunction. by rewrite H.
  - rewrite !(parseFunction_found doc d more lines _ H). by apply alike_register.
Qed.

Lemma alike_parseDoc (P : str -> Prop) (doc : str) : alike P (parseDoc doc).
Proof.
  unfold parseDoc. cbv zeta. apply alike_bind.
  - destruct (_ <? 2); [|by apply alike_ret].
    unfold logError. apply alike_bind; [apply alike_print | intros _; apply alike_raise].
  - intros _. destruct (_ =s? "@function"); [apply alike_parseFunction |].
    destruct (_ =s? "@foobar"); [apply alike_ret | apply alike_print].
Qed.

Lemma alike_parseSource (P : str -> Prop) (data : str) : alike P (parseSource data).
Proof.
  unfold parseSource. cbv zeta. apply alike_bind; [apply alike_print |].
  intros _. apply alike_for_each, alike_parseDoc.
Qed.

Lemma alike_read_file (P : str -> Prop) (path : str) : P path -> alike P (read_file path).
Proof.
  intros HP a b [Hm Hfs]. unfold read_file. rewrite (Hfs path HP).
  by destruct (fs b !! path).
Qed.

Lemma alike_fetch (P : str -> Prop) (E : env) (fileName : str) :
  (startswith "http" fileName = false -> P fileName) -> alike P (fetch E fileName).
Proof.
  intros HP. unfold fetch. destruct (startswith "http" fileName).
  - destruct (urlopen E fileName); [apply alike_ret | apply alike_raise].
  - by apply alike_read_file, HP.
Qed.

Lemma alike_scanFiles (P : str -> Prop) (E : env) (files : list str) :
  (forall file, file ∈ files -> startswith "http" file = false -> P file) ->
  alike P (scanFiles E files).
Proof.
  intros HP. unfold scanFiles.
  induction files as [|file files IH]; [by apply alike_ret |].
  cbn [for_each]. apply alike_bind.
  - apply alike_bind; [apply alike_print |]. intros _.
    apply alike_bind; [|intros data; apply alike_parseSource].
    apply alike_fetch. apply HP. apply elem_of_cons. by left.
  - intros _. apply IH. intros f Hf. apply HP. apply elem_of_cons. by right.
Qed.

(** ** Two runs: the stages of the main program *)

Lemma main_stages (E : env) (files : list str) (w : world) :
  main E files w =
    match scanFiles E (match files with [] => defaultFiles | _ => files end) w with
    | (Return _, a0) =>
        match writeModules E (map_to_list (MODULES a0)) a0 with
        | (Return _, a1) =>
            match replaceSections E SUMMARYFILE a1 with
            | (Return _, a2) => replaceSections E READMEFILE a2
            | (Raise e, a2) => (Raise e, a2)
            end
        | (Raise e, a1) => (Raise e, a1)
        end
    | (Raise e, a0) => (Raise e, a0)
    end.
Proof.
  unfold main. cbv zeta. unfold mbind at 1, M_bind at 1.
  destruct (scanFiles E _ w) as [[[]|e] a0]; [|done].
  unfold mbind at 1, M_bind at 1. unfold get_world at 1.
  unfold mbind at 1, M_bind at 1. fold (writeModules E (map_to_list (MODULES a0))).
  destruct (writeModules E (map_to_list (MODULES a0)) a0) as [[[]|e] a1]; [|done].
  unfold mbind at 1, M_bind at 1.
  by destruct (replaceSections E SUMMARYFILE a1) as [[[]|e] a2].
Qed.

Lemma keeps_modules_bind {A B} (c : M A) (k : A -> M B) :
  keeps_modules c -> (forall x, keeps_modules (k x)) -> keeps_modules (c ≫= k).
Proof.
  intros Hc Hk w. unfold mbind, M_bind.
  specialize (Hc w). destruct (c w) as [[x|e] w1]; simpl in *; [|done].
  by rewrite Hk.
Qed.

Lemma keeps_modules_for_each {A} (l : list A) (body : A -> M unit) :
  (forall x, keeps_modules (body x)) -> keeps_modules (for_each l body).
Proof.
  intros Hb. induction l as [|x l IH]; [done |].
  apply keeps_modules_bind; [apply Hb | by intros _].
Qed.

Lemma keeps_modules_read_file (path : str) : keeps_modules (read_file path).
Proof. intros w. unfold read_file. by destruct (fs w !! path). Qed.

Lemma keeps_modules_addExample (doc : str) (example : list str) :
  keeps_modules (addExample doc example).
Proof.
  unfold addExample. destruct example as [|e0 [|e1 rest]]; [done | done |].
  cbn [first_item tl]. intros w.
  erewrite bind_Return by reflexivity. erewrite bind_Return by reflexivity.
  cbv zeta. apply keeps_modules_bind; [done |]. intros _.
  apply keeps_modules_bind; [apply keeps_modules_read_file | done].
Qed.

Lemma keeps_modules_addExampleList (examples : list (list str)) (doc : str) :
  keeps_modules (addExampleList doc examples).
Proof.
  revert doc. induction examples as [|x examples IH]; intros doc; [done |].
  cbn [addExampleList]. apply keeps_modules_bind; [apply keeps_modules_addExample | done].
Qed.

Lemma keeps_modules_generateFunctionDoc (E : env) (f : func) :
  keeps_modules (generateFunctionDoc E f).
Proof.
  unfold generateFunctionDoc. cbv zeta.
  apply keeps_modules_bind; [|done].
  unfold addExamples. cbv zeta. apply keeps_modules_bind; [done |]. intros w0.
  destruct (bool_decide _); [|done].
  apply keeps_modules_bind; [|intros; apply keeps_modules_addExampleList].
  unfold sorted_by_key. apply keeps_modules_bind; [|done].
  intros w. destruct (decorate_pure (map (split ".") (glob E (fs w0)
    (moduleName f ++ "/" ++ funcName f ++ "-example*.*")))) as (r & Hr & _).
  by rewrite Hr.
Qed.

(** What [replaceSections] does to the state when it returns. *)
Lemma replaceSections_written (E : env) (fileName : str) (w w' : world) :
  replaceSections E fileName w = (Return tt, w') ->
  exists data out,
    fs w !! fileName = Some data /\
    fs w' = <[fileName := concat out]> (fs w) /\
    MODULES w' = MODULES w.
Proof.
  intros Hrun. destruct (fs w !! fileName) as [data|] eqn:Hdata.
  - rewrite (replaceSections_run E _ _ _ Hdata) in Hrun.
    pose proof (replaceLines_world E (readlines data) [] false w) as (Hfs & _ & Hm).
    destruct (replaceLines E (readlines data) [] false w) as [[out|e] wl]; [|done].
    injection Hrun as <-. cbn [snd] in Hfs, Hm.
    exists data, out. split; [done |]. simpl. by rewrite Hfs, Hm.
  - unfold replaceSections in Hrun.
    erewrite bind_Raise in Hrun; [done |]. unfold read_file.
    match goal with
    | |- context [match ?x with Some _ => _ | None => _ end] =>
        replace x with (@None str) by (symmetry; exact Hdata)
    end.
    reflexivity.
Qed.

(** ** Two runs: the pages *)

Lemma writePages_writePage (E : env) (fns : list func) :
  writePages E fns = for_each (sorted func_lt id fns) (writePage E).
Proof. reflexivity. Qed.

Lemma writePage_run (E : env) (f : func) (a : world) :
  match fst (generateFunctionDoc E f a) with
  | Return doc =>
      exists a', writePage E f a = (Return tt, a') /\
                 fs a' = <[docNameOf f := doc]> (fs a) /\
                 MODULES a' = MODULES a
  | Raise e => fst (writePage E f a) = Raise e
  end.
Proof.
  pose proof (keeps_files_generateFunctionDoc E f a) as Hfs.
  pose proof (keeps_modules_generateFunctionDoc E f a) as Hm.
  destruct (generateFunctionDoc E f a) as [[doc|e] a1] eqn:Hgen; cbn [fst snd] in *.
  - eexists. unfold writePage. erewrite bind_Return by exact Hgen.
    split; [reflexivity |]. simpl. by rewrite Hfs, Hm.
  - unfold writePage. by erewrite bind_Raise by exact Hgen.
Qed.

Lemma same_examples_between (E : env) (f : func) (w a b : world) :
  same_examples E f w a -> same_examples E f w b -> same_examples E f a b.
Proof.
  intros [Hga Hfa] [Hgb Hfb]. split.
  - by rewrite <- Hga, <- Hgb.
  - intros path Hin. rewrite <- Hga in Hin.
    by rewrite <- (Hfa path Hin), <- (Hfb path Hin).
Qed.

Lemma pages_inv_written_from (modules : gmap str (list func)) (w a0 b0 : world)
    (written : list str) (a b : world) :
  written_from modules w a0 -> written_from modules w b0 ->
  pages_inv modules a0 b0 written a b ->
  written_from modules w a /\ written_from modules w b.
Proof.
  intros Ha0 Hb0 (_ & _ & Hin & Hout).
  split; intros p; (destruct (decide (p ∈ written)) as [Hp|Hp];
    [right; by apply Hin | destruct (Hout p Hp) as [Hpa Hpb]]).
  - rewrite Hpa. apply Ha0.
  - rewrite Hpb. apply Hb0.
Qed.

Lemma writeModules_cons (E : env) (m : str) (fns : list func)
    (ml : list (str * list func)) (a : world) :
  writeModules E ((m, fns) :: ml) a =
    match for_each (sorted func_lt id fns) (writePage E) a with
    | (Return _, a1) =>
        writeModules E ml
          (printed (printed a1 ["Summary:"])
             [flat_map (fun f => summaryLine f (moduleName f ++ "/" ++ funcName f ++ ".md"))
                (sorted func_lt id fns)])
    | (Raise e, a1) => (Raise e, a1)
    end.
Proof.
  unfold writeModules. cbn [for_each]. rewrite writePages_writePage.
  unfold mbind, M_bind.
  by destruct (for_each (sorted func_lt id fns) (writePage E) a) as [[[]|e] a1].
Qed.

Section TwoRuns.

Context (E : env) (w : world) (modules : gmap str (list func)).
Context (a0 b0 : world).
Hypothesis Hapart : examples_apart E w modules.
Hypothesis Ha0 : written_from modules w a0.
Hypothesis Hb0 : written_from modules w b0.

Lemma writePage_sim (f : func) (m : str) (fns : list func)
    (written : list str) (a b a' : world) :
  modules !! m = Some fns -> f ∈ fns ->
  pages_inv modules a0 b0 written a b ->
  writePage E f a = (Return tt, a') ->
  exists b', writePage E f b = (Return tt, b') /\
             pages_inv modules a0 b0 (docNameOf f :: written) a' b'.
Proof.
  intros Hm Hf Hinv Hrun.
  destruct (pages_inv_written_from modules w a0 b0 written a b Ha0 Hb0 Hinv)
    as [Hwa Hwb].
  pose proof (generateFunctionDoc_frame E f a b
                (same_examples_between E f w a b
                   (Hapart m fns f a Hm Hf Hwa) (Hapart m fns f b Hm Hf Hwb))) as Hsame.
  pose proof (writePage_run E f a) as Hpa.
  pose proof (writePage_run E f b) as Hpb.
  rewrite <- Hsame in Hpb.
  destruct (fst (generateFunctionDoc E f a)) as [doc|e].
  - destruct Hpa as (a1 & Hra & Hfa & Hma), Hpb as (b1 & Hrb & Hfb & Hmb).
    rewrite Hrun in Hra. injection Hra as <-.
    exists b1. split; [done |].
    destruct Hinv as (Hma0 & Hmb0 & Hin & Hout).
    split; [congruence |]. split; [congruence |]. split.
    + intros p Hp. rewrite Hfa, Hfb.
      destruct (decide (docNameOf f = p)) as [<-|Hne].
      * rewrite !lookup_insert_eq. split; [|by split; [eexists |]].
        right. right. by exists m, fns, f.
      * rewrite !lookup_insert_ne by done. apply Hin.
        apply elem_of_cons in Hp as [->|Hp]; [done | done].
    + intros p Hp. rewrite Hfa, Hfb.
      rewrite !lookup_insert_ne by (intros <-; apply Hp, elem_of_cons; by left).
      apply Hout. intros Hw. apply Hp, elem_of_cons. by right.
  - by rewrite Hrun in Hpa.
Qed.

Lemma pages_sim (m : str) (fns : list func) (l : list func) :
  modules !! m = Some fns -> (forall f, f ∈ l -> f ∈ fns) ->
  forall written a b a',
    pages_inv modules a0 b0 written a b ->
    for_each l (writePage E) a = (Return tt, a') ->
    exists b' written',
      for_each l (writePage E) b = (Return tt, b') /\
      pages_inv modules a0 b0 written' a' b' /\
      (forall p, p ∈ written' <-> p ∈ written \/ p ∈ map docNameOf l).
Proof.
  intros Hm. induction l as [|f l IH]; intros Hl written a b a' Hinv Hrun.
  - simpl in Hrun. injection Hrun as <-. exists b, written.
    split; [done |]. split; [done |]. intros p. split; [by left |].
    intros [Hp|Hp]; [done | by apply elem_of_nil in Hp].
  - cbn [for_each] in Hrun. unfold mbind at 1, M_bind at 1 in Hrun.
    destruct (writePage E f a) as [[[]|e] a1] eqn:Hstep; [|done].
    destruct (writePage_sim f m fns written a b a1 Hm
                (Hl f ltac:(apply elem_of_cons; by left)) Hinv Hstep)
      as (b1 & Hstepb & Hinv1).
    destruct (IH (fun g Hg => Hl g ltac:(apply elem_of_cons; by right))
                _ a1 b1 a' Hinv1 Hrun) as (b' & written' & Hrunb & Hinv' & Hw).
    exists b', written'. split.
    + cbn [for_each]. by erewrite bind_Return by exact Hstepb.
    + split; [done |]. intros p. rewrite Hw. cbn [map].
      rewrite !elem_of_cons. tauto.
Qed.

Lemma pages_inv_printed (written : list str) (a b : world) (la lb : list str) :
  pages_inv modules a0 b0 written a b ->
  pages_inv modules a0 b0 written (printed a la) (printed b lb).
Proof. done. Qed.

Lemma modules_sim (ml : list (str * list func)) :
  (forall m fns, (m, fns) ∈ ml -> modules !! m = Some fns) ->
  forall written a b a',
    pages_inv modules a0 b0 written a b ->
    writeModules E ml a = (Return tt, a') ->
    exists b' written',
      writeModules E ml b = (Return tt, b') /\
      pages_inv modules a0 b0 written' a' b' /\
      (forall p, p ∈ written' <->
                 p ∈ written \/
                 exists m fns f, (m, fns) ∈ ml /\ f ∈ fns /\ p = docNameOf f).
Proof.
  induction ml as [|[m fns] ml IH]; intros Hml written a b a' Hinv Hrun.
  - simpl in Hrun. injection Hrun as <-. exists b, written.
    split; [done |]. split; [done |]. intros p. split; [by left |].
    intros [Hp|(m & fns & f & Hp & _)]; [done | by apply elem_of_nil in Hp].
  - rewrite writeModules_cons in Hrun.
    destruct (for_each (sorted func_lt id fns) (writePage E) a) as [[[]|e] a1] eqn:Hpages;
      [|done].
    assert (Hm : modules !! m = Some fns) by (apply Hml, elem_of_cons; by left).
    assert (Hsorted : forall f, f ∈ sorted func_lt id fns <-> f ∈ fns).
    { intros f. by rewrite (sorted_perm func_lt id fns). }
    destruct (pages_sim m fns (sorted func_lt id fns) Hm
                (fun f Hf => proj1 (Hsorted f) Hf) written a b a1 Hinv Hpages)
      as (b1 & written1 & Hpagesb & Hinv1 & Hw1).
    match type of Hrun with
    | writeModules E ml (printed (printed a1 ?l1) ?l2) = _ =>
        destruct (IH (fun m' fns' H => Hml m' fns' ltac:(apply elem_of_cons; by right))
                    written1 _ (printed (printed b1 l1) l2) a'
                    (pages_inv_printed _ _ _ _ _
                       (pages_inv_printed _ _ _ _ _ Hinv1)) Hrun)
          as (b' & written' & Hrunb & Hinv' & Hw)
    end.
    exists b', written'. split.
    + rewrite writeModules_cons, Hpagesb. exact Hrunb.
    + split; [done |]. intros p. rewrite Hw, Hw1. split.
      * intros [[Hp|Hp]|(m' & fns' & f & Hin & Hf & ->)].
        -- by left.
        -- right. apply list_elem_of_fmap in Hp as (f & -> & Hf).
           exists m, fns, f. split; [apply elem_of_cons; by left |].
           split; [by apply Hsorted | done].
        -- right. exists m', fns', f. split; [apply elem_of_cons; by right | done].
      * intros [Hp|(m' & fns' & f & Hin & Hf & ->)]; [by left; left |].
        apply elem_of_cons in Hin as [[= -> ->]|Hin].
        -- left. right. apply list_elem_of_fmap. exists f. split; [done |].
           by apply Hsorted.
        -- right. by exists m', fns', f.
Qed.

End TwoRuns.

Lemma keeps_modules_writeModules (E : env) (ml : list (str * list func)) :
  keeps_modules (writeModules E ml).
Proof.
  apply keeps_modules_for_each. intros [m fns].
  apply keeps_modules_bind; [|by intros _].
  apply keeps_modules_for_each. intros f.
  apply keeps_modules_bind; [apply keeps_modules_generateFunctionDoc |].
  by intros doc.
Qed.

Lemma docNameOf_not_index (f : func) :
  docNameOf f <> SUMMARYFILE /\ docNameOf f <> READMEFILE.
Proof.
  assert (Hin : "/"%char ∈ docNameOf f).
  { unfold docNameOf. apply elem_of_app. right. apply elem_of_cons. by left. }
  split; intros Heq; rewrite Heq in Hin; revert Hin; absent_char.
Qed.

Lemma same_registry_sym (wa wb : world) : same_registry wa wb -> same_registry wb wa.
Proof. intros [Hm Ho]. split; [done |]. intros s. by rewrite Ho. Qed.

Lemma same_registry_trans (wa wb wc : world) :
  same_registry wa wb -> same_registry wb wc -> same_registry wa wc.
Proof.
  intros [Hm Ho] [Hm' Ho']. split; [congruence |]. intros s. by rewrite Ho, Ho'.
Qed.

Lemma registry_reads_back_same (E : env) (wa wb : world) :
  same_registry wa wb -> registry_reads_back E wa -> registry_reads_back E wb.
Proof.
  intros Hsame Hback s added Hts Hsec.
  destruct (sectionLines_same_registry E wb wa s added (same_registry_sym _ _ Hsame) Hsec)
    as (added' & Hsec' & _ & Heq).
  rewrite <- (Heq Hts). by apply (Hback s).
Qed.

(** C9 (amended).  Two runs of the whole script, the second from the files
    the first one left and with an empty registry.  Let the first run
    return, and let (1) no local source be a path the run writes (so that
    the run leaves its inputs unchanged), (2) the examples be apart from what
    the run writes: [glob] finds the same example paths for every registered
    function, and the files opened for them hold the same, whatever the
    pages and the two index documents hold, and (3) every module section the
    registry generates read back as one section (a start-marker line, lines
    without an end marker, one end-marker line that names the section).
    Then the second run returns as well, with the same registry; every
    registered function has its page after the first run and the second run
    leaves the same page; every file but the two index documents is after
    the second run what it was after the first; and each of the two index
    documents holds after the second run the lines it held after the first,
    but that a time-stamp line may give way to the time-stamp line of
    another reading of the clock; with a clock that stands still the
    documents are equal.

    And for [replaceSections] alone: under (3), applying it to the document
    it wrote, with the same registry and the same overview files, succeeds
    and writes the same lines again, up to the time-stamp lines. *)
Theorem C9_rerun (E : env) :
  (forall (files : list str) (w w1 : world),
     let sources := match files with [] => defaultFiles | _ => files end in
     MODULES w = ∅ ->
     main E files w = (Return tt, w1) ->
     (forall file, file ∈ sources -> startswith "http" file = false ->
                   ~ generated (MODULES w1) file) ->
     examples_apart E w (MODULES w1) ->
     registry_reads_back E w1 ->
     exists w2,
       main E files (restart w1) = (Return tt, w2) /\
       MODULES w2 = MODULES w1 /\
       (forall m fns f, MODULES w1 !! m = Some fns -> f ∈ fns ->
          exists page, fs w1 !! docNameOf f = Some page /\
                       fs w2 !! docNameOf f = Some page) /\
       (forall p, p <> SUMMARYFILE -> p <> READMEFILE -> fs w2 !! p = fs w1 !! p) /\
       (forall fileName, fileName = SUMMARYFILE \/ fileName = READMEFILE ->
          exists out1 out2,
            fs w1 !! fileName = Some (concat out1) /\
            fs w2 !! fileName = Some (concat out2) /\
            Forall2 (same_or_stamp E) out1 out2 /\
            ((forall n n', utcnow E n = utcnow E n') -> out1 = out2))) /\
  (forall (fileName data : str) (w w1 wb : world),
     fs w !! fileName = Some data ->
     registry_reads_back E w ->
     replaceSections E fileName w = (Return tt, w1) ->
     fs wb !! fileName = fs w1 !! fileName ->
     same_registry w wb ->
     exists out1 out2 w2,
       fs w1 !! fileName = Some (concat out1) /\
       replaceSections E fileName wb = (Return tt, w2) /\
       fs w2 !! fileName = Some (concat out2) /\
       Forall2 (same_or_stamp E) out1 out2 /\
       ((forall n n', utcnow E n = utcnow E n') -> out1 = out2)).
Proof.
  split.
  - intros files w w1 sources Hempty Hmain Hsrc Hapart Hback.
    rewrite main_stages in Hmain. fold sources in Hmain.
    destruct (scanFiles E sources w) as [[[]|e] a0] eqn:Hscan; [|done].
    destruct (writeModules E (map_to_list (MODULES a0)) a0) as [[[]|e] a1] eqn:Hpages;
      [|done].
    destruct (replaceSections E SUMMARYFILE a1) as [[[]|e] a2] eqn:Hsum; [|done].
    destruct (replaceSections_written E _ _ _ Hsum) as (data1 & o1 & Hd1 & Hfs2 & Hm2).
    destruct (replaceSections_written E _ _ _ Hmain) as (data2 & o2 & Hd2 & Hfsw1 & Hmw1).
    pose proof (keeps_files_scanFiles E sources w) as Hfs0.
    rewrite Hscan in Hfs0. cbn [snd] in Hfs0.
    pose proof (keeps_modules_writeModules E (map_to_list (MODULES a0)) a0) as Hma1.
    rewrite Hpages in Hma1. cbn [snd] in Hma1.
    assert (Hmod : MODULES w1 = MODULES a0) by congruence.
    set (modules := MODULES w1) in *.
    assert (Hml : forall m fns, (m, fns) ∈ map_to_list (MODULES a0) ->
                                modules !! m = Some fns).
    { intros m fns Hin. rewrite Hmod. by apply elem_of_map_to_list. }
    assert (Hwa0 : written_from modules w a0) by (intros p; left; by rewrite Hfs0).
    assert (Hinv0 : forall b0, pages_inv modules a0 b0 [] a0 b0).
    { intros b0. split; [done |]. split; [done |]. split; [|done].
      intros p Hp. by apply elem_of_nil in Hp. }
    (* what the first run wrote *)
    destruct (modules_sim E w modules a0 a0 Hapart Hwa0 Hwa0 _ Hml [] a0 a0 a1
                (Hinv0 a0) Hpages) as (a1' & wr & Hrun' & Hinv & _).
    rewrite Hpages in Hrun'. injection Hrun' as <-.
    destruct (pages_inv_written_from modules w a0 a0 wr a1 a1 Hwa0 Hwa0 Hinv)
      as [Hwa1 _].
    clear wr Hinv.
    assert (Hww1 : written_from modules w w1).
    { intros p. rewrite Hfsw1, Hfs2.
      destruct (decide (p = READMEFILE)) as [->|Hr]; [right; right; by left |].
      destruct (decide (p = SUMMARYFILE)) as [->|Hs]; [right; by left |].
      rewrite !lookup_insert_ne by done. apply Hwa1. }
    (* the scan of the second run *)
    destruct (alike_scanFiles
                (fun p => p ∈ sources /\ startswith "http" p = false) E sources
                (fun file H1 H2 => conj H1 H2) w (restart w1)) as [Hfst [Hmods _]].
    { split; [by rewrite Hempty |]. intros p [Hp Hhttp]. cbn [restart fs].
      destruct (Hww1 p) as [->|Hg]; [done |]. by destruct (Hsrc p Hp Hhttp). }
    pose proof (keeps_files_scanFiles E sources (restart w1)) as Hfsb0.
    rewrite Hscan in Hfst, Hmods. cbn [fst snd] in Hfst, Hmods.
    destruct (scanFiles E sources (restart w1)) as [r b0] eqn:Hscan2.
    cbn [fst snd restart fs] in Hfst, Hmods, Hfsb0. subst r.
    assert (Hwb0 : written_from modules w b0) by (intros p; rewrite Hfsb0; apply Hww1).
    (* the pages of the second run *)
    destruct (modules_sim E w modules a0 b0 Hapart Hwa0 Hwb0 _ Hml [] a0 b0 a1
                (Hinv0 b0) Hpages) as (b1 & wr & Hpages2 & (Hma & Hmb & Hin & Hout) & Hwr).
    assert (Hpage : forall p, p ∈ wr -> fs w1 !! p = fs a1 !! p).
    { intros p Hp. apply Hwr in Hp as [Hp|(m & fns & f & _ & _ & ->)];
        [by apply elem_of_nil in Hp |].
      destruct (docNameOf_not_index f) as [Hs Hr].
      rewrite Hfsw1, Hfs2. by rewrite !lookup_insert_ne. }
    assert (Hfsb1 : fs b1 = fs w1).
    { apply map_eq. intros p. destruct (decide (p ∈ wr)) as [Hp|Hp].
      - destruct (Hin p Hp) as (_ & _ & Heq). by rewrite <- Heq, Hpage.
      - destruct (Hout p Hp) as [_ ->]. by rewrite Hfsb0. }
    (* the index documents of the second run *)
    pose proof (replaceSections_same_registry E _ _ _ _ Hd1 Hsum) as S12.
    pose proof (replaceSections_same_registry E _ _ _ _ Hd2 Hmain) as S2w.
    assert (Swb : same_registry w1 b1).
    { split; [by rewrite Hmb, <- Hmods |]. intros s. by rewrite Hfsb1. }
    assert (Hne : SUMMARYFILE <> READMEFILE) by discriminate.
    destruct (replaceSections_again E SUMMARYFILE data1 a1 a2 b1 Hd1)
      as (out1 & out2 & b2 & H1 & Hsum2 & H3 & H4).
    { apply (registry_reads_back_same E w1); [|done].
      apply same_registry_sym. by apply (same_registry_trans _ a2). }
    { done. }
    { rewrite Hfsb1, Hfsw1. by rewrite lookup_insert_ne. }
    { apply (same_registry_trans _ w1); [by apply (same_registry_trans _ a2) | done]. }
    destruct (replaceSections_written E _ _ _ Hsum2) as (d & o & Hdb1 & Hfsb2 & Hmb2).
    pose proof (replaceSections_same_registry E _ _ _ _ Hdb1 Hsum2) as Sb12.
    destruct (replaceSections_again E READMEFILE data2 a2 w1 b2 Hd2)
      as (out1' & out2' & w2 & H1' & Hread2 & H3' & H4').
    { apply (registry_reads_back_same E w1); [by apply same_registry_sym | done]. }
    { done. }
    { rewrite Hfsb2. rewrite lookup_insert_ne by done. by rewrite Hfsb1. }
    { apply (same_registry_trans _ w1); [done |]. by apply (same_registry_trans _ b1). }
    destruct (replaceSections_written E _ _ _ Hread2) as (d' & o' & Hdb2 & Hfsw2 & Hmw2).
    assert (Hothers : forall p, p <> SUMMARYFILE -> p <> READMEFILE ->
                                fs w2 !! p = fs w1 !! p).
    { intros p Hs Hr. rewrite Hfsw2, Hfsb2. rewrite !lookup_insert_ne by done.
      by rewrite Hfsb1. }
    exists w2. split.
    { rewrite main_stages. fold sources. rewrite Hscan2. rewrite <- Hmods.
      by rewrite Hpages2, Hsum2. }
    split; [by rewrite Hmw2, Hmb2, Hmb, <- Hmods |]. split; [|split; [exact Hothers |]].
    + intros m fns f Hm Hf.
      assert (Hp : docNameOf f ∈ wr).
      { apply Hwr. right. exists m, fns, f. split; [|done].
        apply elem_of_map_to_list. by rewrite <- Hmod. }
      destruct (Hin _ Hp) as (_ & [page Hpg] & _). exists page.
      destruct (docNameOf_not_index f) as [Hs Hr].
      rewrite (Hothers _ Hs Hr). by rewrite (Hpage _ Hp).
    + intros fileName [->| ->].
      * exists out1, out2. split; [|split; [|split; [done |]]].
        -- rewrite Hfsw1. by rewrite lookup_insert_ne.
        -- rewrite Hfsw2. by rewrite lookup_insert_ne.
        -- intros Htime. by apply (same_or_stamp_eq E).
      * exists out1', out2'. repeat (split; [done |]).
        intros Htime. by apply (same_or_stamp_eq E).
  - intros fileName data w w1 wb Hdata Hreg Hrun Hfile Hsame.
    destruct (replaceSections_again E fileName data w w1 wb Hdata Hreg Hrun Hfile Hsame)
      as (out1 & out2 & w2 & H1 & H2 & H3 & H4).
    exists out1, out2, w2. repeat (split; [done |]).
    intros Htime. by apply (same_or_stamp_eq E).
Qed.

(** ** Two runs: a run on [rerun_world] *)

Lemma simple_glob_filter (files : gmap str str) (pattern : str) :
  simple_glob files pattern =
    List.filter (glob_match pattern) (fst <$> map_to_list files).
Proof. reflexivity. Qed.

(** When one file only matches the pattern, [simple_glob] finds it. *)
Lemma simple_glob_one (files : gmap str str) (pattern path : str) :
  is_Some (files !! path) ->
  glob_match pattern path = true ->
  (forall p, is_Some (files !! p) -> glob_match pattern p = true -> p = path) ->
  simple_glob files pattern = [path].
Proof.
  intros [v Hv] Hmatch Honly. rewrite simple_glob_filter.
  set (l := List.filter _ _).
  assert (Hnd : NoDup l).
  { apply NoDup_ListNoDup, List.NoDup_filter, NoDup_ListNoDup, NoDup_fst_map_to_list. }
  assert (Hl : forall p, p ∈ l <-> p = path).
  { intros p. unfold l. rewrite list_elem_of_In, List.filter_In, <- list_elem_of_In.
    rewrite list_elem_of_fmap. split.
    - intros [([q u] & -> & Hq%elem_of_map_to_list) Hp]. apply Honly; [by eexists | done].
    - intros ->. split; [|done]. exists (path, v). split; [done |].
      by apply elem_of_map_to_list. }
  destruct l as [|a [|b l']].
  - assert (H : path ∈ @nil str) by by apply Hl. by apply elem_of_nil in H.
  - f_equal. apply Hl. apply elem_of_cons. by left.
  - assert (Ha : a = path) by (apply Hl, elem_of_cons; by left).
    assert (Hb : b = path) by (apply Hl, elem_of_cons; right; apply elem_of_cons; by left).
    subst. apply NoDup_cons_1_1 in Hnd. destruct Hnd. apply elem_of_cons. by left.
Qed.

Lemma rerun_registry :
  MODULES (snd (main ticking_env ["api.cpp"] rerun_world)) =
    {[ ("lcd" : str) := [lcd_clear] ]}.
Proof. vm_compute. reflexivity. Qed.

Lemma rerun_generated (p : str) :
  generated {[ ("lcd" : str) := [lcd_clear] ]} p ->
  p = SUMMARYFILE \/ p = READMEFILE \/ p = "lcd/clear.md".
Proof.
  intros [->|[->|(m & fns & f & Hm & Hf & ->)]]; [by left | right; by left |].
  apply lookup_singleton_Some in Hm as [<- <-].
  apply list_elem_of_singleton in Hf as ->. right. by right.
Qed.

Lemma rerun_examples_apart :
  examples_apart ticking_env rerun_world {[ ("lcd" : str) := [lcd_clear] ]}.
Proof.
  intros m fns f x Hm Hf Hx.
  apply lookup_singleton_Some in Hm as [<- <-].
  apply list_elem_of_singleton in Hf as ->.
  assert (Hex : fs x !! ("lcd/clear-example.lua" : str) =
                fs rerun_world !! ("lcd/clear-example.lua" : str)).
  { destruct (Hx "lcd/clear-example.lua") as [H|H]; [done |].
    apply rerun_generated in H as [H|[H|H]]; discriminate H. }
  assert (Hglob : glob ticking_env (fs x) "lcd/clear-example*.*" =
                  ["lcd/clear-example.lua"]).
  { apply simple_glob_one.
    - rewrite Hex. by eexists.
    - reflexivity.
    - intros p [v Hp] Hmatch. destruct (Hx p) as [H|H].
      + rewrite H in Hp. apply elem_of_map_to_list in Hp.
        let l := eval vm_compute in (map_to_list (fs rerun_world)) in
        assert (Hfiles : map_to_list (fs rerun_world) = l) by (vm_compute; reflexivity).
        rewrite Hfiles in Hp. clear Hfiles.
        repeat (apply elem_of_cons in Hp as [Hp|Hp];
                [injection Hp as -> _;
                 first [reflexivity | vm_compute in Hmatch; discriminate Hmatch] |]).
        apply elem_of_nil in Hp. destruct Hp.
      + apply rerun_generated in H as [->|[->| ->]];
          vm_compute in Hmatch; discriminate Hmatch. }
  split.
  - etransitivity; [|symmetry; exact Hglob]. vm_compute. reflexivity.
  - intros path Hin.
    assert (Hpath : path ∈ ["lcd/clear-example.lua" : str]) by exact Hin.
    apply list_elem_of_singleton in Hpath as ->. symmetry. exact Hex.
Qed.

Lemma rerun_reads_back :
  registry_reads_back ticking_env (snd (main ticking_env ["api.cpp"] rerun_world)).
Proof.
  intros s added Hts. unfold sectionLines.
  rewrite (proj2 (str_eqb_neq _ _) Hts). rewrite rerun_registry.
  destruct (decide (s = "lcd")) as [->|Hne].
  - rewrite lookup_singleton_eq. intros Hsec. apply (inj Some) in Hsec as <-.
    apply reads_backb_sound. vm_compute. reflexivity.
  - rewrite lookup_singleton_ne by done. done.
Qed.

Lemma C9_witness :
  let w1 := snd (main ticking_env ["api.cpp"] rerun_world) in
  (exists w2,
     main ticking_env ["api.cpp"] (restart w1) = (Return tt, w2) /\
     (exists page, fs w1 !! ("lcd/clear.md" : str) = Some page /\
                   fs w2 !! ("lcd/clear.md" : str) = Some page) /\
     fs w2 !! ("lcd/clear-example.lua" : str) = fs w1 !! ("lcd/clear-example.lua" : str) /\
     exists out1 out2,
       fs w1 !! SUMMARYFILE = Some (concat out1) /\
       fs w2 !! SUMMARYFILE = Some (concat out2) /\
       Forall2 (same_or_stamp ticking_env) out1 out2) /\
  (let x1 := snd (replaceSections ticking_env SUMMARYFILE lcd_world) in
   exists out1 out2 x2,
     fs x1 !! SUMMARYFILE = Some (concat out1) /\
     replaceSections ticking_env SUMMARYFILE x1 = (Return tt, x2) /\
     fs x2 !! SUMMARYFILE = Some (concat out2) /\
     Forall2 (same_or_stamp ticking_env) out1 out2).
Proof.
  intros w1. destruct (C9_rerun ticking_env) as [Hruns Hindex]. split.
  - destruct (Hruns ["api.cpp"] rerun_world w1)
      as (w2 & Hrun2 & _ & Hpages & Hothers & Hdocs).
    + reflexivity.
    + vm_compute. reflexivity.
    + intros file Hfile _ Hgen. apply list_elem_of_singleton in Hfile as ->.
      unfold w1 in Hgen. rewrite rerun_registry in Hgen.
      apply rerun_generated in Hgen as [H|[H|H]]; discriminate H.
    + unfold w1. rewrite rerun_registry. exact rerun_examples_apart.
    + exact rerun_reads_back.
    + exists w2. split; [exact Hrun2 |]. split.
      * apply (Hpages "lcd" [lcd_clear] lcd_clear).
        -- unfold w1. rewrite rerun_registry. apply lookup_singleton_eq.
        -- apply list_elem_of_singleton. reflexivity.
      * split; [apply Hothers; discriminate |].
        destruct (Hdocs SUMMARYFILE (or_introl eq_refl)) as (out1 & out2 & H1 & H2 & H3 & _).
        exists out1, out2. split; [exact H1 |]. split; [exact H2 | exact H3].
  - intros x1.
    assert (Hrun : replaceSections ticking_env SUMMARYFILE lcd_world = (Return tt, x1))
      by (vm_compute; reflexivity).
    destruct (Hindex SUMMARYFILE lcd_summary lcd_world x1 x1)
      as (out1 & out2 & x2 & H1 & H2 & H3 & H4 & _).
    + reflexivity.
    + exact lcd_world_reads_back.
    + exact Hrun.
    + reflexivity.
    + exact (replaceSections_same_registry ticking_env SUMMARYFILE lcd_summary
               lcd_world x1 eq_refl Hrun).
    + exists out1, out2, x2. split; [exact H1 |]. split; [exact H2 |].
      split; [exact H3 | exact H4].
Defined.

(** C9 (as stated) fails, for the index and for the pages.

    The index: the script is run twice on [marker_source], the second time
    from the files the first run left.  Both runs end well and the source is
    as it was, but the index the second run writes is not the index the
    first run wrote: the line of [m.a] holds the text of an end marker, so
    the second run takes it for the end of the section and generates the
    section of [m] once there and once more at the true end.

    The pages: the script is run twice on [example_page_source].  Both runs
    end well and the source is as it was.  The first run writes the page of
    [m.g] when no example of it is there, and then the page of
    [m.g-example] under [m/g-example.md]; the second run takes that page
    for an example of [m.g] and copies it into the page of [m.g]. *)
Lemma C9_counterexample :
  (let w1 := snd (main local_env ["api.cpp"] marker_world) in
   let w2 := snd (main local_env ["api.cpp"] (restart w1)) in
   fst (main local_env ["api.cpp"] marker_world) = Return tt /\
   fst (main local_env ["api.cpp"] (restart w1)) = Return tt /\
   fs w1 !! ("api.cpp" : str) = Some marker_source /\
   fs w1 !! SUMMARYFILE =
     Some "# Summary\n   * [M Functions](m/m_functions.md) [//]: <> (LUADOC-BEGIN:m)\n      * [m.a() [//]: <> (LUADOC-END:m)](m/a.md)\n      * [m.b()](m/b.md) [//]: <> (LUADOC-END:m)\n" /\
   fs w2 !! SUMMARYFILE =
     Some "# Summary\n   * [M Functions](m/m_functions.md) [//]: <> (LUADOC-BEGIN:m)\n      * [m.a() [//]: <> (LUADOC-END:m)](m/a.md)\n      * [m.b()](m/b.md) [//]: <> (LUADOC-END:m)\n   * [M Functions](m/m_functions.md) [//]: <> (LUADOC-BEGIN:m)\n      * [m.a() [//]: <> (LUADOC-END:m)](m/a.md)\n      * [m.b()](m/b.md) [//]: <> (LUADOC-END:m)\n" /\
   fs w2 !! SUMMARYFILE <> fs w1 !! SUMMARYFILE) /\
  (let w1 := snd (main local_env ["api.cpp"] example_page_world) in
   let w2 := snd (main local_env ["api.cpp"] (restart w1)) in
   fst (main local_env ["api.cpp"] example_page_world) = Return tt /\
   fst (main local_env ["api.cpp"] (restart w1)) = Return tt /\
   fs w1 !! ("api.cpp" : str) = Some example_page_source /\
   fs w2 !! ("api.cpp" : str) = Some example_page_source /\
   fs w1 !! ("m/g.md" : str) =
     Some "<!-- This file was generated by the script. Do not edit it, any changes will be lost! -->\n\n## m.g()\n\n\n\nDoes g.\n\n\n#### Parameters\n\nnone\n\n#### Return value\n\nnone\n\n" /\
   fs w2 !! ("m/g.md" : str) =
     Some "<!-- This file was generated by the script. Do not edit it, any changes will be lost! -->\n\n## m.g()\n\n\n\nDoes g.\n\n\n#### Parameters\n\nnone\n\n#### Return value\n\nnone\n\n\n\n---\n\n### Examples\n\n<!-- This file was generated by the script. Do not edit it, any changes will be lost! -->\n\n## m.g-example()\n\n\n\nShows g.\n\n\n#### Parameters\n\nnone\n\n#### Return value\n\nnone\n\n\n\n" /\
   fs w2 !! ("m/g.md" : str) <> fs w1 !! ("m/g.md" : str)).
Proof.
  split.
  - repeat split; try (vm_compute; reflexivity). vm_compute. discriminate.
  - repeat split; try (vm_compute; reflexivity). vm_compute. discriminate.
Qed.
